(** * Keymon: the event-to-actuation control loop of the RG34XX key monitor

    A shallow embedding of [src/keymon/keymon.c] (the full variant, module
    [Keymon]) and of the parts of [src/keymon.c] that differ from it (the
    single-file variant, module [KeymonSimple]), followed by the properties
    of the brightness actuator, the volume actuator, the modifier debouncer,
    the process-change monitor and the key dispatch.

    Conventions.
    - C [int] values are [Z]; arithmetic that the C code performs on [int]
      goes through [Cint.wrap32], arithmetic on [long long] / [time_t] /
      [long] (LP64) through [Cint.wrap64]; C division is [Z.quot].
    - The static variables of the program and the two persistence files form
      one [State] record that is threaded through a small state-and-trace
      monad [M].  The calls by which the code reaches the display device,
      the mixer, a persistence file, a clock, the input device or the
      process table each append an [Event] to the trace (the whole scan of
      [/proc] is one event; closing a file or a pipe is none).
    - What the outside world answers (clock readings, the display driver,
      the mixer pipe, the process table) is passed in as explicit arguments.
    - Diagnostic [printf] output is not modelled. *)

From Stdlib Require Import ZArith Lia List Bool String Ascii.
Import ListNotations.
Open Scope Z_scope.

(** ** Machine integers *)

Module Cint.

Definition wrap32 (x : Z) : Z := (x + 2147483648) mod 4294967296 - 2147483648.
Definition wrap64 (x : Z) : Z :=
  (x + 9223372036854775808) mod 18446744073709551616 - 9223372036854775808.

Definition int_add (a b : Z) : Z := wrap32 (a + b).
Definition int_sub (a b : Z) : Z := wrap32 (a - b).
Definition int_mul (a b : Z) : Z := wrap32 (a * b).
(** [a / b] on [int]; every divisor in the program is a positive constant. *)
Definition int_div (a b : Z) : Z := Z.quot a b.
(** [abs(a)] from <stdlib.h>. *)
Definition int_abs (a : Z) : Z := wrap32 (Z.abs a).

(** An [int] used as a condition. *)
Definition truthy (x : Z) : bool := negb (x =? 0).

End Cint.

(** ** C strings *)

Module Cstr.

Definition newline : ascii := "010"%char.

Definition isdigit (c : ascii) : bool :=
  let n := nat_of_ascii c in (Nat.leb 48 n && Nat.leb n 57)%bool.

(** [isdigit(s[0])]; the first byte of the empty string is the terminator. *)
Definition first_isdigit (s : string) : bool :=
  match s with
  | EmptyString => false
  | String c _ => isdigit c
  end.

(** The characters [fgets] stores when at most [n] of them fit: it stops
    after a newline, at the end of the input, or when the buffer is full. *)
Fixpoint fgets_chars (n : nat) (content : string) : string :=
  match n, content with
  | O, _ => EmptyString
  | _, EmptyString => EmptyString
  | S n', String c rest =>
      if Ascii.eqb c newline then String c EmptyString
      else String c (fgets_chars n' rest)
  end.

(** [fgets(buf, size, fp)] on a freshly opened file with the given content:
    [None] is the NULL it returns at end of file. *)
Definition fgets (size : nat) (content : string) : option string :=
  match content with
  | EmptyString => None
  | _ => Some (fgets_chars (size - 1) content)
  end.

(** [nl = strchr(s, '\n'); if (nl) *nl = '\0';] *)
Fixpoint strip_newline (s : string) : string :=
  match s with
  | EmptyString => EmptyString
  | String c rest =>
      if Ascii.eqb c newline then EmptyString else String c (strip_newline rest)
  end.

(** [strncpy(dst, src, n); dst[n] = '\0';] *)
Fixpoint strncpy (n : nat) (src : string) : string :=
  match n, src with
  | O, _ => EmptyString
  | _, EmptyString => EmptyString
  | S n', String c rest => String c (strncpy n' rest)
  end.

(** [strstr(haystack, needle) != NULL] *)
Fixpoint strstr (haystack needle : string) : bool :=
  if String.prefix needle haystack then true
  else match haystack with
       | EmptyString => false
       | String _ rest => strstr rest needle
       end.

(** [strcmp(a, b) != 0] *)
Definition strcmp_ne (a b : string) : bool := negb (String.eqb a b).

(** [s[0] != '\0'] *)
Definition nonempty (s : string) : bool :=
  match s with
  | EmptyString => false
  | String _ _ => true
  end.

End Cstr.

(** ** The full variant, [src/keymon/keymon.c] *)

Module Keymon.

Import Cint Cstr.

Definition KEY_MENU_LONG : Z := 312.
Definition KEY_VOLUP : Z := 115.
Definition KEY_VOLDOWN : Z := 114.
Definition MAX_STEPS : Z := 16.
Definition MAX_VOLUME : Z := 31.

Definition PROCESS_CHECK_INTERVAL : Z := 2.
Definition MAX_PROC_NAME : nat := 64.

Definition MIN_BRIGHTNESS_INTERVAL_NS : Z := 150000000.
Definition MIN_MENU_DEBOUNCE_NS : Z := 50000000.
Definition MIN_VOLUME_CHANGE_INTERVAL_NS : Z := 300000000.
Definition IOCTL_RETRY_DELAY_US : Z := 10000.
Definition MAX_IOCTL_RETRIES : Z := 3.

(** <linux/input.h> and <errno.h> *)
Definition EV_KEY : Z := 1.
Definition EPERM : Z := 1.
Definition EAGAIN : Z := 11.
Definition EBUSY : Z := 16.

Definition brightness_values : list Z := [5; 10; 20; 50; 70; 140; 200; 255].

Definition ignored_processes : list string :=
  [ "keymon"; "init"; "kthreadd"; "ksoftirqd";
    "migration"; "rcu_"; "systemd"; "dbus"; "getty"; "sshd";
    "kernel"; "worker"; "irq/"; "mmcqd"; "jbd2"; "ext4-";
    "led_workqueue"; "cfg80211"; "wpa_supplicant"; "dhcpcd";
    "NetworkManager"; "chronyd"; "rsyslog"; "cron"; "bash"; "sh" ]%string.

Record timespec : Type := mkTimespec { tv_sec : Z; tv_nsec : Z }.

(** The two persistence files. *)
Inductive File : Type := VOLUME_PERSIST_FILE | LAST_PROCESS_FILE.

(** System calls and library calls with an effect outside the process. *)
Inductive Event : Type :=
| ClockGettime                       (* clock_gettime(CLOCK_MONOTONIC, ..) *)
| TimeNull                           (* time(NULL) *)
| Usleep (usec : Z)
| OpenDisp                           (* open("/dev/disp", O_RDWR) *)
| CloseDisp
| IoctlSetBrightness (value : Z)     (* ioctl(fd, DISP_LCD_SET_BRIGHTNESS, {0, value, 0, 0}) *)
| IoctlGetBrightness (display : Z)   (* ioctl(fd, DISP_LCD_GET_BRIGHTNESS, {display, 0, 0, 0}) *)
| TinymixSet (vol : Z)               (* system("tinymix set 2 <vol> ..") *)
| TinymixGet                         (* popen("tinymix get 2 ..") *)
| OpendirProc                        (* opendir("/proc") *)
| FopenRead (f : File)
| FopenWrite (f : File)
| OpenInput                          (* open("/dev/input/event1", O_RDONLY) *)
| SelectInput                        (* select(..) on the input device, 1 s timeout *)
| ReadInput                          (* read(input_fd, &ev, sizeof(ev)) *)
| AmixerSet (vol : Z)                (* src/keymon.c: system("amixer set 'lineout volume' <vol>") *)
| AmixerGet.                         (* src/keymon.c: popen("amixer get 'lineout volume' ..") *)

(** The static variables, then the state of the two files.
    - [volume_file]: [None] when the file cannot be opened for reading,
      [Some None] when [fscanf "%d"] converts nothing, [Some (Some v)] when
      it yields [v] (what [fprintf "%d\n"] of [v] leaves behind).
    - [lastproc_file]: [None] when the file cannot be opened for reading,
      otherwise its text.
    - [*_writable]: whether [fopen(.., "w")] succeeds. *)
Record State : Type := mkState {
  brightness_level : Z;
  menu_long_pressed : Z;
  brightness_get_supported : Z;
  last_brightness_change : timespec;
  last_menu_event : timespec;
  last_volume_change : timespec;
  last_process_check : Z;
  persistent_volume_step : Z;
  skip_next_restore : Z;
  volume_file : option (option Z);
  volume_file_writable : bool;
  lastproc_file : option string;
  lastproc_file_writable : bool
}.

(** The initialisers of the static variables, over a given disk. *)
Definition initial_state (vf : option (option Z)) (vw : bool)
    (pf : option string) (pw : bool) : State :=
  {| brightness_level := 3;
     menu_long_pressed := 0;
     brightness_get_supported := -1;
     last_brightness_change := mkTimespec 0 0;
     last_menu_event := mkTimespec 0 0;
     last_volume_change := mkTimespec 0 0;
     last_process_check := 0;
     persistent_volume_step := 3;
     skip_next_restore := 0;
     volume_file := vf;
     volume_file_writable := vw;
     lastproc_file := pf;
     lastproc_file_writable := pw |}.

Definition set_brightness_level (v : Z) (s : State) : State :=
  mkState v (menu_long_pressed s) (brightness_get_supported s)
    (last_brightness_change s) (last_menu_event s) (last_volume_change s)
    (last_process_check s) (persistent_volume_step s) (skip_next_restore s)
    (volume_file s) (volume_file_writable s) (lastproc_file s)
    (lastproc_file_writable s).

Definition set_menu_long_pressed (v : Z) (s : State) : State :=
  mkState (brightness_level s) v (brightness_get_supported s)
    (last_brightness_change s) (last_menu_event s) (last_volume_change s)
    (last_process_check s) (persistent_volume_step s) (skip_next_restore s)
    (volume_file s) (volume_file_writable s) (lastproc_file s)
    (lastproc_file_writable s).

Definition set_brightness_get_supported (v : Z) (s : State) : State :=
  mkState (brightness_level s) (menu_long_pressed s) v
    (last_brightness_change s) (last_menu_event s) (last_volume_change s)
    (last_process_check s) (persistent_volume_step s) (skip_next_restore s)
    (volume_file s) (volume_file_writable s) (lastproc_file s)
    (lastproc_file_writable s).

Definition set_last_brightness_change (t : timespec) (s : State) : State :=
  mkState (brightness_level s) (menu_long_pressed s) (brightness_get_supported s)
    t (last_menu_event s) (last_volume_change s)
    (last_process_check s) (persistent_volume_step s) (skip_next_restore s)
    (volume_file s) (volume_file_writable s) (lastproc_file s)
    (lastproc_file_writable s).

Definition set_last_menu_event (t : timespec) (s : State) : State :=
  mkState (brightness_level s) (menu_long_pressed s) (brightness_get_supported s)
    (last_brightness_change s) t (last_volume_change s)
    (last_process_check s) (persistent_volume_step s) (skip_next_restore s)
    (volume_file s) (volume_file_writable s) (lastproc_file s)
    (lastproc_file_writable s).

Definition set_last_volume_change (t : timespec) (s : State) : State :=
  mkState (brightness_level s) (menu_long_pressed s) (brightness_get_supported s)
    (last_brightness_change s) (last_menu_event s) t
    (last_process_check s) (persistent_volume_step s) (skip_next_restore s)
    (volume_file s) (volume_file_writable s) (lastproc_file s)
    (lastproc_file_writable s).

Definition set_last_process_check (t : Z) (s : State) : State :=
  mkState (brightness_level s) (menu_long_pressed s) (brightness_get_supported s)
    (last_brightness_change s) (last_menu_event s) (last_volume_change s)
    t (persistent_volume_step s) (skip_next_restore s)
    (volume_file s) (volume_file_writable s) (lastproc_file s)
    (lastproc_file_writable s).

Definition set_persistent_volume_step (v : Z) (s : State) : State :=
  mkState (brightness_level s) (menu_long_pressed s) (brightness_get_supported s)
    (last_brightness_change s) (last_menu_event s) (last_volume_change s)
    (last_process_check s) v (skip_next_restore s)
    (volume_file s) (volume_file_writable s) (lastproc_file s)
    (lastproc_file_writable s).

Definition set_skip_next_restore (v : Z) (s : State) : State :=
  mkState (brightness_level s) (menu_long_pressed s) (brightness_get_supported s)
    (last_brightness_change s) (last_menu_event s) (last_volume_change s)
    (last_process_check s) (persistent_volume_step s) v
    (volume_file s) (volume_file_writable s) (lastproc_file s)
    (lastproc_file_writable s).

Definition set_volume_file (c : option (option Z)) (s : State) : State :=
  mkState (brightness_level s) (menu_long_pressed s) (brightness_get_supported s)
    (last_brightness_change s) (last_menu_event s) (last_volume_change s)
    (last_process_check s) (persistent_volume_step s) (skip_next_restore s)
    c (volume_file_writable s) (lastproc_file s)
    (lastproc_file_writable s).

Definition set_lastproc_file (c : option string) (s : State) : State :=
  mkState (brightness_level s) (menu_long_pressed s) (brightness_get_supported s)
    (last_brightness_change s) (last_menu_event s) (last_volume_change s)
    (last_process_check s) (persistent_volume_step s) (skip_next_restore s)
    (volume_file s) (volume_file_writable s) c
    (lastproc_file_writable s).

(** *** The state-and-trace monad *)

Definition M (A : Type) : Type := State -> A * State * list Event.

Definition ret {A : Type} (a : A) : M A := fun s => (a, s, []).

Definition bind {A B : Type} (m : M A) (k : A -> M B) : M B :=
  fun s =>
    let '(a, s1, t1) := m s in
    let '(b, s2, t2) := k a s1 in
    (b, s2, t1 ++ t2).

Definition gets {A : Type} (f : State -> A) : M A := fun s => (f s, s, []).
Definition modify (f : State -> State) : M unit := fun s => (tt, f s, []).
Definition emit (e : Event) : M unit := fun s => (tt, s, [e]).

Declare Scope keymon_scope.
Delimit Scope keymon_scope with keymon.
Notation "x <- c1 ;; c2" := (bind c1 (fun x => c2))
  (at level 61, c1 at next level, right associativity) : keymon_scope.
Notation "c1 ;; c2" := (bind c1 (fun _ => c2))
  (at level 61, right associativity) : keymon_scope.
Open Scope keymon_scope.

Definition result {A : Type} (r : A * State * list Event) : A := fst (fst r).
Definition final {A : Type} (r : A * State * list Event) : State := snd (fst r).
Definition trace {A : Type} (r : A * State * list Event) : list Event := snd r.

(** *** Timing *)

(** [get_current_time]: the reading [now] is what the monotonic clock
    answers. *)
Definition get_current_time (now : timespec) : M timespec :=
  emit ClockGettime ;; ret now.

(** [(a->tv_sec - b->tv_sec) * 1000000000LL + (a->tv_nsec - b->tv_nsec)] *)
Definition timespec_diff_ns (a b : timespec) : Z :=
  wrap64 (wrap64 (wrap64 (tv_sec a - tv_sec b) * 1000000000)
          + wrap64 (tv_nsec a - tv_nsec b)).

(** *** Process table *)

(** One entry that [readdir] returns from [/proc]: its name, the text of
    [/proc/<name>/comm] ([None] when [fopen] fails) and the [st_mtime] of
    [/proc/<name>/stat] ([None] when [stat] fails). *)
Record proc_entry : Type := mkProc {
  d_name : string;
  comm_file : option string;
  stat_mtime : option Z
}.

Fixpoint should_ignore_among (ignored : list string) (proc_name : string) : bool :=
  match ignored with
  | [] => false
  | pat :: rest =>
      if strstr proc_name pat then true else should_ignore_among rest proc_name
  end.

Definition should_ignore_process (proc_name : string) : bool :=
  should_ignore_among ignored_processes proc_name.

(** The body of the [while ((entry = readdir(proc_dir)) != NULL)] loop of
    [get_newest_process], on the pair [(newest_time, newest_name)]. *)
Definition scan_entry (acc : Z * string) (entry : proc_entry) : Z * string :=
  let '(newest_time, newest_name) := acc in
  if negb (first_isdigit (d_name entry)) then acc
  else
    match comm_file entry with
    | None => acc
    | Some content =>
        match fgets MAX_PROC_NAME content with
        | None => acc
        | Some line =>
            let comm_name := strip_newline line in
            if should_ignore_process comm_name then acc
            else
              match stat_mtime entry with
              | None => acc
              | Some mtime =>
                  if mtime >? newest_time
                  then (mtime, strncpy (MAX_PROC_NAME - 1) comm_name)
                  else acc
              end
        end
    end.

(** [get_newest_process(proc_name, name_size)]: [None] is the return value
    0, [Some name] the return value 1 with [name] stored in [proc_name].
    [proc] is [None] when [opendir("/proc")] fails. *)
Definition get_newest_process (name_size : nat)
    (proc : option (list proc_entry)) : M (option string) :=
  emit OpendirProc ;;
  match proc with
  | None => ret None
  | Some entries =>
      let '(_, newest_name) := fold_left scan_entry entries (0, EmptyString) in
      if nonempty newest_name
      then ret (Some (strncpy (name_size - 1) newest_name))
      else ret None
  end.

(** *** Persistence *)

Definition save_last_process (proc_name : string) : M unit :=
  emit (FopenWrite LAST_PROCESS_FILE) ;;
  w <- gets lastproc_file_writable ;;
  if w
  then modify (set_lastproc_file (Some (proc_name ++ String newline EmptyString)%string))
  else ret tt.

(** [None] is the return value 0 (the buffer is left as it was). *)
Definition load_last_process (name_size : nat) : M (option string) :=
  emit (FopenRead LAST_PROCESS_FILE) ;;
  f <- gets lastproc_file ;;
  match f with
  | Some content =>
      match fgets name_size content with
      | Some line => ret (Some (strip_newline line))
      | None => ret None
      end
  | None => ret None
  end.

Definition save_volume_to_file (step : Z) : M unit :=
  emit (FopenWrite VOLUME_PERSIST_FILE) ;;
  w <- gets volume_file_writable ;;
  if w
  then modify (set_volume_file (Some (Some step))) ;;
       modify (set_persistent_volume_step step)
  else ret tt.

Definition clamp_step (step : Z) : Z :=
  let step := if step <? 0 then 0 else step in
  if step >? MAX_STEPS then MAX_STEPS else step.

Definition load_volume_from_file : M Z :=
  emit (FopenRead VOLUME_PERSIST_FILE) ;;
  f <- gets volume_file ;;
  match f with
  | Some (Some step) =>
      let step := clamp_step step in
      modify (set_persistent_volume_step step) ;;
      ret step
  | _ =>
      modify (set_persistent_volume_step 3) ;;
      ret 3
  end.

(** *** Brightness *)

(** What one pass of the retry loop meets: [open] fails, or the [ioctl]
    returns 0, or it fails and [errno] reads as given. *)
Inductive disp_attempt : Type :=
| OpenFails
| IoctlOk
| IoctlFails (errno : Z).

Definition transient_errno (e : Z) : bool :=
  (e =? EPERM) || (e =? EBUSY) || (e =? EAGAIN).

(** [for (int retry = ..; retry < MAX_IOCTL_RETRIES; retry++) { .. } return -1;]
    [fuel] bounds the number of passes; [dev retry] is what pass [retry]
    meets. *)
Fixpoint set_brightness_retry (fuel : nat) (retry : Z) (value : Z)
    (dev : Z -> disp_attempt) : M Z :=
  match fuel with
  | O => ret (-1)
  | S fuel' =>
      if negb (retry <? MAX_IOCTL_RETRIES) then ret (-1)
      else
        emit OpenDisp ;;
        match dev retry with
        | OpenFails =>
            if retry <? MAX_IOCTL_RETRIES - 1
            then emit (Usleep IOCTL_RETRY_DELAY_US) ;;
                 set_brightness_retry fuel' (int_add retry 1) value dev
            else ret (-1)
        | IoctlOk =>
            emit (IoctlSetBrightness value) ;;
            emit CloseDisp ;;
            ret 0
        | IoctlFails errno =>
            emit (IoctlSetBrightness value) ;;
            emit CloseDisp ;;
            if transient_errno errno
            then
              if retry <? MAX_IOCTL_RETRIES - 1
              then emit (Usleep (int_mul IOCTL_RETRY_DELAY_US (int_add retry 1))) ;;
                   set_brightness_retry fuel' (int_add retry 1) value dev
              else set_brightness_retry fuel' (int_add retry 1) value dev
            else ret (-1)
        end
  end.

Definition clamp_level (level : Z) : Z :=
  let level := if level <? 0 then 0 else level in
  if level >? 7 then 7 else level.

Definition set_brightness_ioctl (level : Z) (now : timespec)
    (dev : Z -> disp_attempt) : M Z :=
  let level := clamp_level level in
  current_time <- get_current_time now ;;
  last <- gets last_brightness_change ;;
  if timespec_diff_ns current_time last <? MIN_BRIGHTNESS_INTERVAL_NS
  then ret 0
  else
    modify (set_brightness_level level) ;;
    modify (set_last_brightness_change current_time) ;;
    let value := nth (Z.to_nat level) brightness_values 0 in
    set_brightness_retry (Z.to_nat MAX_IOCTL_RETRIES) 0 value dev.

(** What the display driver answers to the startup probe: whether [open]
    succeeds, and for the query with [param[0] = display] either [None]
    (the [ioctl] fails) or the values of [param[0]] and [param[1]] after
    it. *)
Record disp_probe : Type := mkProbe {
  probe_open : bool;
  probe_ioctl : Z -> option (Z * Z)
}.

Definition plausible (raw : Z) : bool := (raw >? 0) && (raw <=? 255).

(** [for (int i = ..; i < 8; i++) if (brightness_values[i] == raw) ..] *)
Fixpoint find_exact (i : Z) (values : list Z) (raw : Z) : option Z :=
  match values with
  | [] => None
  | v :: rest => if v =? raw then Some i else find_exact (i + 1) rest raw
  end.

(** The loop that looks for the closest entry, from index [i] on, over the
    pair [(closest_i, closest_diff)]. *)
Fixpoint find_closest (i : Z) (values : list Z) (raw : Z) (acc : Z * Z) : Z * Z :=
  match values with
  | [] => acc
  | v :: rest =>
      let diff := int_abs (int_sub v raw) in
      let acc' := if diff <? snd acc then (i, diff) else acc in
      find_closest (i + 1) rest raw acc'
  end.

(** The code after the label [brightness_found], with [raw = (int)param[1]]. *)
Definition level_of_raw (raw : Z) : Z :=
  match find_exact 0 brightness_values raw with
  | Some i => i
  | None =>
      let closest_diff := int_abs (int_sub (nth 0 brightness_values 0) raw) in
      fst (find_closest 1 (tl brightness_values) raw (0, closest_diff))
  end.

Definition brightness_found (param1 : Z) : M (option Z) :=
  emit CloseDisp ;;
  modify (set_brightness_get_supported 1) ;;
  ret (Some (level_of_raw (wrap32 param1))).

Definition brightness_not_found : M (option Z) :=
  modify (set_brightness_get_supported 0) ;;
  emit CloseDisp ;;
  ret None.

(** [get_brightness_ioctl(&level)]: [Some l] is the return value 0 with
    [*level = l], [None] the return value -1. *)
Definition get_brightness_ioctl (dev : disp_probe) : M (option Z) :=
  supported <- gets brightness_get_supported ;;
  if supported =? 0 then ret None
  else
    emit OpenDisp ;;
    if negb (probe_open dev)
    then modify (set_brightness_get_supported 0) ;; ret None
    else
      emit (IoctlGetBrightness 0) ;;
      let first :=
        match probe_ioctl dev 0 with
        | Some (p0, p1) =>
            if plausible p1 then Some p1
            else if plausible p0 then Some p0
            else None
        | None => None
        end in
      match first with
      | Some raw => brightness_found raw
      | None =>
          emit (IoctlGetBrightness 1) ;;
          match probe_ioctl dev 1 with
          | Some (_, p1) =>
              if plausible p1 then brightness_found p1 else brightness_not_found
          | None => brightness_not_found
          end
      end.

Definition handle_menu_event (pressed : Z) (now : timespec) : M Z :=
  current_time <- get_current_time now ;;
  last <- gets last_menu_event ;;
  if timespec_diff_ns current_time last <? MIN_MENU_DEBOUNCE_NS
  then gets menu_long_pressed
  else
    modify (set_last_menu_event current_time) ;;
    modify (set_menu_long_pressed pressed) ;;
    gets menu_long_pressed.

Definition sync_brightness_level (dev : disp_probe) : M unit :=
  detected <- get_brightness_ioctl dev ;;
  match detected with
  | Some detected_level => modify (set_brightness_level detected_level)
  | None => ret tt
  end.

(** *** Volume *)

Definition stepToVolume (step : Z) : Z :=
  let step := clamp_step step in
  int_div (int_mul step MAX_VOLUME) MAX_STEPS.

(** What [popen] and [fgets] give for the mixer query: [popen] fails, or
    the pipe yields no line, or it yields a line on which [sscanf "%d"]
    converts [Some v] or nothing. *)
Inductive pipe_read : Type :=
| PopenFails
| PipeNoLine
| PipeLine (scanned : option Z).

(** [step = (value * MAX_STEPS + MAX_VOLUME/2) / MAX_VOLUME] and the two
    clamps that follow it in [getVolumeStep]. *)
Definition step_of_volume (value : Z) : Z :=
  clamp_step
    (int_div (int_add (int_mul value MAX_STEPS) (int_div MAX_VOLUME 2)) MAX_VOLUME).

Definition getVolumeStep (pipe : pipe_read) : M Z :=
  emit TinymixGet ;;
  match pipe with
  | PopenFails => ret (-1)
  | PipeNoLine => ret (-1)
  | PipeLine scanned =>
      let value := match scanned with Some v => v | None => 0 end in
      ret (step_of_volume value)
  end.

Definition setVolumeStep (step : Z) (now : timespec) : M unit :=
  current_time <- get_current_time now ;;
  last <- gets last_volume_change ;;
  if timespec_diff_ns current_time last <? MIN_VOLUME_CHANGE_INTERVAL_NS
  then ret tt
  else
    let step := clamp_step step in
    modify (set_last_volume_change current_time) ;;
    modify (set_skip_next_restore 1) ;;
    let vol := stepToVolume step in
    emit (TinymixSet vol) ;;
    save_volume_to_file step ;;
    emit (Usleep 100000).

(** *** Process-change monitor *)

(** [time_now] is what [time(NULL)] answers, [proc] the process table and
    [pipe] the mixer's answer, should the tick come to ask. *)
Definition check_and_restore_on_new_process (time_now : Z)
    (proc : option (list proc_entry)) (pipe : pipe_read) : M unit :=
  emit TimeNull ;;
  let current_time := time_now in
  last <- gets last_process_check ;;
  if wrap64 (current_time - last) <? PROCESS_CHECK_INTERVAL
  then ret tt
  else
    modify (set_last_process_check current_time) ;;
    skip <- gets skip_next_restore ;;
    if truthy skip
    then modify (set_skip_next_restore 0)
    else
      found <- get_newest_process MAX_PROC_NAME proc ;;
      match found with
      | None => ret tt
      | Some current_proc =>
          loaded <- load_last_process MAX_PROC_NAME ;;
          let last_proc :=
            match loaded with Some name => name | None => EmptyString end in
          if strcmp_ne current_proc last_proc
          then
            system_volume <- getVolumeStep pipe ;;
            (if system_volume >=? 0
             then
               persistent <- gets persistent_volume_step ;;
               let diff := int_abs (int_sub system_volume persistent) in
               if diff >? 1
               then emit (TinymixSet (stepToVolume persistent))
               else ret tt
             else ret tt) ;;
            save_last_process current_proc
          else ret tt
      end.

(** *** Event dispatch *)

Record input_event : Type := mkEvent { ev_type : Z; ev_code : Z; ev_value : Z }.

(** The two [if] branches on [ev] at the end of the loop body of [main];
    [step] is the local variable of [main], whose new value is returned.
    [now] and [dev] answer the one actuator call the branch can make. *)
Definition dispatch_event (ev : input_event) (now : timespec)
    (dev : Z -> disp_attempt) (step : Z) : M Z :=
  if (ev_type ev =? EV_KEY) && (ev_value ev =? 1)
  then
    if ev_code ev =? KEY_MENU_LONG
    then handle_menu_event 1 now ;; ret step
    else if ev_code ev =? KEY_VOLUP
    then
      held <- gets menu_long_pressed ;;
      if truthy held
      then level <- gets brightness_level ;;
           set_brightness_ioctl (int_add level 1) now dev ;;
           ret step
      else
        if step <? MAX_STEPS
        then let step := int_add step 1 in
             setVolumeStep step now ;;
             ret step
        else ret step
    else if ev_code ev =? KEY_VOLDOWN
    then
      held <- gets menu_long_pressed ;;
      if truthy held
      then level <- gets brightness_level ;;
           set_brightness_ioctl (int_sub level 1) now dev ;;
           ret step
      else
        if step >? 0
        then let step := int_sub step 1 in
             setVolumeStep step now ;;
             ret step
        else ret step
    else ret step
  else if (ev_type ev =? EV_KEY) && (ev_value ev =? 0)
  then
    if ev_code ev =? KEY_MENU_LONG
    then handle_menu_event 0 now ;; ret step
    else ret step
  else ret step.

(** What [select] and the [read] after it give in one pass of the loop. *)
Inductive select_outcome : Type :=
| SelectFails (eintr : bool)          (* ready < 0, with errno == EINTR or not *)
| SelectTimeout                       (* ready == 0 *)
| SelectReady (ev : option input_event). (* ready > 0; [None]: n != sizeof(ev) *)

(** Everything the outside world answers during one pass of the loop. *)
Record loop_env : Type := mkEnv {
  env_time : Z;
  env_proc : option (list proc_entry);
  env_pipe : pipe_read;
  env_select : select_outcome;
  env_clock : timespec;
  env_disp : Z -> disp_attempt
}.

(** One pass of [while (1)] in [main]: [false] is the [break]. *)
Definition loop_iteration (env : loop_env) (step : Z) : M (bool * Z) :=
  check_and_restore_on_new_process (env_time env) (env_proc env) (env_pipe env) ;;
  emit SelectInput ;;
  match env_select env with
  | SelectFails eintr => ret (eintr, step)
  | SelectTimeout => ret (true, step)
  | SelectReady rd =>
      emit ReadInput ;;
      match rd with
      | None => ret (true, step)
      | Some ev =>
          step <- dispatch_event ev (env_clock env) (env_disp env) step ;;
          ret (true, step)
      end
  end.

(** [main] up to the loop: [None] is the early [return 1]. *)
Definition main_startup (probe : disp_probe) (input_ok : bool)
    (pipe : pipe_read) (now : timespec)
    (proc : option (list proc_entry)) : M (option Z) :=
  sync_brightness_level probe ;;
  emit OpenInput ;;
  if negb input_ok then ret None
  else
    step <- load_volume_from_file ;;
    current_system_step <- getVolumeStep pipe ;;
    step <- (if (current_system_step >=? 0)
                && (int_abs (int_sub current_system_step step) >? 1)
             then setVolumeStep step now ;; ret step
             else if current_system_step >=? 0
             then save_volume_to_file current_system_step ;;
                  ret current_system_step
             else ret step) ;;
    initial <- get_newest_process MAX_PROC_NAME proc ;;
    match initial with
    | Some initial_proc => save_last_process initial_proc
    | None => ret tt
    end ;;
    ret (Some step).

(** The loop of [main] over the answers of the outside world, pass by
    pass; it stops at the [break] or when the answers run out. *)
Fixpoint main_loop (envs : list loop_env) (step : Z) : M Z :=
  match envs with
  | [] => ret step
  | env :: rest =>
      r <- loop_iteration env step ;;
      if fst r then main_loop rest (snd r) else ret (snd r)
  end.

End Keymon.

(** ** The single-file variant, [src/keymon.c]

    Its [set_brightness_ioctl], [get_brightness_ioctl], [handle_menu_event]
    and [sync_brightness_level] are the same text as in the full variant and
    are shared with it; the volume path and [main] differ and are embedded
    here.  The state is the full variant's, of which this variant uses the
    brightness and modifier variables only. *)

Module KeymonSimple.

Import Cint Cstr.
Import Keymon.

Definition MAX_STEPS : Z := 10.
Definition MAX_VOLUME : Z := 31.

Definition clamp_step (step : Z) : Z :=
  let step := if step <? 0 then 0 else step in
  if step >? MAX_STEPS then MAX_STEPS else step.

Definition stepToVolume (step : Z) : Z :=
  let step := clamp_step step in
  int_div (int_mul step MAX_VOLUME) MAX_STEPS.

(** [volume = (percent * MAX_VOLUME) / 100;
     step = (volume * MAX_STEPS + MAX_VOLUME/2) / MAX_VOLUME;] and the two
    clamps. *)
Definition step_of_percent (percent : Z) : Z :=
  let volume := int_div (int_mul percent MAX_VOLUME) 100 in
  clamp_step
    (int_div (int_add (int_mul volume MAX_STEPS) (int_div MAX_VOLUME 2)) MAX_VOLUME).

Definition getVolumeStep (pipe : pipe_read) : M Z :=
  emit AmixerGet ;;
  match pipe with
  | PopenFails => ret (-1)
  | PipeNoLine => ret (-1)
  | PipeLine scanned =>
      let percent := match scanned with Some v => v | None => 0 end in
      ret (step_of_percent percent)
  end.

Definition setVolumeStep (step : Z) : M unit :=
  let step := clamp_step step in
  let vol := stepToVolume step in
  emit (AmixerSet vol).

(** The [if (ev.type == EV_KEY)] statement of the loop body of [main]. *)
Definition dispatch_event (ev : input_event) (now : timespec)
    (dev : Z -> disp_attempt) (step : Z) : M Z :=
  if ev_type ev =? EV_KEY
  then
    if ev_value ev =? 1
    then
      if ev_code ev =? KEY_MENU_LONG
      then handle_menu_event 1 now ;; ret step
      else if ev_code ev =? KEY_VOLUP
      then
        held <- gets menu_long_pressed ;;
        if truthy held
        then level <- gets brightness_level ;;
             set_brightness_ioctl (int_add level 1) now dev ;;
             ret step
        else
          if step <? MAX_STEPS
          then let step := int_add step 1 in
               setVolumeStep step ;;
               ret step
          else ret step
      else if ev_code ev =? KEY_VOLDOWN
      then
        held <- gets menu_long_pressed ;;
        if truthy held
        then level <- gets brightness_level ;;
             set_brightness_ioctl (int_sub level 1) now dev ;;
             ret step
        else
          if step >? 0
          then let step := int_sub step 1 in
               setVolumeStep step ;;
               ret step
          else ret step
      else ret step
    else if ev_value ev =? 0
    then
      if ev_code ev =? KEY_MENU_LONG
      then handle_menu_event 0 now ;; ret step
      else ret step
    else ret step
  else ret step.

(** [main] up to the loop: [None] is the early [return 1].  The step is
    whatever [getVolumeStep] returns, its error value -1 included. *)
Definition main_startup (probe : disp_probe) (input_ok : bool)
    (pipe : pipe_read) : M (option Z) :=
  sync_brightness_level probe ;;
  emit OpenInput ;;
  if negb input_ok then ret None
  else
    step <- getVolumeStep pipe ;;
    ret (Some step).

(** One pass of [while (1)] in [main]: the blocking [read] ([None] when
    [n != sizeof(ev)]) and the dispatch. *)
Definition loop_iteration (rd : option input_event) (now : timespec)
    (dev : Z -> disp_attempt) (step : Z) : M Z :=
  emit ReadInput ;;
  match rd with
  | None => ret step
  | Some ev => dispatch_event ev now dev step
  end.

End KeymonSimple.

(** ** Vocabulary of the statements *)

Module Terms.

Import Cint Cstr Keymon.

(** Readings of a clock that has run for less than 2^31 seconds (68 years)
    with normalised nanoseconds. *)
Definition sane_timespec (t : timespec) : Prop :=
  0 <= tv_sec t < 2147483648 /\ 0 <= tv_nsec t < 1000000000.


(** What the scan takes from an entry that counts: the start-time proxy and
    the name of a numeric directory whose [comm] file yields a line, whose
    name matches no ignore pattern and whose [stat] succeeds. *)
Definition eligible (entry : proc_entry) : option (Z * string) :=
  if first_isdigit (d_name entry)
  then
    match comm_file entry with
    | Some content =>
        match fgets MAX_PROC_NAME content with
        | Some line =>
            if should_ignore_process (strip_newline line) then None
            else
              match stat_mtime entry with
              | Some mtime => Some (mtime, strip_newline line)
              | None => None
              end
        | None => None
        end
    | None => None
    end
  else None.

(** The dominant process: what [get_newest_process] finds in the table. *)
Definition dominant_process (proc : option (list proc_entry)) (s : State)
    : option string :=
  result (get_newest_process MAX_PROC_NAME proc s).

(** The remembered process name: what the monitor gets when it loads the
    last-process file into its zero-initialised buffer. *)
Definition remembered_process (s : State) : string :=
  match result (load_last_process MAX_PROC_NAME s) with
  | Some name => name
  | None => EmptyString
  end.

(** The live volume step: what [getVolumeStep] returns, -1 when the mixer
    cannot be read. *)
Definition live_volume_step (pipe : pipe_read) (s : State) : Z :=
  result (getVolumeStep pipe s).

(** [v] is an integer nearest to the fraction [num / den] ([den > 0]). *)
Definition nearest_integer (v num den : Z) : Prop :=
  2 * Z.abs (v * den - num) <= den.

(** The delays the code sleeps for, in order. *)
Fixpoint delays (tr : list Event) : list Z :=
  match tr with
  | [] => []
  | Usleep usec :: rest => usec :: delays rest
  | _ :: rest => delays rest
  end.

(** The number of times the display device is opened. *)
Fixpoint opens (tr : list Event) : nat :=
  match tr with
  | [] => 0%nat
  | OpenDisp :: rest => S (opens rest)
  | _ :: rest => opens rest
  end.

(** The values written to the display device, in order. *)
Fixpoint brightness_writes (tr : list Event) : list Z :=
  match tr with
  | [] => []
  | IoctlSetBrightness v :: rest => v :: brightness_writes rest
  | _ :: rest => brightness_writes rest
  end.

(** Whether the code tries again after what a pass met. *)
Definition retryable (a : disp_attempt) : bool :=
  match a with
  | OpenFails => true
  | IoctlOk => false
  | IoctlFails errno => transient_errno errno
  end.

(** The pause, in microseconds, after pass [retry] (counted from 0) has met
    the failure [a]. *)
Definition backoff (retry : Z) (a : disp_attempt) : Z :=
  match a with
  | OpenFails => IOCTL_RETRY_DELAY_US
  | _ => IOCTL_RETRY_DELAY_US * (retry + 1)
  end.

(** The passes 0 .. k-1 with what each of them meets. *)
Definition passes (dev : Z -> disp_attempt) (k : nat) : list (Z * disp_attempt) :=
  map (fun i => (Z.of_nat i, dev (Z.of_nat i))) (seq 0 k).

Definition all_retryable (dev : Z -> disp_attempt) (k : nat) : bool :=
  forallb (fun p => retryable (snd p)) (passes dev k).

Definition backoffs (dev : Z -> disp_attempt) (k : nat) : list Z :=
  map (fun p => backoff (fst p) (snd p)) (passes dev k).

(** The two operations that write the brightness level. *)
Inductive brightness_op : Type :=
| Apply (level : Z) (now : timespec) (dev : Z -> disp_attempt)
| StartupProbe (probe : disp_probe).

Definition run_brightness_op (op : brightness_op) : M unit :=
  match op with
  | Apply level now dev => set_brightness_ioctl level now dev ;; ret tt
  | StartupProbe probe => sync_brightness_level probe
  end.

Fixpoint run_brightness_ops (ops : list brightness_op) : M unit :=
  match ops with
  | [] => ret tt
  | op :: rest => run_brightness_op op ;; run_brightness_ops rest
  end.

Definition level_in_range (s : State) : Prop := 0 <= brightness_level s <= 7.

(** The persisted step and the local [step] of [main] are volume steps. *)
Definition steps_in_range (s : State) (step : Z) : Prop :=
  0 <= persistent_volume_step s <= MAX_STEPS /\ 0 <= step <= MAX_STEPS.

End Terms.

(** ** Further vocabulary *)

Module Notions.

Import Cint Cstr Keymon Terms.

(** [needle] occurs in [hay]. *)
Definition occurs_in (needle hay : string) : Prop :=
  exists pre post : string, hay = (pre ++ needle ++ post)%string.

(** The number of times the display device is closed. *)
Fixpoint closes (tr : list Event) : nat :=
  match tr with
  | [] => 0%nat
  | CloseDisp :: rest => S (closes rest)
  | _ :: rest => closes rest
  end.

(** The time slept in all, in microseconds. *)
Definition total_delay (tr : list Event) : Z := fold_right Z.add 0 (delays tr).

(** The mixer commands of the full variant, in order. *)
Fixpoint mixer_sets (tr : list Event) : list Z :=
  match tr with
  | [] => []
  | TinymixSet vol :: rest => vol :: mixer_sets rest
  | _ :: rest => mixer_sets rest
  end.

(** A restart would load the step that the running daemon holds as the
    persisted one. *)
Definition volume_coherent (s : State) : Prop :=
  result (load_volume_from_file s) = persistent_volume_step s.


End Notions.

(** * Properties *)

Import Cint Cstr Keymon Terms Notions.

(** ** Machine integers in range *)

Lemma wrap32_small (x : Z) :
  -2147483648 <= x < 2147483648 -> wrap32 x = x.
Proof.
  intros Hx. unfold wrap32.
  rewrite Z.mod_small by lia. lia.
Qed.

Lemma wrap64_small (x : Z) :
  -9223372036854775808 <= x < 9223372036854775808 -> wrap64 x = x.
Proof.
  intros Hx. unfold wrap64.
  rewrite Z.mod_small by lia. lia.
Qed.

(** On sane clock readings the code's difference is the exact number of
    nanoseconds between them: the comparisons with the minimum intervals
    in the statements below are comparisons of elapsed time. *)
Lemma timespec_diff_ns_exact (a b : timespec) :
  sane_timespec a -> sane_timespec b ->
  timespec_diff_ns a b
  = (tv_sec a - tv_sec b) * 1000000000 + (tv_nsec a - tv_nsec b).
Proof.
  intros [Ha1 Ha2] [Hb1 Hb2]. unfold timespec_diff_ns.
  rewrite (wrap64_small (tv_sec a - tv_sec b)) by lia.
  rewrite (wrap64_small (tv_nsec a - tv_nsec b)) by lia.
  rewrite (wrap64_small ((tv_sec a - tv_sec b) * 1000000000)) by nia.
  apply wrap64_small. nia.
Qed.

(** ** Running the monad *)

Ltac mrun :=
  unfold bind, ret, gets, modify, emit; cbv beta iota zeta; cbn [app fst snd].

Ltac break_if :=
  match goal with
  | |- context [if ?b then _ else _] => destruct b eqn:?
  | |- context [match ?x with OpenFails => _ | IoctlOk => _ | IoctlFails _ => _ end] =>
      destruct x eqn:?
  end.

(** ** Brightness actuator: the rate gate *)

Lemma set_brightness_ioctl_gated (s : State) (level : Z) (now : timespec)
    (dev : Z -> disp_attempt) :
  timespec_diff_ns now (last_brightness_change s) < MIN_BRIGHTNESS_INTERVAL_NS ->
  set_brightness_ioctl level now dev s = (0, s, [ClockGettime]).
Proof.
  intros Hgate. unfold set_brightness_ioctl, get_current_time. mrun.
  apply Z.ltb_lt in Hgate. rewrite Hgate. reflexivity.
Qed.

(** The retry loop reads and writes no static variable. *)
Lemma set_brightness_retry_state (fuel : nat) :
  forall retry value dev s,
    final (set_brightness_retry fuel retry value dev s) = s.
Proof.
  induction fuel as [|fuel IH]; intros retry value dev s;
    cbn [set_brightness_retry].
  - reflexivity.
  - unfold final in *. mrun.
    repeat break_if; simpl; try reflexivity;
      specialize (IH (int_add retry 1) value dev s);
      destruct (set_brightness_retry fuel (int_add retry 1) value dev s)
        as [[r s'] tr]; simpl in *; exact IH.
Qed.

(** A call that gets past the gate records the clamped level and the time
    of the call, whatever the display driver answers afterwards. *)
Lemma set_brightness_ioctl_accepted (s : State) (level : Z) (now : timespec)
    (dev : Z -> disp_attempt) :
  MIN_BRIGHTNESS_INTERVAL_NS <= timespec_diff_ns now (last_brightness_change s) ->
  final (set_brightness_ioctl level now dev s)
  = set_last_brightness_change now (set_brightness_level (clamp_level level) s).
Proof.
  intros Hgate. unfold set_brightness_ioctl, get_current_time. mrun.
  apply Z.ltb_ge in Hgate. rewrite Hgate.
  match goal with
  | |- context [set_brightness_retry ?f ?r ?v ?d ?st] =>
      pose proof (set_brightness_retry_state f r v d st) as Hst;
      destruct (set_brightness_retry f r v d st) as [[res st'] tr]
  end.
  unfold final in *. simpl in *. exact Hst.
Qed.

(** C6. A brightness apply made less than 150 ms after the previous apply
    that went to the device (at [t0], whether the device then succeeded or
    failed: [dev0] is arbitrary) is a no-op: it returns 0, leaves every
    static variable (the level and the time stamp among them) as it was,
    and its only system call is the clock reading; the display device is
    neither opened nor driven.  The same holds in any state whose time stamp
    is [t0]. *)
Theorem brightness_apply_within_interval_is_noop :
  forall (s0 : State) (level0 : Z) (t0 : timespec) (dev0 : Z -> disp_attempt)
         (level : Z) (now : timespec) (dev : Z -> disp_attempt),
    MIN_BRIGHTNESS_INTERVAL_NS <= timespec_diff_ns t0 (last_brightness_change s0) ->
    timespec_diff_ns now t0 < MIN_BRIGHTNESS_INTERVAL_NS ->
    let s1 := final (set_brightness_ioctl level0 t0 dev0 s0) in
    last_brightness_change s1 = t0
    /\ set_brightness_ioctl level now dev s1 = (0, s1, [ClockGettime])
    /\ (forall s : State,
           last_brightness_change s = t0 ->
           set_brightness_ioctl level now dev s = (0, s, [ClockGettime])).
Proof.
  intros s0 level0 t0 dev0 level now dev Hprev Hnow s1.
  assert (Hstamp : last_brightness_change s1 = t0).
  { subst s1. rewrite set_brightness_ioctl_accepted by exact Hprev. reflexivity. }
  split; [exact Hstamp|]. split.
  - apply set_brightness_ioctl_gated. rewrite Hstamp. exact Hnow.
  - intros s Hs. apply set_brightness_ioctl_gated. rewrite Hs. exact Hnow.
Qed.

Lemma brightness_apply_within_interval_is_noop_witness :
  let s0 := initial_state None false None false in
  let s1 := final (set_brightness_ioctl 5 (mkTimespec 1 0) (fun _ => OpenFails) s0) in
  last_brightness_change s1 = mkTimespec 1 0
  /\ set_brightness_ioctl 9 (mkTimespec 1 149999999) (fun _ => IoctlOk) s1
     = (0, s1, [ClockGettime])
  /\ (forall s : State,
         last_brightness_change s = mkTimespec 1 0 ->
         set_brightness_ioctl 9 (mkTimespec 1 149999999) (fun _ => IoctlOk) s
         = (0, s, [ClockGettime])).
Proof.
  apply (brightness_apply_within_interval_is_noop
           (initial_state None false None false) 5 (mkTimespec 1 0)
           (fun _ => OpenFails) 9 (mkTimespec 1 149999999) (fun _ => IoctlOk));
    vm_compute; congruence.
Defined.

(** ** Modifier debouncer *)

Lemma handle_menu_event_ignored (s : State) (pressed : Z) (now : timespec) :
  timespec_diff_ns now (last_menu_event s) < MIN_MENU_DEBOUNCE_NS ->
  handle_menu_event pressed now s = (menu_long_pressed s, s, [ClockGettime]).
Proof.
  intros Hgate. unfold handle_menu_event, get_current_time. mrun.
  apply Z.ltb_lt in Hgate. rewrite Hgate. reflexivity.
Qed.

Lemma handle_menu_event_accepted (s : State) (pressed : Z) (now : timespec) :
  MIN_MENU_DEBOUNCE_NS <= timespec_diff_ns now (last_menu_event s) ->
  handle_menu_event pressed now s
  = (pressed, set_menu_long_pressed pressed (set_last_menu_event now s),
     [ClockGettime]).
Proof.
  intros Hgate. unfold handle_menu_event, get_current_time. mrun.
  apply Z.ltb_ge in Hgate. rewrite Hgate. reflexivity.
Qed.

(** C7, as stated, fails: a press accepted at 1.000 s followed by a release
    at 1.010 s.  The two transitions are less than 50 ms apart; the second
    call returns 1 (held), the state the first call of the pair has just
    set, and not the state from before the first of the pair (0), which
    here is also the newly requested state. *)
Lemma debounce_pair_counterexample :
  let s0 := initial_state None false None false in
  let t1 := mkTimespec 1 0 in
  let t2 := mkTimespec 1 10000000 in
  let first := handle_menu_event 1 t1 s0 in
  let second := handle_menu_event 0 t2 (final first) in
  timespec_diff_ns t2 t1 < MIN_MENU_DEBOUNCE_NS
  /\ menu_long_pressed s0 = 0
  /\ result second = 1
  /\ result second <> menu_long_pressed s0.
Proof. vm_compute. repeat split; congruence. Qed.

(** C7, amended.  A modifier transition that arrives less than 50 ms after
    the last accepted one (at [t1]) is ignored: the modifier state and the
    debounce time stamp (and every other static variable) stay as they are,
    and the call returns the state in effect before it.  For two transitions
    less than 50 ms apart of which the first is accepted, the second call
    therefore returns the state that the first of the pair has set, whatever
    state the second one asks for. *)
Theorem debounce_ignores_fast_transition :
  forall (s0 : State) (pressed1 : Z) (t1 : timespec) (pressed2 : Z) (t2 : timespec),
    MIN_MENU_DEBOUNCE_NS <= timespec_diff_ns t1 (last_menu_event s0) ->
    timespec_diff_ns t2 t1 < MIN_MENU_DEBOUNCE_NS ->
    let first := handle_menu_event pressed1 t1 s0 in
    let s1 := final first in
    result first = pressed1
    /\ menu_long_pressed s1 = pressed1
    /\ last_menu_event s1 = t1
    /\ handle_menu_event pressed2 t2 s1 = (pressed1, s1, [ClockGettime])
    /\ (forall s : State,
           last_menu_event s = t1 ->
           handle_menu_event pressed2 t2 s
           = (menu_long_pressed s, s, [ClockGettime])).
Proof.
  intros s0 pressed1 t1 pressed2 t2 Hfirst Hsecond first s1.
  subst s1 first.
  rewrite (handle_menu_event_accepted s0 pressed1 t1 Hfirst).
  unfold result, final. cbn [fst snd].
  repeat split.
  - rewrite handle_menu_event_ignored by exact Hsecond. reflexivity.
  - intros s Hs. apply handle_menu_event_ignored. rewrite Hs. exact Hsecond.
Qed.

Lemma debounce_ignores_fast_transition_witness :
  let s0 := initial_state None false None false in
  let first := handle_menu_event 1 (mkTimespec 1 0) s0 in
  let s1 := final first in
  result first = 1
  /\ menu_long_pressed s1 = 1
  /\ last_menu_event s1 = mkTimespec 1 0
  /\ handle_menu_event 0 (mkTimespec 1 10000000) s1 = (1, s1, [ClockGettime])
  /\ (forall s : State,
         last_menu_event s = mkTimespec 1 0 ->
         handle_menu_event 0 (mkTimespec 1 10000000) s
         = (menu_long_pressed s, s, [ClockGettime])).
Proof.
  apply (debounce_ignores_fast_transition
           (initial_state None false None false) 1 (mkTimespec 1 0)
           0 (mkTimespec 1 10000000));
    vm_compute; congruence.
Defined.

(** ** Process-change monitor: the rate gate and the skip-restore flag *)

Lemma tick_gated (s : State) (t : Z) (proc : option (list proc_entry))
    (pipe : pipe_read) :
  wrap64 (t - last_process_check s) < PROCESS_CHECK_INTERVAL ->
  check_and_restore_on_new_process t proc pipe s = (tt, s, [TimeNull]).
Proof.
  intros Hgate. unfold check_and_restore_on_new_process. mrun.
  apply Z.ltb_lt in Hgate. rewrite Hgate. reflexivity.
Qed.

Lemma tick_consumes_flag (s : State) (t : Z) (proc : option (list proc_entry))
    (pipe : pipe_read) :
  PROCESS_CHECK_INTERVAL <= wrap64 (t - last_process_check s) ->
  skip_next_restore s <> 0 ->
  check_and_restore_on_new_process t proc pipe s
  = (tt, set_skip_next_restore 0 (set_last_process_check t s), [TimeNull]).
Proof.
  intros Hgate Hskip. unfold check_and_restore_on_new_process. mrun.
  apply Z.ltb_ge in Hgate. rewrite Hgate.
  cbn [skip_next_restore set_last_process_check]. unfold truthy.
  apply Z.eqb_neq in Hskip. rewrite Hskip. reflexivity.
Qed.

(** C2. A tick that passes the 2-second gate while the skip-restore flag is
    set clears the flag, records the time of the check and does nothing
    else: its only system call is [time(NULL)] (no [opendir] on [/proc], no
    mixer query, no mixer command, no file opened), and the remembered
    process name, the persisted step and all other variables are unchanged,
    whatever the process table [proc] and the mixer [pipe] would answer. *)
Theorem tick_with_skip_flag_only_clears_it :
  forall (s : State) (t : Z) (proc : option (list proc_entry)) (pipe : pipe_read),
    PROCESS_CHECK_INTERVAL <= wrap64 (t - last_process_check s) ->
    skip_next_restore s <> 0 ->
    let r := check_and_restore_on_new_process t proc pipe s in
    trace r = [TimeNull]
    /\ final r = set_skip_next_restore 0 (set_last_process_check t s)
    /\ skip_next_restore (final r) = 0
    /\ lastproc_file (final r) = lastproc_file s
    /\ persistent_volume_step (final r) = persistent_volume_step s
    /\ volume_file (final r) = volume_file s.
Proof.
  intros s t proc pipe Hgate Hskip r. subst r.
  rewrite (tick_consumes_flag s t proc pipe Hgate Hskip).
  unfold trace, final. cbn. repeat split; reflexivity.
Qed.

Lemma tick_with_skip_flag_only_clears_it_witness :
  let s := set_skip_next_restore 1 (initial_state None true (Some "shell"%string) true) in
  let proc := Some [mkProc "42"%string (Some "game"%string) (Some 100)] in
  let r := check_and_restore_on_new_process 1000 proc (PipeLine (Some 4)) s in
  trace r = [TimeNull]
  /\ final r = set_skip_next_restore 0 (set_last_process_check 1000 s)
  /\ skip_next_restore (final r) = 0
  /\ lastproc_file (final r) = lastproc_file s
  /\ persistent_volume_step (final r) = persistent_volume_step s
  /\ volume_file (final r) = volume_file s.
Proof.
  apply (tick_with_skip_flag_only_clears_it
           (set_skip_next_restore 1 (initial_state None true (Some "shell"%string) true))
           1000 (Some [mkProc "42"%string (Some "game"%string) (Some 100)])
           (PipeLine (Some 4)));
    vm_compute; congruence.
Defined.

(** ** Process names survive the last-process file *)

Lemma strip_newline_idem (s : string) :
  strip_newline (strip_newline s) = strip_newline s.
Proof.
  induction s as [|c rest IH]; cbn [strip_newline]; [reflexivity|].
  destruct (Ascii.eqb c newline) eqn:Hc; cbn [strip_newline].
  - reflexivity.
  - rewrite Hc, IH. reflexivity.
Qed.

Lemma strncpy_no_newline (n : nat) :
  forall s : string,
    strip_newline s = s -> strip_newline (strncpy n s) = strncpy n s.
Proof.
  induction n as [|n IH]; intros s Hs; [reflexivity|].
  destruct s as [|c rest]; [reflexivity|].
  cbn [strncpy strip_newline] in *.
  destruct (Ascii.eqb c newline); [discriminate|].
  injection Hs as Hs. rewrite (IH rest Hs). reflexivity.
Qed.

Lemma strncpy_length (n : nat) :
  forall s : string, (String.length (strncpy n s) <= n)%nat.
Proof.
  induction n as [|n IH]; intros s; [simpl; lia|].
  destruct s as [|c rest]; cbn [strncpy String.length]; [lia|].
  specialize (IH rest). lia.
Qed.

Lemma strncpy_short (n : nat) :
  forall s : string, (String.length s <= n)%nat -> strncpy n s = s.
Proof.
  induction n as [|n IH]; intros s Hlen.
  - destruct s; [reflexivity|simpl in Hlen; lia].
  - destruct s as [|c rest]; [reflexivity|].
    cbn [strncpy]. simpl in Hlen. rewrite IH by lia. reflexivity.
Qed.

(** Writing a name without newline that fits the buffer, as
    [fprintf(fp, "%s\n", name)] does, and reading it back with [fgets] and
    the newline cut gives the name again. *)
Lemma fgets_line_roundtrip (s : string) :
  forall n : nat,
    strip_newline s = s -> (String.length s <= n)%nat ->
    strip_newline (fgets_chars n (s ++ String newline EmptyString)) = s.
Proof.
  induction s as [|c rest IH]; intros n Hnl Hlen.
  - destruct n; reflexivity.
  - cbn [strip_newline] in Hnl.
    destruct (Ascii.eqb c newline) eqn:Hc; [discriminate|].
    injection Hnl as Hnl.
    destruct n as [|n]; [simpl in Hlen; lia|].
    cbn [append fgets_chars]. rewrite Hc. cbn [strip_newline]. rewrite Hc.
    rewrite IH; [reflexivity|exact Hnl|simpl in Hlen; lia].
Qed.

Lemma fgets_chars_length (n : nat) :
  forall s : string, (String.length (fgets_chars n s) <= n)%nat.
Proof.
  induction n as [|n IH]; intros s; [simpl; lia|].
  destruct s as [|c rest]; cbn [fgets_chars]; [simpl; lia|].
  destruct (Ascii.eqb c newline); cbn [String.length]; [lia|].
  specialize (IH rest). lia.
Qed.

Lemma strip_newline_length (s : string) :
  (String.length (strip_newline s) <= String.length s)%nat.
Proof.
  induction s as [|c rest IH]; cbn [strip_newline]; [lia|].
  destruct (Ascii.eqb c newline); cbn [String.length]; lia.
Qed.

#[local] Arguments strncpy : simpl never.
#[local] Arguments strip_newline : simpl never.
#[local] Arguments fgets_chars : simpl never.

(** The scan keeps a name without newline of at most 63 characters. *)
Lemma scan_entry_name (acc : Z * string) (entry : proc_entry) :
  strip_newline (snd acc) = snd acc /\ (String.length (snd acc) <= 63)%nat ->
  strip_newline (snd (scan_entry acc entry)) = snd (scan_entry acc entry)
  /\ (String.length (snd (scan_entry acc entry)) <= 63)%nat.
Proof.
  intros Hacc. destruct acc as [newest_time newest_name].
  unfold scan_entry.
  destruct (negb (first_isdigit (d_name entry))); [exact Hacc|].
  destruct (comm_file entry) as [content|]; [|exact Hacc].
  destruct (fgets MAX_PROC_NAME content) as [line|]; [|exact Hacc].
  destruct (should_ignore_process (strip_newline line)); [exact Hacc|].
  destruct (stat_mtime entry) as [mtime|]; [|exact Hacc].
  destruct (mtime >? newest_time); [|exact Hacc].
  cbn [snd]. split.
  - apply strncpy_no_newline. apply strip_newline_idem.
  - apply (strncpy_length (MAX_PROC_NAME - 1)).
Qed.

Lemma scan_name (entries : list proc_entry) :
  forall acc : Z * string,
    strip_newline (snd acc) = snd acc /\ (String.length (snd acc) <= 63)%nat ->
    strip_newline (snd (fold_left scan_entry entries acc))
    = snd (fold_left scan_entry entries acc)
    /\ (String.length (snd (fold_left scan_entry entries acc)) <= 63)%nat.
Proof.
  induction entries as [|entry rest IH]; intros acc Hacc; cbn [fold_left].
  - exact Hacc.
  - apply IH. apply scan_entry_name. exact Hacc.
Qed.

(** The name of an entry that counts fits the buffers. *)
Lemma eligible_name_length (entry : proc_entry) (mtime : Z) (name : string) :
  eligible entry = Some (mtime, name) -> (String.length name <= 63)%nat.
Proof.
  unfold eligible.
  destruct (first_isdigit (d_name entry)); [|discriminate].
  destruct (comm_file entry) as [content|]; [|discriminate].
  destruct (fgets MAX_PROC_NAME content) as [line|] eqn:Hline; [|discriminate].
  destruct (should_ignore_process (strip_newline line)); [discriminate|].
  destruct (stat_mtime entry) as [mt|]; [|discriminate].
  intros Heq. injection Heq as _ Hname. subst name.
  unfold fgets in Hline. destruct content; [discriminate|].
  injection Hline as Hline. subst line.
  match goal with
  | |- context [fgets_chars ?n ?c] =>
      pose proof (fgets_chars_length n c);
      pose proof (strip_newline_length (fgets_chars n c))
  end.
  change (MAX_PROC_NAME - 1)%nat with 63%nat in *. lia.
Qed.

Lemma scan_entry_eligible (acc : Z * string) (entry : proc_entry) :
  scan_entry acc entry
  = match eligible entry with
    | Some (mtime, name) => if mtime >? fst acc then (mtime, name) else acc
    | None => acc
    end.
Proof.
  destruct acc as [newest_time newest_name].
  pose proof (eligible_name_length entry) as Hlen.
  unfold scan_entry, eligible in *. cbn [fst].
  destruct (first_isdigit (d_name entry)); cbn [negb]; [|reflexivity].
  destruct (comm_file entry) as [content|]; [|reflexivity].
  destruct (fgets MAX_PROC_NAME content) as [line|]; [|reflexivity].
  destruct (should_ignore_process (strip_newline line)); [reflexivity|].
  destruct (stat_mtime entry) as [mtime|]; [|reflexivity].
  destruct (mtime >? newest_time); [|reflexivity].
  rewrite strncpy_short; [reflexivity|].
  apply (Hlen mtime (strip_newline line)). reflexivity.
Qed.

(** The scan ends on the first entry, in the order of the table, whose
    start-time proxy is positive and the largest among the entries that
    count; its pair is the initial one when there is none. *)
Lemma scan_newest (entries : list proc_entry) :
  forall acc : Z * string,
    let final_acc := fold_left scan_entry entries acc in
    fst acc <= fst final_acc
    /\ (forall entry mtime name,
          In entry entries -> eligible entry = Some (mtime, name) ->
          mtime <= fst final_acc)
    /\ (final_acc = acc
        \/ exists entry, In entry entries
                         /\ eligible entry = Some final_acc
                         /\ fst acc < fst final_acc).
Proof.
  induction entries as [|e rest IH]; intros acc; cbv zeta; cbn [fold_left].
  - split; [lia|]. split; [intros entry mtime name []|left; reflexivity].
  - specialize (IH (scan_entry acc e)). cbv zeta in IH.
    destruct IH as (Hmono & Hmax & Horigin).
    assert (Hstep : fst acc <= fst (scan_entry acc e)
                    /\ (forall mtime name, eligible e = Some (mtime, name) ->
                           mtime <= fst (scan_entry acc e))
                    /\ (scan_entry acc e = acc
                        \/ eligible e = Some (scan_entry acc e)
                           /\ fst acc < fst (scan_entry acc e))).
    { rewrite scan_entry_eligible.
      destruct (eligible e) as [[mt nm]|].
      - destruct (Z.gtb_spec mt (fst acc)); cbn [fst].
        + split; [lia|]. split.
          * intros mtime name Heq. injection Heq as Hm _. lia.
          * right. split; [reflexivity|lia].
        + split; [lia|]. split.
          * intros mtime name Heq. injection Heq as Hm _. lia.
          * left. reflexivity.
      - split; [lia|]. split; [discriminate|left; reflexivity]. }
    destruct Hstep as (Hmono1 & Hmax1 & Horigin1).
    split; [lia|]. split.
    + intros entry mtime name [Hin|Hin] Helig.
      * subst entry. specialize (Hmax1 mtime name Helig). lia.
      * apply (Hmax entry mtime name Hin Helig).
    + destruct Horigin as [Hsame|(entry & Hin & Helig & Hlt)].
      * rewrite Hsame.
        destruct Horigin1 as [Hsame1|[Helig1 Hlt1]].
        -- left. exact Hsame1.
        -- right. exists e. split; [left; reflexivity|]. split; assumption.
      * right. exists entry. split; [right; exact Hin|]. split; [exact Helig|lia].
Qed.

Lemma get_newest_process_run (proc : option (list proc_entry)) (s : State) :
  get_newest_process MAX_PROC_NAME proc s
  = (dominant_process proc s, s, [OpendirProc]).
Proof.
  unfold dominant_process, get_newest_process, result. mrun.
  destruct proc as [entries|]; [|reflexivity].
  destruct (fold_left scan_entry entries (0, EmptyString)) as [newest_time newest_name].
  destruct (nonempty newest_name); reflexivity.
Qed.

Lemma dominant_process_frame (proc : option (list proc_entry)) (s s' : State) :
  dominant_process proc s = dominant_process proc s'.
Proof.
  unfold dominant_process, get_newest_process, result. mrun.
  destruct proc as [entries|]; [|reflexivity].
  destruct (fold_left scan_entry entries (0, EmptyString)) as [newest_time newest_name].
  destruct (nonempty newest_name); reflexivity.
Qed.

(** The dominant process name is not empty, has no newline and fits the
    63 characters of the buffers. *)
Lemma dominant_process_name (proc : option (list proc_entry)) (s : State)
    (current : string) :
  dominant_process proc s = Some current ->
  nonempty current = true
  /\ strip_newline current = current
  /\ (String.length current <= 63)%nat.
Proof.
  unfold dominant_process, get_newest_process, result. mrun.
  destruct proc as [entries|]; [|discriminate].
  pose proof (scan_name entries (0, EmptyString)) as Hscan.
  destruct (fold_left scan_entry entries (0, EmptyString)) as [newest_time newest_name].
  cbn [snd] in Hscan.
  destruct (nonempty newest_name) eqn:Hne; cbn [fst]; [|discriminate].
  intros Hcur. injection Hcur as Hcur. subst current.
  destruct Hscan as [Hnl Hlen]; [split; [reflexivity|simpl; lia]|].
  change (MAX_PROC_NAME - 1)%nat with 63%nat.
  rewrite strncpy_short by exact Hlen. auto.
Qed.

(** The dominant process is an entry of the process table that counts (a
    numeric directory with a readable name that matches no ignore pattern
    and a readable start time), with a positive start-time proxy that no
    other such entry exceeds. *)
Lemma dominant_process_is_newest (entries : list proc_entry) (s : State)
    (current : string) :
  dominant_process (Some entries) s = Some current ->
  exists (entry : proc_entry) (mtime : Z),
    In entry entries
    /\ eligible entry = Some (mtime, current)
    /\ 0 < mtime
    /\ forall entry' mtime' name',
         In entry' entries -> eligible entry' = Some (mtime', name') ->
         mtime' <= mtime.
Proof.
  unfold dominant_process, get_newest_process, result. mrun.
  destruct (scan_newest entries (0, EmptyString)) as (_ & Hmax & Horigin).
  destruct (fold_left scan_entry entries (0, EmptyString))
    as [newest_time newest_name] eqn:Hfold.
  cbn [fst] in *.
  destruct (nonempty newest_name) eqn:Hne; cbn [fst]; [|discriminate].
  intros Hcur. injection Hcur as Hcur.
  destruct Horigin as [Hsame|(entry & Hin & Helig & Hlt)].
  - injection Hsame as _ Hname. subst newest_name. discriminate.
  - pose proof (eligible_name_length entry newest_time newest_name Helig) as Hlen.
    change (MAX_PROC_NAME - 1)%nat with 63%nat in Hcur.
    rewrite strncpy_short in Hcur by exact Hlen. subst current.
    exists entry, newest_time. repeat split; try assumption.
Qed.

Lemma load_last_process_run (s : State) :
  load_last_process MAX_PROC_NAME s
  = (result (load_last_process MAX_PROC_NAME s), s, [FopenRead LAST_PROCESS_FILE]).
Proof.
  unfold load_last_process, result. mrun.
  destruct (lastproc_file s) as [content|]; [|reflexivity].
  destruct (fgets MAX_PROC_NAME content); reflexivity.
Qed.

Lemma getVolumeStep_run (pipe : pipe_read) (s : State) :
  getVolumeStep pipe s = (live_volume_step pipe s, s, [TinymixGet]).
Proof.
  unfold live_volume_step, getVolumeStep, result. mrun.
  destruct pipe; reflexivity.
Qed.

(** A name that the scan can produce is read back unchanged once it has been
    written to the last-process file. *)
Lemma remembered_after_write (s : State) (current : string) :
  strip_newline current = current -> (String.length current <= 63)%nat ->
  remembered_process
    (set_lastproc_file (Some (current ++ String newline EmptyString)%string) s)
  = current.
Proof.
  intros Hnl Hlen. unfold remembered_process, load_last_process, result. mrun.
  cbn [lastproc_file set_lastproc_file]. unfold fgets.
  destruct (current ++ String newline EmptyString)%string eqn:Happ.
  - destruct current; discriminate.
  - rewrite <- Happ. cbn [fst].
    apply (fgets_line_roundtrip current (MAX_PROC_NAME - 1) Hnl Hlen).
Qed.

(** ** Process-change monitor: the comparison *)

Lemma remembered_process_frame (s' s : State) :
  lastproc_file s' = lastproc_file s ->
  remembered_process s' = remembered_process s.
Proof.
  intros Hfile. unfold remembered_process, load_last_process, result. mrun.
  rewrite Hfile. destruct (lastproc_file s) as [content|]; [|reflexivity].
  destruct (fgets MAX_PROC_NAME content); reflexivity.
Qed.

Lemma live_volume_step_frame (pipe : pipe_read) (s' s : State) :
  live_volume_step pipe s' = live_volume_step pipe s.
Proof.
  unfold live_volume_step, getVolumeStep, result. mrun.
  destruct pipe; reflexivity.
Qed.

(** The mixer command that the comparison issues when the live step [live]
    is readable and more than one step away from the persisted step. *)
Lemma tick_checking (s : State) (t : Z) (proc : option (list proc_entry))
    (pipe : pipe_read) :
  PROCESS_CHECK_INTERVAL <= wrap64 (t - last_process_check s) ->
  skip_next_restore s = 0 ->
  check_and_restore_on_new_process t proc pipe s
  = let s1 := set_last_process_check t s in
    match dominant_process proc s with
    | None => (tt, s1, [TimeNull; OpendirProc])
    | Some current =>
        if strcmp_ne current (remembered_process s)
        then
          (tt,
           (if lastproc_file_writable s
            then set_lastproc_file
                   (Some (current ++ String newline EmptyString)%string) s1
            else s1),
           [TimeNull; OpendirProc; FopenRead LAST_PROCESS_FILE; TinymixGet]
           ++ (if live_volume_step pipe s >=? 0
               then if int_abs (int_sub (live_volume_step pipe s)
                                        (persistent_volume_step s)) >? 1
                    then [TinymixSet (stepToVolume (persistent_volume_step s))]
                    else []
               else [])
           ++ [FopenWrite LAST_PROCESS_FILE])
        else (tt, s1, [TimeNull; OpendirProc; FopenRead LAST_PROCESS_FILE])
    end.
Proof.
  intros Hgate Hskip. unfold check_and_restore_on_new_process. mrun.
  apply Z.ltb_ge in Hgate. rewrite Hgate.
  cbn [skip_next_restore set_last_process_check]. rewrite Hskip.
  cbn [truthy Z.eqb negb].
  rewrite get_newest_process_run.
  rewrite (dominant_process_frame proc _ s).
  destruct (dominant_process proc s) as [current|]; [|reflexivity].
  rewrite load_last_process_run.
  fold (remembered_process (set_last_process_check t s)).
  rewrite (remembered_process_frame (set_last_process_check t s) s) by reflexivity.
  destruct (strcmp_ne current (remembered_process s)); [|reflexivity].
  rewrite getVolumeStep_run.
  rewrite (live_volume_step_frame pipe (set_last_process_check t s) s).
  unfold save_last_process. mrun.
  destruct (live_volume_step pipe s >=? 0); cbv beta iota zeta;
    cbn [persistent_volume_step set_last_process_check];
    [destruct (int_abs (int_sub (live_volume_step pipe s)
                                (persistent_volume_step s)) >? 1)|];
    cbv beta iota zeta; cbn [lastproc_file_writable set_last_process_check];
    destruct (lastproc_file_writable s); reflexivity.
Qed.

Lemma live_volume_step_range (pipe : pipe_read) (s : State) :
  live_volume_step pipe s = -1 \/ 0 <= live_volume_step pipe s <= MAX_STEPS.
Proof.
  unfold live_volume_step, getVolumeStep, result. mrun.
  destruct pipe as [| |scanned]; cbn [fst]; [left; reflexivity ..|].
  right. unfold step_of_volume, clamp_step, MAX_STEPS.
  repeat match goal with
         | |- context [if ?b then _ else _] => destruct b eqn:?
         end; lia.
Qed.

Lemma step_distance (live persisted : Z) :
  -1 <= live <= MAX_STEPS -> 0 <= persisted <= MAX_STEPS ->
  int_abs (int_sub live persisted) = Z.abs (live - persisted).
Proof.
  unfold MAX_STEPS, int_abs, int_sub. intros Hl Hp.
  rewrite (wrap32_small (live - persisted)) by lia.
  apply wrap32_small. lia.
Qed.

(** C1, as stated, fails: the example of the specification (remembered name
    "shell", dominant process "game", live step 2, persisted step 8) on a
    system where the last-process file cannot be opened for writing.  The
    tick passes the gate with the flag clear, sees the new name, reads the
    mixer and sends it the native value 15 of step 8, but
    [save_last_process] skips the write when [fopen] fails, so the
    remembered name stays "shell". *)
Lemma new_process_not_remembered_counterexample :
  let nl := String newline EmptyString in
  let s := set_persistent_volume_step 8
             (initial_state (Some (Some 8)) true (Some ("shell" ++ nl)%string) false) in
  let proc := Some [mkProc "42"%string (Some ("game" ++ nl)%string) (Some 100)] in
  let pipe := PipeLine (Some 4) in
  let r := check_and_restore_on_new_process 1000 proc pipe s in
  PROCESS_CHECK_INTERVAL <= wrap64 (1000 - last_process_check s)
  /\ skip_next_restore s = 0
  /\ dominant_process proc s = Some "game"%string
  /\ remembered_process s = "shell"%string
  /\ live_volume_step pipe s = 2
  /\ persistent_volume_step s = 8
  /\ trace r = [TimeNull; OpendirProc; FopenRead LAST_PROCESS_FILE; TinymixGet;
                TinymixSet 15; FopenWrite LAST_PROCESS_FILE]
  /\ remembered_process (final r) = "shell"%string
  /\ remembered_process (final r) <> "game"%string.
Proof. vm_compute. repeat split; congruence. Qed.

(** C1, amended.  On a tick that passes the rate gate with the skip-restore
    flag clear and finds a dominant process [current]:
    - if [current] differs from the remembered name, the tick reads the live
      volume step; when that is readable and more than 1 step away from the
      persisted step, the mixer receives a set command for the native value
      of the persisted step, issued directly: no clock is read, and the
      actuator's time stamp and the skip-restore flag stay as they are;
      then, restoration or not and also when the live volume is unreadable,
      the tick writes [current] to the last-process file, and [current] is
      the remembered name afterwards provided that file can be opened for
      writing (if it cannot, the write is skipped and nothing but the time
      of the check changes);
    - if the names are equal, the tick reads no volume, sends the mixer
      nothing and opens no file for writing; only the time of the check
      changes. *)
Theorem new_process_restores_and_remembers :
  forall (s : State) (t : Z) (proc : option (list proc_entry)) (pipe : pipe_read)
         (current : string),
    PROCESS_CHECK_INTERVAL <= wrap64 (t - last_process_check s) ->
    skip_next_restore s = 0 ->
    dominant_process proc s = Some current ->
    0 <= persistent_volume_step s <= MAX_STEPS ->
    let r := check_and_restore_on_new_process t proc pipe s in
    let live := live_volume_step pipe s in
    let persisted := persistent_volume_step s in
    let checked := set_last_process_check t s in
    (current <> remembered_process s ->
       (0 <= live -> Z.abs (live - persisted) > 1 ->
          trace r = [TimeNull; OpendirProc; FopenRead LAST_PROCESS_FILE; TinymixGet;
                     TinymixSet (stepToVolume persisted);
                     FopenWrite LAST_PROCESS_FILE])
       /\ (0 <= live -> Z.abs (live - persisted) <= 1 ->
          trace r = [TimeNull; OpendirProc; FopenRead LAST_PROCESS_FILE; TinymixGet;
                     FopenWrite LAST_PROCESS_FILE])
       /\ (live < 0 ->
          trace r = [TimeNull; OpendirProc; FopenRead LAST_PROCESS_FILE; TinymixGet;
                     FopenWrite LAST_PROCESS_FILE])
       /\ (lastproc_file_writable s = true ->
          final r = set_lastproc_file
                      (Some (current ++ String newline EmptyString)%string) checked
          /\ remembered_process (final r) = current)
       /\ (lastproc_file_writable s = false -> final r = checked)
       /\ last_volume_change (final r) = last_volume_change s
       /\ skip_next_restore (final r) = 0)
    /\ (current = remembered_process s ->
          trace r = [TimeNull; OpendirProc; FopenRead LAST_PROCESS_FILE]
          /\ final r = checked).
Proof.
  intros s t proc pipe current Hgate Hskip Hdom Hpers r live persisted checked.
  subst r. rewrite (tick_checking s t proc pipe Hgate Hskip).
  cbv zeta. rewrite Hdom.
  destruct (dominant_process_name proc s current Hdom) as (_ & Hnl & Hlen).
  pose proof (live_volume_step_range pipe s) as Hlive.
  fold live in Hlive |- *. fold persisted in Hpers |- *. fold checked.
  assert (Hdist : int_abs (int_sub live persisted) = Z.abs (live - persisted)).
  { apply step_distance; [lia|exact Hpers]. }
  rewrite Hdist. unfold strcmp_ne. split.
  - intros Hne. apply String.eqb_neq in Hne. rewrite Hne. cbn [negb].
    unfold trace, final. cbn [fst snd].
    split; [|split; [|split; [|split; [|split; [|split]]]]].
    + intros H0 Hfar.
      destruct (Z.geb_spec live 0); [|lia].
      destruct (Z.gtb_spec (Z.abs (live - persisted)) 1); [reflexivity|lia].
    + intros H0 Hnear.
      destruct (Z.geb_spec live 0); [|lia].
      destruct (Z.gtb_spec (Z.abs (live - persisted)) 1); [lia|reflexivity].
    + intros Hneg.
      destruct (Z.geb_spec live 0); [lia|reflexivity].
    + intros Hw. rewrite Hw. split; [reflexivity|].
      apply remembered_after_write; assumption.
    + intros Hw. rewrite Hw. reflexivity.
    + destruct (lastproc_file_writable s); reflexivity.
    + destruct (lastproc_file_writable s); exact Hskip.
  - intros Heq. apply String.eqb_eq in Heq. rewrite Heq. cbn [negb].
    split; reflexivity.
Qed.

Lemma new_process_restores_and_remembers_witness :
  let nl := String newline EmptyString in
  let s := set_persistent_volume_step 8
             (initial_state (Some (Some 8)) true (Some ("shell" ++ nl)%string) true) in
  let proc := Some [mkProc "42"%string (Some ("game" ++ nl)%string) (Some 100)] in
  let pipe := PipeLine (Some 4) in
  let r := check_and_restore_on_new_process 1000 proc pipe s in
  trace r = [TimeNull; OpendirProc; FopenRead LAST_PROCESS_FILE; TinymixGet;
             TinymixSet (stepToVolume 8); FopenWrite LAST_PROCESS_FILE]
  /\ remembered_process (final r) = "game"%string.
Proof.
  intros nl s proc pipe r.
  assert (Hgate : PROCESS_CHECK_INTERVAL <= wrap64 (1000 - last_process_check s))
    by (vm_compute; congruence).
  assert (Hskip : skip_next_restore s = 0) by reflexivity.
  assert (Hdom : dominant_process proc s = Some "game"%string) by reflexivity.
  assert (Hpers : 0 <= persistent_volume_step s <= MAX_STEPS)
    by (vm_compute; split; congruence).
  destruct (new_process_restores_and_remembers s 1000 proc pipe "game"%string
              Hgate Hskip Hdom Hpers) as [Hdiff _].
  destruct Hdiff as (Hfar & _ & _ & Hwritable & _).
  - vm_compute. congruence.
  - split.
    + apply Hfar; vm_compute; congruence.
    + apply Hwritable. reflexivity.
Defined.

(** ** Process-change monitor: the polling window *)




(** ** Volume scale *)

Lemma clamp_step_id (step : Z) :
  0 <= step <= MAX_STEPS -> clamp_step step = step.
Proof.
  unfold clamp_step, MAX_STEPS. intros Hs.
  destruct (Z.ltb_spec step 0); [lia|].
  destruct (Z.gtb_spec step 16); [lia|reflexivity].
Qed.

Lemma clamp_step_range (step : Z) : 0 <= clamp_step step <= MAX_STEPS.
Proof.
  unfold clamp_step, MAX_STEPS.
  destruct (Z.ltb_spec step 0); destruct (Z.gtb_spec 0 16);
    destruct (Z.gtb_spec step 16); lia.
Qed.

Lemma stepToVolume_floor (step : Z) :
  0 <= step <= MAX_STEPS -> stepToVolume step = step * MAX_VOLUME / MAX_STEPS.
Proof.
  intros Hs. unfold stepToVolume. rewrite clamp_step_id by exact Hs.
  unfold int_div, int_mul, MAX_VOLUME, MAX_STEPS in *.
  rewrite wrap32_small by lia.
  apply Z.quot_div_nonneg; lia.
Qed.

Lemma simple_clamp_step_id (step : Z) :
  0 <= step <= KeymonSimple.MAX_STEPS -> KeymonSimple.clamp_step step = step.
Proof.
  unfold KeymonSimple.clamp_step, KeymonSimple.MAX_STEPS. intros Hs.
  destruct (Z.ltb_spec step 0); [lia|].
  destruct (Z.gtb_spec step 10); [lia|reflexivity].
Qed.

Lemma simple_stepToVolume_floor (step : Z) :
  0 <= step <= KeymonSimple.MAX_STEPS ->
  KeymonSimple.stepToVolume step
  = step * KeymonSimple.MAX_VOLUME / KeymonSimple.MAX_STEPS.
Proof.
  intros Hs. unfold KeymonSimple.stepToVolume.
  rewrite simple_clamp_step_id by exact Hs.
  unfold int_div, int_mul, KeymonSimple.MAX_VOLUME, KeymonSimple.MAX_STEPS in *.
  rewrite wrap32_small by lia.
  apply Z.quot_div_nonneg; lia.
Qed.

(** The actuator past its rate gate, step by step. *)
Lemma setVolumeStep_accepted (s : State) (step : Z) (now : timespec) :
  MIN_VOLUME_CHANGE_INTERVAL_NS <= timespec_diff_ns now (last_volume_change s) ->
  let applied := set_skip_next_restore 1 (set_last_volume_change now s) in
  setVolumeStep step now s
  = (tt,
     (if volume_file_writable s
      then set_persistent_volume_step (clamp_step step)
             (set_volume_file (Some (Some (clamp_step step))) applied)
      else applied),
     [ClockGettime; TinymixSet (stepToVolume (clamp_step step));
      FopenWrite VOLUME_PERSIST_FILE; Usleep 100000]).
Proof.
  intros Hgate applied. subst applied.
  unfold setVolumeStep, get_current_time, save_volume_to_file. mrun.
  apply Z.ltb_ge in Hgate. rewrite Hgate.
  cbn [volume_file_writable set_skip_next_restore set_last_volume_change].
  destruct (volume_file_writable s); reflexivity.
Qed.

Lemma setVolumeStep_gated (s : State) (step : Z) (now : timespec) :
  timespec_diff_ns now (last_volume_change s) < MIN_VOLUME_CHANGE_INTERVAL_NS ->
  setVolumeStep step now s = (tt, s, [ClockGettime]).
Proof.
  intros Hgate. unfold setVolumeStep, get_current_time. mrun.
  apply Z.ltb_lt in Hgate. rewrite Hgate. reflexivity.
Qed.

(** C4, as stated, fails at step 1 of the full variant: 1 * 31 / 16 is
    1.9375, whose nearest integer is 2, and the code computes 1.  The
    single-file variant does the same at step 6: 18.6 becomes 18. *)
Lemma stepToVolume_not_rounded_counterexample :
  0 <= 1 <= Keymon.MAX_STEPS
  /\ Keymon.stepToVolume 1 = 1
  /\ nearest_integer 2 (1 * Keymon.MAX_VOLUME) Keymon.MAX_STEPS
  /\ ~ nearest_integer (Keymon.stepToVolume 1) (1 * Keymon.MAX_VOLUME) Keymon.MAX_STEPS
  /\ 0 <= 6 <= KeymonSimple.MAX_STEPS
  /\ KeymonSimple.stepToVolume 6 = 18
  /\ ~ nearest_integer (KeymonSimple.stepToVolume 6)
         (6 * KeymonSimple.MAX_VOLUME) KeymonSimple.MAX_STEPS.
Proof.
  unfold nearest_integer. vm_compute.
  repeat split; try congruence; intros H; apply H; reflexivity.
Qed.

(** C4, amended.  For every volume step S in [0, MAX_STEPS] the native value
    is S * 31 / MAX_STEPS rounded down (the quotient of the integer
    division), in both variants; it is the value the volume actuator hands
    to the mixer whenever it acts. *)
Theorem stepToVolume_rounds_down :
  forall (S : Z),
    (0 <= S <= Keymon.MAX_STEPS ->
       Keymon.stepToVolume S = S * Keymon.MAX_VOLUME / Keymon.MAX_STEPS
       /\ Keymon.stepToVolume S * Keymon.MAX_STEPS <= S * Keymon.MAX_VOLUME
          < (Keymon.stepToVolume S + 1) * Keymon.MAX_STEPS
       /\ forall (s : State) (now : timespec),
            MIN_VOLUME_CHANGE_INTERVAL_NS
              <= timespec_diff_ns now (last_volume_change s) ->
            trace (Keymon.setVolumeStep S now s)
            = [ClockGettime;
               TinymixSet (S * Keymon.MAX_VOLUME / Keymon.MAX_STEPS);
               FopenWrite VOLUME_PERSIST_FILE; Usleep 100000])
    /\ (0 <= S <= KeymonSimple.MAX_STEPS ->
       KeymonSimple.stepToVolume S
       = S * KeymonSimple.MAX_VOLUME / KeymonSimple.MAX_STEPS
       /\ KeymonSimple.stepToVolume S * KeymonSimple.MAX_STEPS
          <= S * KeymonSimple.MAX_VOLUME
          < (KeymonSimple.stepToVolume S + 1) * KeymonSimple.MAX_STEPS
       /\ forall (s : State),
            trace (KeymonSimple.setVolumeStep S s)
            = [AmixerSet (S * KeymonSimple.MAX_VOLUME / KeymonSimple.MAX_STEPS)]).
Proof.
  intros S. split; intros HS.
  - pose proof (stepToVolume_floor S HS) as Hfloor. rewrite Hfloor.
    split; [reflexivity|]. split.
    + unfold Keymon.MAX_VOLUME, Keymon.MAX_STEPS in *. 
      pose proof (Z.mul_div_le (S * 31) 16 ltac:(lia)).
      pose proof (Z.mul_succ_div_gt (S * 31) 16 ltac:(lia)). lia.
    + intros s now Hgate.
      rewrite (setVolumeStep_accepted s S now Hgate).
      unfold trace. cbn [snd]. rewrite clamp_step_id by exact HS.
      rewrite Hfloor. reflexivity.
  - pose proof (simple_stepToVolume_floor S HS) as Hfloor. rewrite Hfloor.
    split; [reflexivity|]. split.
    + unfold KeymonSimple.MAX_VOLUME, KeymonSimple.MAX_STEPS in *.
      pose proof (Z.mul_div_le (S * 31) 10 ltac:(lia)).
      pose proof (Z.mul_succ_div_gt (S * 31) 10 ltac:(lia)). lia.
    + intros s. unfold KeymonSimple.setVolumeStep, trace. mrun.
      rewrite simple_clamp_step_id by exact HS. rewrite Hfloor. reflexivity.
Qed.

Lemma stepToVolume_rounds_down_witness :
  (Keymon.stepToVolume 1 = 1 * Keymon.MAX_VOLUME / Keymon.MAX_STEPS
   /\ Keymon.stepToVolume 1 = 1)
  /\ (KeymonSimple.stepToVolume 6
      = 6 * KeymonSimple.MAX_VOLUME / KeymonSimple.MAX_STEPS
      /\ KeymonSimple.stepToVolume 6 = 18).
Proof.
  split.
  - split; [|reflexivity].
    apply (proj1 (stepToVolume_rounds_down 1)). vm_compute. split; congruence.
  - split; [|reflexivity].
    apply (proj2 (stepToVolume_rounds_down 6)). vm_compute. split; congruence.
Defined.

Lemma step_of_volume_stepToVolume (S : Z) :
  0 <= S <= MAX_STEPS -> step_of_volume (stepToVolume S) = S.
Proof.
  intros HS. rewrite (stepToVolume_floor S HS).
  unfold step_of_volume, int_div, int_add, int_mul, MAX_VOLUME, MAX_STEPS in *.
  assert (Hv : 0 <= S * 31 / 16 <= 31).
  { split; [apply Z.div_pos; lia|].
    apply Z.div_le_upper_bound; lia. }
  rewrite (wrap32_small (S * 31 / 16 * 16)) by lia.
  change (Z.quot 31 2) with 15.
  rewrite wrap32_small by lia.
  rewrite Z.quot_div_nonneg by lia.
  assert (Hq : (S * 31 / 16 * 16 + 15) / 31 = S).
  { pose proof (Z.mul_div_le (S * 31) 16 ltac:(lia)).
    pose proof (Z.mul_succ_div_gt (S * 31) 16 ltac:(lia)).
    symmetry. apply (Z.div_unique _ 31 S (S * 31 / 16 * 16 + 15 - 31 * S)); lia. }
  rewrite Hq. apply clamp_step_id. exact HS.
Qed.

(** C5. On the steps 0..MAX_STEPS the conversion to the native scale is
    monotonically non-decreasing, and converting a step to its native value
    and back with [(native * MAX_STEPS + MAX_VOLUME/2) / MAX_VOLUME], as
    [getVolumeStep] does on the mixer's answer, gives the step again. *)
Theorem step_native_monotone_and_roundtrip :
  forall (S T : Z),
    0 <= S -> S <= T -> T <= MAX_STEPS ->
    stepToVolume S <= stepToVolume T
    /\ step_of_volume (stepToVolume S) = S
    /\ step_of_volume (stepToVolume T) = T
    /\ (forall s : State,
          result (getVolumeStep (PipeLine (Some (stepToVolume S))) s) = S).
Proof.
  intros S T HS HST HT.
  split; [|split; [|split]].
  - rewrite !stepToVolume_floor by lia.
    apply Z.div_le_mono; unfold MAX_VOLUME, MAX_STEPS; lia.
  - apply step_of_volume_stepToVolume. lia.
  - apply step_of_volume_stepToVolume. lia.
  - intros s. unfold getVolumeStep, result. mrun.
    apply step_of_volume_stepToVolume. lia.
Qed.

Lemma step_native_monotone_and_roundtrip_witness :
  stepToVolume 7 <= stepToVolume 8
  /\ step_of_volume (stepToVolume 7) = 7
  /\ step_of_volume (stepToVolume 8) = 8
  /\ (forall s : State,
        result (getVolumeStep (PipeLine (Some (stepToVolume 7))) s) = 7).
Proof.
  apply (step_native_monotone_and_roundtrip 7 8); vm_compute; congruence.
Defined.

(** ** Sequencing *)

Lemma final_bind {A B : Type} (m : M A) (k : A -> M B) (s : State) :
  final (bind m k s) = final (k (result (m s)) (final (m s))).
Proof.
  unfold bind, final, result.
  destruct (m s) as [[a s1] t1]. cbn [fst snd].
  destruct (k a s1) as [[b s2] t2]. reflexivity.
Qed.

Lemma result_bind {A B : Type} (m : M A) (k : A -> M B) (s : State) :
  result (bind m k s) = result (k (result (m s)) (final (m s))).
Proof.
  unfold bind, final, result.
  destruct (m s) as [[a s1] t1]. cbn [fst snd].
  destruct (k a s1) as [[b s2] t2]. reflexivity.
Qed.

Lemma trace_bind {A B : Type} (m : M A) (k : A -> M B) (s : State) :
  trace (bind m k s) = trace (m s) ++ trace (k (result (m s)) (final (m s))).
Proof.
  unfold bind, final, result, trace.
  destruct (m s) as [[a s1] t1]. cbn [fst snd].
  destruct (k a s1) as [[b s2] t2]. reflexivity.
Qed.

Lemma final_ret {A : Type} (a : A) (s : State) : final (ret a s) = s.
Proof. reflexivity. Qed.

Lemma result_ret {A : Type} (a : A) (s : State) : result (ret a s) = a.
Proof. reflexivity. Qed.

Lemma final_gets {A : Type} (f : State -> A) (s : State) : final (gets f s) = s.
Proof. reflexivity. Qed.

Lemma result_gets {A : Type} (f : State -> A) (s : State) :
  result (gets f s) = f s.
Proof. reflexivity. Qed.

Lemma final_modify (f : State -> State) (s : State) : final (modify f s) = f s.
Proof. reflexivity. Qed.

Lemma final_emit (e : Event) (s : State) : final (emit e s) = s.
Proof. reflexivity. Qed.

Create Rewrite HintDb run.
#[local] Hint Rewrite @final_bind @result_bind @final_ret @result_ret
  @final_gets @result_gets final_modify final_emit : run.

(** ** Brightness level stays an index of the table *)

Lemma clamp_level_range (level : Z) : 0 <= clamp_level level <= 7.
Proof.
  unfold clamp_level.
  destruct (Z.ltb_spec level 0); destruct (Z.gtb_spec 0 7);
    destruct (Z.gtb_spec level 7); lia.
Qed.

(** The two [if] statements that open [set_brightness_ioctl], by cases on
    the request. *)
Lemma clamp_level_cases (level : Z) :
  (level < 0 -> clamp_level level = 0)
  /\ (0 <= level <= 7 -> clamp_level level = level)
  /\ (7 < level -> clamp_level level = 7)
  /\ clamp_level level = Z.max 0 (Z.min 7 level).
Proof.
  unfold clamp_level.
  destruct (Z.ltb_spec level 0); destruct (Z.gtb_spec 0 7);
    destruct (Z.gtb_spec level 7); repeat split; intros; lia.
Qed.

Lemma find_exact_range (values : list Z) (raw : Z) :
  forall i j : Z,
    find_exact i values raw = Some j -> i <= j < i + Z.of_nat (List.length values).
Proof.
  induction values as [|v rest IH]; intros i j Hfind; cbn [find_exact] in Hfind.
  - discriminate.
  - cbn [List.length]. destruct (v =? raw).
    + injection Hfind as Hfind. lia.
    + apply IH in Hfind. lia.
Qed.

Lemma find_closest_range (values : list Z) (raw : Z) :
  forall (i : Z) (acc : Z * Z),
    0 <= fst acc < i ->
    0 <= fst (find_closest i values raw acc) < i + Z.of_nat (List.length values).
Proof.
  induction values as [|v rest IH]; intros i acc Hacc; cbn [find_closest List.length].
  - lia.
  - match goal with
    | |- context [find_closest (i + 1) rest raw ?a] =>
        specialize (IH (i + 1) a)
    end.
    destruct (int_abs (int_sub v raw) <? snd acc); cbn [fst] in IH; lia.
Qed.

Lemma level_of_raw_range (raw : Z) : 0 <= level_of_raw raw <= 7.
Proof.
  unfold level_of_raw.
  destruct (find_exact 0 brightness_values raw) as [i|] eqn:Hexact.
  - apply find_exact_range in Hexact. cbn in Hexact. lia.
  - match goal with
    | |- context [find_closest 1 ?vs raw ?a] =>
        assert (Hclosest : 0 <= fst (find_closest 1 vs raw a)
                           < 1 + Z.of_nat (List.length vs))
          by (apply find_closest_range; cbn [fst]; lia)
    end.
    cbn [tl brightness_values List.length] in Hclosest |- *. lia.
Qed.

(** The probe answers with an index of the table and does not itself write
    the level. *)
Lemma get_brightness_ioctl_level (probe : disp_probe) (s : State) :
  brightness_level (final (get_brightness_ioctl probe s)) = brightness_level s
  /\ forall l : Z,
       result (get_brightness_ioctl probe s) = Some l -> 0 <= l <= 7.
Proof.
  unfold get_brightness_ioctl, brightness_found, brightness_not_found,
    final, result.
  mrun.
  destruct (brightness_get_supported s =? 0); cbv beta iota zeta; cbn [fst snd].
  { split; [reflexivity|discriminate]. }
  destruct (probe_open probe); cbv beta iota zeta; cbn [fst snd negb].
  2:{ split; [reflexivity|discriminate]. }
  assert (Hfound : forall raw l, Some (level_of_raw (wrap32 raw)) = Some l -> 0 <= l <= 7).
  { intros raw l Hl. injection Hl as Hl. subst l. apply level_of_raw_range. }
  destruct (probe_ioctl probe 0) as [[p0 p1]|].
  - destruct (plausible p1); cbv beta iota zeta; cbn [fst snd].
    { split; [reflexivity|apply Hfound]. }
    destruct (plausible p0); cbv beta iota zeta; cbn [fst snd].
    { split; [reflexivity|apply Hfound]. }
    destruct (probe_ioctl probe 1) as [[q0 q1]|]; cbv beta iota zeta; cbn [fst snd].
    + destruct (plausible q1); cbv beta iota zeta; cbn [fst snd].
      * split; [reflexivity|apply Hfound].
      * split; [reflexivity|discriminate].
    + split; [reflexivity|discriminate].
  - cbv beta iota zeta; cbn [fst snd].
    destruct (probe_ioctl probe 1) as [[q0 q1]|]; cbv beta iota zeta; cbn [fst snd].
    + destruct (plausible q1); cbv beta iota zeta; cbn [fst snd].
      * split; [reflexivity|apply Hfound].
      * split; [reflexivity|discriminate].
    + split; [reflexivity|discriminate].
Qed.

Lemma sync_brightness_level_range (probe : disp_probe) (s : State) :
  level_in_range s -> level_in_range (final (sync_brightness_level probe s)).
Proof.
  intros Hs. unfold sync_brightness_level. rewrite final_bind.
  destruct (get_brightness_ioctl_level probe s) as [Hframe Hres].
  destruct (result (get_brightness_ioctl probe s)) as [l|].
  - specialize (Hres l eq_refl). unfold level_in_range, modify, final. cbn. exact Hres.
  - unfold ret. unfold final at 1. cbn [fst snd].
    unfold level_in_range. rewrite Hframe. exact Hs.
Qed.

Lemma set_brightness_ioctl_range (s : State) (level : Z) (now : timespec)
    (dev : Z -> disp_attempt) :
  level_in_range s -> level_in_range (final (set_brightness_ioctl level now dev s)).
Proof.
  intros Hs.
  destruct (Z.lt_ge_cases (timespec_diff_ns now (last_brightness_change s))
              MIN_BRIGHTNESS_INTERVAL_NS) as [Hgate|Hgate].
  - rewrite set_brightness_ioctl_gated by exact Hgate. exact Hs.
  - rewrite set_brightness_ioctl_accepted by exact Hgate.
    unfold level_in_range. cbn. apply clamp_level_range.
Qed.

Lemma run_brightness_ops_range (ops : list brightness_op) :
  forall s : State,
    level_in_range s -> level_in_range (final (run_brightness_ops ops s)).
Proof.
  induction ops as [|op rest IH]; intros s Hs; cbn [run_brightness_ops].
  - exact Hs.
  - rewrite final_bind. apply IH.
    destruct op as [level now dev|probe]; cbn [run_brightness_op].
    + rewrite final_bind. unfold ret, final at 1. cbn [fst snd].
      apply set_brightness_ioctl_range. exact Hs.
    + apply sync_brightness_level_range. exact Hs.
Qed.

(** C8. The applied brightness level is the request clamped to [0,7]: a
    request below 0 is applied as 0, a request above 7 as 7, and a request in
    [0,7] as itself; that is the level stored by an apply that passes the
    rate limit.  The stored level never leaves [0,7]: it starts at 3, every
    sequence of brightness applies (any requested integers, any clock
    readings, any answers of the display driver) and startup probes keeps it
    in range, and the probe itself only ever answers with an index in [0,7],
    be it from the exact match or from the closest match. *)
Theorem brightness_level_stays_in_range :
  forall (L : Z),
    0 <= clamp_level L <= 7
    /\ (L < 0 -> clamp_level L = 0)
    /\ (0 <= L <= 7 -> clamp_level L = L)
    /\ (7 < L -> clamp_level L = 7)
    /\ clamp_level L = Z.max 0 (Z.min 7 L)
    /\ (forall (s : State) (now : timespec) (dev : Z -> disp_attempt),
          MIN_BRIGHTNESS_INTERVAL_NS
            <= timespec_diff_ns now (last_brightness_change s) ->
          brightness_level (final (set_brightness_ioctl L now dev s)) = clamp_level L
          /\ brightness_level (final (set_brightness_ioctl L now dev s))
             = Z.max 0 (Z.min 7 L))
    /\ (forall (raw : Z), 0 <= level_of_raw raw <= 7)
    /\ (forall (probe : disp_probe) (s : State) (l : Z),
          result (get_brightness_ioctl probe s) = Some l -> 0 <= l <= 7)
    /\ (forall vf vw pf pw (ops : list brightness_op),
          level_in_range (final (run_brightness_ops ops (initial_state vf vw pf pw))))
    /\ (forall (ops : list brightness_op) (s : State),
          level_in_range s -> level_in_range (final (run_brightness_ops ops s))).
Proof.
  intros L. split; [apply clamp_level_range|].
  pose proof (clamp_level_cases L) as (Hlow & Hmid & Hhigh & Hclamp).
  split; [exact Hlow|]. split; [exact Hmid|]. split; [exact Hhigh|].
  split; [exact Hclamp|].
  split; [|split; [|split; [|split]]].
  - intros s now dev Hgate. rewrite <- Hclamp.
    rewrite set_brightness_ioctl_accepted by exact Hgate.
    split; reflexivity.
  - apply level_of_raw_range.
  - intros probe s l. apply get_brightness_ioctl_level.
  - intros vf vw pf pw ops. apply run_brightness_ops_range.
    unfold level_in_range. cbn. lia.
  - apply run_brightness_ops_range.
Qed.

Lemma brightness_level_stays_in_range_witness :
  let s := initial_state None false None false in
  let ops := [StartupProbe (mkProbe true (fun _ => Some (0, 300)));
              Apply 9 (mkTimespec 1 0) (fun _ => IoctlFails EPERM);
              Apply (-4) (mkTimespec 2 0) (fun _ => OpenFails)] in
  level_in_range s /\ level_in_range (final (run_brightness_ops ops s))
  /\ brightness_level
       (final (set_brightness_ioctl 9 (mkTimespec 1 0) (fun _ => IoctlFails EPERM) s))
     = 7
  /\ brightness_level
       (final (set_brightness_ioctl (-4) (mkTimespec 1 0) (fun _ => OpenFails) s))
     = 0
  /\ brightness_level
       (final (set_brightness_ioctl 5 (mkTimespec 1 0) (fun _ => IoctlOk) s))
     = 5.
Proof.
  intros s ops.
  assert (Hs : level_in_range s) by (vm_compute; split; congruence).
  assert (Hgate : MIN_BRIGHTNESS_INTERVAL_NS
                  <= timespec_diff_ns (mkTimespec 1 0) (last_brightness_change s))
    by (vm_compute; congruence).
  destruct (brightness_level_stays_in_range 9)
    as (_ & _ & _ & Hhigh & _ & Happly9 & _ & _ & _ & Hseq).
  destruct (brightness_level_stays_in_range (-4))
    as (_ & Hlow & _ & _ & _ & Happly4 & _).
  destruct (brightness_level_stays_in_range 5)
    as (_ & _ & Hmid & _ & _ & Happly5 & _).
  split; [exact Hs|]. split; [exact (Hseq ops s Hs)|].
  split; [|split].
  - rewrite (proj1 (Happly9 s (mkTimespec 1 0) (fun _ => IoctlFails EPERM) Hgate)).
    apply Hhigh. lia.
  - rewrite (proj1 (Happly4 s (mkTimespec 1 0) (fun _ => OpenFails) Hgate)).
    apply Hlow. lia.
  - rewrite (proj1 (Happly5 s (mkTimespec 1 0) (fun _ => IoctlOk) Hgate)).
    apply Hmid. lia.
Defined.

(** ** Key dispatch *)

Lemma setVolumeStep_reads_clock (s : State) (step : Z) (now : timespec) :
  hd_error (trace (setVolumeStep step now s)) = Some ClockGettime.
Proof.
  destruct (Z.lt_ge_cases (timespec_diff_ns now (last_volume_change s))
              MIN_VOLUME_CHANGE_INTERVAL_NS) as [Hgate|Hgate].
  - rewrite setVolumeStep_gated by exact Hgate. reflexivity.
  - rewrite (setVolumeStep_accepted s step now Hgate). reflexivity.
Qed.

Lemma dispatch_volume_up (s : State) (step : Z) (now : timespec)
    (dev : Z -> disp_attempt) :
  menu_long_pressed s = 0 -> -2147483648 <= step < 2147483648 ->
  dispatch_event (mkEvent EV_KEY KEY_VOLUP 1) now dev step s
  = if step <? MAX_STEPS
    then (step + 1, final (setVolumeStep (step + 1) now s),
          trace (setVolumeStep (step + 1) now s))
    else (step, s, []).
Proof.
  intros Hheld Hstep. unfold dispatch_event. cbn [ev_type ev_code ev_value].
  change (EV_KEY =? EV_KEY) with true. change (1 =? 1) with true.
  change (KEY_VOLUP =? KEY_MENU_LONG) with false.
  change (KEY_VOLUP =? KEY_VOLUP) with true. cbn [andb].
  mrun. rewrite Hheld. cbn [truthy Z.eqb negb].
  unfold MAX_STEPS. destruct (Z.ltb_spec step 16); [|reflexivity].
  unfold int_add. rewrite wrap32_small by lia.
  destruct (setVolumeStep (step + 1) now s) as [[u s'] tr].
  unfold final, trace. cbn [fst snd]. rewrite app_nil_r. reflexivity.
Qed.

Lemma dispatch_volume_down (s : State) (step : Z) (now : timespec)
    (dev : Z -> disp_attempt) :
  menu_long_pressed s = 0 -> -2147483648 <= step < 2147483648 ->
  dispatch_event (mkEvent EV_KEY KEY_VOLDOWN 1) now dev step s
  = if step >? 0
    then (step - 1, final (setVolumeStep (step - 1) now s),
          trace (setVolumeStep (step - 1) now s))
    else (step, s, []).
Proof.
  intros Hheld Hstep. unfold dispatch_event. cbn [ev_type ev_code ev_value].
  change (EV_KEY =? EV_KEY) with true. change (1 =? 1) with true.
  change (KEY_VOLDOWN =? KEY_MENU_LONG) with false.
  change (KEY_VOLDOWN =? KEY_VOLUP) with false.
  change (KEY_VOLDOWN =? KEY_VOLDOWN) with true. cbn [andb].
  mrun. rewrite Hheld. cbn [truthy Z.eqb negb].
  destruct (Z.gtb_spec step 0); [|reflexivity].
  unfold int_sub. rewrite wrap32_small by lia.
  destruct (setVolumeStep (step - 1) now s) as [[u s'] tr].
  unfold final, trace. cbn [fst snd]. rewrite app_nil_r. reflexivity.
Qed.

Lemma simple_clamp_step_idem (step : Z) :
  KeymonSimple.clamp_step (KeymonSimple.clamp_step step)
  = KeymonSimple.clamp_step step.
Proof.
  apply simple_clamp_step_id.
  unfold KeymonSimple.clamp_step, KeymonSimple.MAX_STEPS.
  destruct (Z.ltb_spec step 0); destruct (Z.gtb_spec 0 10);
    destruct (Z.gtb_spec step 10); lia.
Qed.

(** The single-file variant's actuator has no gate: it always drives the
    mixer, with the native value of the clamped step. *)
Lemma simple_setVolumeStep_run (s : State) (step : Z) :
  KeymonSimple.setVolumeStep step s
  = (tt, s, [AmixerSet (KeymonSimple.stepToVolume step)]).
Proof.
  unfold KeymonSimple.setVolumeStep, KeymonSimple.stepToVolume. mrun.
  rewrite simple_clamp_step_idem. reflexivity.
Qed.

Lemma simple_dispatch_volume_up (s : State) (step : Z) (now : timespec)
    (dev : Z -> disp_attempt) :
  menu_long_pressed s = 0 -> -2147483648 <= step < 2147483648 ->
  KeymonSimple.dispatch_event (mkEvent EV_KEY KEY_VOLUP 1) now dev step s
  = if step <? KeymonSimple.MAX_STEPS
    then (step + 1, final (KeymonSimple.setVolumeStep (step + 1) s),
          trace (KeymonSimple.setVolumeStep (step + 1) s))
    else (step, s, []).
Proof.
  intros Hheld Hstep. unfold KeymonSimple.dispatch_event.
  cbn [ev_type ev_code ev_value].
  change (EV_KEY =? EV_KEY) with true. change (1 =? 1) with true.
  change (KEY_VOLUP =? KEY_MENU_LONG) with false.
  change (KEY_VOLUP =? KEY_VOLUP) with true.
  mrun. rewrite Hheld. cbn [truthy Z.eqb negb].
  unfold KeymonSimple.MAX_STEPS.
  destruct (Z.ltb_spec step 10); [|reflexivity].
  unfold int_add. rewrite wrap32_small by lia.
  rewrite simple_setVolumeStep_run. reflexivity.
Qed.

Lemma simple_dispatch_volume_down (s : State) (step : Z) (now : timespec)
    (dev : Z -> disp_attempt) :
  menu_long_pressed s = 0 -> -2147483648 <= step < 2147483648 ->
  KeymonSimple.dispatch_event (mkEvent EV_KEY KEY_VOLDOWN 1) now dev step s
  = if step >? 0
    then (step - 1, final (KeymonSimple.setVolumeStep (step - 1) s),
          trace (KeymonSimple.setVolumeStep (step - 1) s))
    else (step, s, []).
Proof.
  intros Hheld Hstep. unfold KeymonSimple.dispatch_event.
  cbn [ev_type ev_code ev_value].
  change (EV_KEY =? EV_KEY) with true. change (1 =? 1) with true.
  change (KEY_VOLDOWN =? KEY_MENU_LONG) with false.
  change (KEY_VOLDOWN =? KEY_VOLUP) with false.
  change (KEY_VOLDOWN =? KEY_VOLDOWN) with true.
  mrun. rewrite Hheld. cbn [truthy Z.eqb negb].
  destruct (Z.gtb_spec step 0); [|reflexivity].
  unfold int_sub. rewrite wrap32_small by lia.
  rewrite simple_setVolumeStep_run. reflexivity.
Qed.

(** C9, as stated, fails in the single-file variant.  Its [main] takes the
    step from [getVolumeStep] as it comes, so after a startup with an
    unreadable mixer the step is -1.  A volume-down press with the modifier
    not held is then not at the bound (the step is not 0), yet it is dropped:
    the step stays -1 and the volume actuator, which sends the mixer a
    command on every call, is not invoked. *)
Lemma volume_down_below_zero_counterexample :
  let s0 := initial_state None true None true in
  let started := KeymonSimple.main_startup (mkProbe false (fun _ => None)) true
                   PopenFails s0 in
  let s := final started in
  let down := mkEvent EV_KEY KEY_VOLDOWN 1 in
  let r := KeymonSimple.loop_iteration (Some down) (mkTimespec 5 0)
             (fun _ => IoctlOk) (-1) s in
  result started = Some (-1)
  /\ menu_long_pressed s = 0
  /\ -1 <> 0
  /\ result r = -1
  /\ result r <> -1 - 1
  /\ final r = s
  /\ trace r = [ReadInput]
  /\ trace (KeymonSimple.setVolumeStep (-1 - 1) s) = [AmixerSet 0].
Proof. vm_compute. repeat split; congruence. Qed.

(** C9, amended.  A press of a magnitude key while the modifier is not
    held, in either variant ([MAX] is the variant's MAX_STEPS, [dispatch] its
    key dispatch and [actuator] its setVolumeStep):
    - volume-up with the step at MAX or beyond and volume-down with the
      step at 0 or below are dropped: the step and the whole state are
      unchanged and no system call is made, so the volume actuator is not
      invoked, not even for its clock reading or the mixer command that
      every call of it starts with;
    - otherwise the step moves by exactly 1, a step that was in [0, MAX]
      stays there, and the dispatch is exactly one call of the volume
      actuator with the new step;
    - hence for a step in [0, MAX] a volume-up press is dropped exactly at
      MAX and a volume-down press exactly at 0. *)
Theorem volume_key_at_bound_is_dropped :
  forall (s : State) (step : Z) (now : timespec) (dev : Z -> disp_attempt),
    menu_long_pressed s = 0 ->
    -2147483648 <= step < 2147483648 ->
    let up := mkEvent EV_KEY KEY_VOLUP 1 in
    let down := mkEvent EV_KEY KEY_VOLDOWN 1 in
    ((Keymon.MAX_STEPS <= step ->
        Keymon.dispatch_event up now dev step s = (step, s, []))
     /\ (step < Keymon.MAX_STEPS ->
        Keymon.dispatch_event up now dev step s
        = (step + 1, final (Keymon.setVolumeStep (step + 1) now s),
           trace (Keymon.setVolumeStep (step + 1) now s))
        /\ hd_error (trace (Keymon.dispatch_event up now dev step s))
           = Some ClockGettime
        /\ (0 <= step -> 0 <= step + 1 <= Keymon.MAX_STEPS))
     /\ (step <= 0 ->
        Keymon.dispatch_event down now dev step s = (step, s, []))
     /\ (0 < step ->
        Keymon.dispatch_event down now dev step s
        = (step - 1, final (Keymon.setVolumeStep (step - 1) now s),
           trace (Keymon.setVolumeStep (step - 1) now s))
        /\ hd_error (trace (Keymon.dispatch_event down now dev step s))
           = Some ClockGettime
        /\ (step <= Keymon.MAX_STEPS -> 0 <= step - 1 <= Keymon.MAX_STEPS)))
    /\ ((KeymonSimple.MAX_STEPS <= step ->
        KeymonSimple.dispatch_event up now dev step s = (step, s, []))
     /\ (step < KeymonSimple.MAX_STEPS ->
        KeymonSimple.dispatch_event up now dev step s
        = (step + 1, final (KeymonSimple.setVolumeStep (step + 1) s),
           trace (KeymonSimple.setVolumeStep (step + 1) s))
        /\ trace (KeymonSimple.dispatch_event up now dev step s)
           = [AmixerSet (KeymonSimple.stepToVolume (step + 1))]
        /\ (0 <= step -> 0 <= step + 1 <= KeymonSimple.MAX_STEPS))
     /\ (step <= 0 ->
        KeymonSimple.dispatch_event down now dev step s = (step, s, []))
     /\ (0 < step ->
        KeymonSimple.dispatch_event down now dev step s
        = (step - 1, final (KeymonSimple.setVolumeStep (step - 1) s),
           trace (KeymonSimple.setVolumeStep (step - 1) s))
        /\ trace (KeymonSimple.dispatch_event down now dev step s)
           = [AmixerSet (KeymonSimple.stepToVolume (step - 1))]
        /\ (step <= KeymonSimple.MAX_STEPS ->
            0 <= step - 1 <= KeymonSimple.MAX_STEPS)))
    /\ (0 <= step <= Keymon.MAX_STEPS ->
        (Keymon.dispatch_event up now dev step s = (step, s, [])
         <-> step = Keymon.MAX_STEPS)
        /\ (Keymon.dispatch_event down now dev step s = (step, s, [])
            <-> step = 0))
    /\ (0 <= step <= KeymonSimple.MAX_STEPS ->
        (KeymonSimple.dispatch_event up now dev step s = (step, s, [])
         <-> step = KeymonSimple.MAX_STEPS)
        /\ (KeymonSimple.dispatch_event down now dev step s = (step, s, [])
            <-> step = 0)).
Proof.
  intros s step now dev Hheld Hint up down. subst up down.
  split; [|split; [|split]].
  - rewrite (dispatch_volume_up s step now dev Hheld Hint).
    rewrite (dispatch_volume_down s step now dev Hheld Hint).
    unfold Keymon.MAX_STEPS.
    split; [|split; [|split]].
    + intros Hb. destruct (Z.ltb_spec step 16); [lia|reflexivity].
    + intros Hb. destruct (Z.ltb_spec step 16); [|lia].
      split; [reflexivity|]. split; [apply setVolumeStep_reads_clock|lia].
    + intros Hb. destruct (Z.gtb_spec step 0); [lia|reflexivity].
    + intros Hb. destruct (Z.gtb_spec step 0); [|lia].
      split; [reflexivity|]. split; [apply setVolumeStep_reads_clock|lia].
  - rewrite (simple_dispatch_volume_up s step now dev Hheld Hint).
    rewrite (simple_dispatch_volume_down s step now dev Hheld Hint).
    unfold KeymonSimple.MAX_STEPS.
    split; [|split; [|split]].
    + intros Hb. destruct (Z.ltb_spec step 10); [lia|reflexivity].
    + intros Hb. destruct (Z.ltb_spec step 10); [|lia].
      rewrite simple_setVolumeStep_run. repeat split; lia.
    + intros Hb. destruct (Z.gtb_spec step 0); [lia|reflexivity].
    + intros Hb. destruct (Z.gtb_spec step 0); [|lia].
      rewrite simple_setVolumeStep_run. repeat split; lia.
  - intros Hrange.
    rewrite (dispatch_volume_up s step now dev Hheld Hint).
    rewrite (dispatch_volume_down s step now dev Hheld Hint).
    unfold Keymon.MAX_STEPS in *.
    destruct (Z.ltb_spec step 16); destruct (Z.gtb_spec step 0);
      repeat split; intros Heq;
      first [reflexivity | lia | (inversion Heq; lia)].
  - intros Hrange.
    rewrite (simple_dispatch_volume_up s step now dev Hheld Hint).
    rewrite (simple_dispatch_volume_down s step now dev Hheld Hint).
    unfold KeymonSimple.MAX_STEPS in *.
    destruct (Z.ltb_spec step 10); destruct (Z.gtb_spec step 0);
      repeat split; intros Heq;
      first [reflexivity | lia | (inversion Heq; lia)].
Qed.

Lemma volume_key_at_bound_is_dropped_witness :
  let s := initial_state None true None true in
  let up := mkEvent EV_KEY KEY_VOLUP 1 in
  let down := mkEvent EV_KEY KEY_VOLDOWN 1 in
  let now := mkTimespec 5 0 in
  let dev := fun _ : Z => IoctlOk in
  Keymon.dispatch_event up now dev 16 s = (16, s, [])
  /\ Keymon.dispatch_event down now dev 16 s
     = (15, final (Keymon.setVolumeStep 15 now s),
        trace (Keymon.setVolumeStep 15 now s))
  /\ KeymonSimple.dispatch_event up now dev 10 s = (10, s, [])
  /\ KeymonSimple.dispatch_event down now dev 0 s = (0, s, []).
Proof.
  intros s up down now dev.
  assert (Hheld : menu_long_pressed s = 0) by reflexivity.
  destruct (volume_key_at_bound_is_dropped s 16 now dev Hheld ltac:(lia))
    as [(Hup & _ & _ & Hdown) _].
  destruct (volume_key_at_bound_is_dropped s 10 now dev Hheld ltac:(lia))
    as [_ [(Hsup & _) _]].
  destruct (volume_key_at_bound_is_dropped s 0 now dev Hheld ltac:(lia))
    as [_ [(_ & _ & Hsdown & _) _]].
  split; [apply Hup; vm_compute; congruence|].
  split; [apply Hdown; lia|].
  split; [apply Hsup; vm_compute; congruence|apply Hsdown; lia].
Defined.

(** ** The ranges are invariants of [main] *)

Lemma tick_frame (s : State) (t : Z) (proc : option (list proc_entry))
    (pipe : pipe_read) :
  let s' := final (check_and_restore_on_new_process t proc pipe s) in
  brightness_level s' = brightness_level s
  /\ persistent_volume_step s' = persistent_volume_step s.
Proof.
  cbv zeta.
  destruct (Z.lt_ge_cases (wrap64 (t - last_process_check s))
              PROCESS_CHECK_INTERVAL) as [Hgate|Hgate].
  { rewrite tick_gated by exact Hgate. split; reflexivity. }
  destruct (Z.eq_dec (skip_next_restore s) 0) as [Hskip|Hskip].
  - rewrite (tick_checking s t proc pipe Hgate Hskip). cbv zeta.
    destruct (dominant_process proc s) as [current|]; [|split; reflexivity].
    destruct (strcmp_ne current (remembered_process s)); [|split; reflexivity].
    unfold final. cbn [fst snd].
    destruct (lastproc_file_writable s); split; reflexivity.
  - rewrite (tick_consumes_flag s t proc pipe Hgate Hskip). split; reflexivity.
Qed.

Lemma handle_menu_event_frame (s : State) (pressed : Z) (now : timespec) :
  let s' := final (handle_menu_event pressed now s) in
  brightness_level s' = brightness_level s
  /\ persistent_volume_step s' = persistent_volume_step s.
Proof.
  cbv zeta.
  destruct (Z.lt_ge_cases (timespec_diff_ns now (last_menu_event s))
              MIN_MENU_DEBOUNCE_NS) as [Hgate|Hgate].
  - rewrite handle_menu_event_ignored by exact Hgate. split; reflexivity.
  - rewrite handle_menu_event_accepted by exact Hgate. split; reflexivity.
Qed.

Lemma setVolumeStep_frame (s : State) (step : Z) (now : timespec) :
  let s' := final (setVolumeStep step now s) in
  brightness_level s' = brightness_level s
  /\ (0 <= persistent_volume_step s <= MAX_STEPS ->
      0 <= persistent_volume_step s' <= MAX_STEPS).
Proof.
  cbv zeta.
  destruct (Z.lt_ge_cases (timespec_diff_ns now (last_volume_change s))
              MIN_VOLUME_CHANGE_INTERVAL_NS) as [Hgate|Hgate].
  - rewrite setVolumeStep_gated by exact Hgate. split; [reflexivity|auto].
  - rewrite (setVolumeStep_accepted s step now Hgate).
    unfold final. cbn [fst snd].
    destruct (volume_file_writable s); split; try reflexivity; cbn.
    + intros _. apply clamp_step_range.
    + auto.
Qed.

Lemma set_brightness_ioctl_frame (s : State) (level : Z) (now : timespec)
    (dev : Z -> disp_attempt) :
  persistent_volume_step (final (set_brightness_ioctl level now dev s))
  = persistent_volume_step s.
Proof.
  destruct (Z.lt_ge_cases (timespec_diff_ns now (last_brightness_change s))
              MIN_BRIGHTNESS_INTERVAL_NS) as [Hgate|Hgate].
  - rewrite set_brightness_ioctl_gated by exact Hgate. reflexivity.
  - rewrite set_brightness_ioctl_accepted by exact Hgate. reflexivity.
Qed.

Lemma dispatch_event_invariant (ev : input_event) (now : timespec)
    (dev : Z -> disp_attempt) (step : Z) (s : State) :
  level_in_range s -> steps_in_range s step ->
  let r := dispatch_event ev now dev step s in
  level_in_range (final r) /\ steps_in_range (final r) (result r).
Proof.
  intros Hlevel [Hpers Hstep]. cbv zeta. unfold dispatch_event.
  assert (Hmenu : forall pressed,
             level_in_range (final ((handle_menu_event pressed now ;; ret step) s))
             /\ steps_in_range (final ((handle_menu_event pressed now ;; ret step) s))
                  (result ((handle_menu_event pressed now ;; ret step) s))).
  { intros pressed. autorewrite with run.
    destruct (handle_menu_event_frame s pressed now) as [Hl Hp].
    unfold level_in_range, steps_in_range. rewrite Hl, Hp. auto. }
  assert (Hbright : forall level,
             let m := (lvl <- gets brightness_level ;;
                       set_brightness_ioctl (level lvl) now dev ;; ret step) in
             level_in_range (final (m s)) /\ steps_in_range (final (m s)) (result (m s))).
  { intros level. cbv zeta. autorewrite with run.
    split; [apply set_brightness_ioctl_range; exact Hlevel|].
    unfold steps_in_range. rewrite set_brightness_ioctl_frame. auto. }
  assert (Hvol : forall step',
             0 <= step' <= MAX_STEPS ->
             let m := (setVolumeStep step' now ;; ret step') in
             level_in_range (final (m s)) /\ steps_in_range (final (m s)) (result (m s))).
  { intros step' Hstep'. cbv zeta. autorewrite with run.
    destruct (setVolumeStep_frame s step' now) as [Hl Hp].
    unfold level_in_range, steps_in_range. rewrite Hl. auto. }
  assert (Hret : level_in_range (final (ret step s))
                 /\ steps_in_range (final (ret step s)) (result (ret step s))).
  { autorewrite with run. unfold steps_in_range. auto. }
  unfold MAX_STEPS in *.
  destruct ((ev_type ev =? EV_KEY) && (ev_value ev =? 1)).
  - destruct (ev_code ev =? KEY_MENU_LONG); [apply Hmenu|].
    destruct (ev_code ev =? KEY_VOLUP).
    + rewrite final_bind, result_bind, final_gets, result_gets.
      destruct (truthy (menu_long_pressed s));
        [apply (Hbright (fun lvl => int_add lvl 1))|].
      destruct (Z.ltb_spec step 16); [|apply Hret].
      apply Hvol. unfold int_add. rewrite wrap32_small by lia. lia.
    + destruct (ev_code ev =? KEY_VOLDOWN); [|apply Hret].
      rewrite final_bind, result_bind, final_gets, result_gets.
      destruct (truthy (menu_long_pressed s));
        [apply (Hbright (fun lvl => int_sub lvl 1))|].
      destruct (Z.gtb_spec step 0); [|apply Hret].
      apply Hvol. unfold int_sub. rewrite wrap32_small by lia. lia.
  - destruct ((ev_type ev =? EV_KEY) && (ev_value ev =? 0)); [|apply Hret].
    destruct (ev_code ev =? KEY_MENU_LONG); [apply Hmenu|apply Hret].
Qed.

Lemma loop_iteration_invariant (env : loop_env) (step : Z) (s : State) :
  level_in_range s -> steps_in_range s step ->
  let r := loop_iteration env step s in
  level_in_range (final r) /\ steps_in_range (final r) (snd (result r)).
Proof.
  intros Hlevel [Hpers Hstep]. cbv zeta. unfold loop_iteration.
  rewrite final_bind, result_bind.
  destruct (tick_frame s (env_time env) (env_proc env) (env_pipe env)) as [Hl Hp].
  set (s1 := final (check_and_restore_on_new_process
                      (env_time env) (env_proc env) (env_pipe env) s)) in *.
  assert (Hlevel1 : level_in_range s1) by (unfold level_in_range; rewrite Hl; exact Hlevel).
  assert (Hsteps1 : steps_in_range s1 step) by (unfold steps_in_range; rewrite Hp; auto).
  rewrite final_bind, result_bind, final_emit.
  destruct (env_select env) as [eintr| |[ev|]]; autorewrite with run; cbn [snd]; auto.
  apply dispatch_event_invariant; assumption.
Qed.

Lemma main_loop_invariant (envs : list loop_env) :
  forall (step : Z) (s : State),
    level_in_range s -> steps_in_range s step ->
    let r := main_loop envs step s in
    level_in_range (final r) /\ steps_in_range (final r) (result r).
Proof.
  induction envs as [|env rest IH]; intros step s Hlevel Hsteps; cbv zeta;
    cbn [main_loop].
  - autorewrite with run. auto.
  - rewrite final_bind, result_bind.
    destruct (loop_iteration_invariant env step s Hlevel Hsteps) as [Hl Hs].
    destruct (fst (result (loop_iteration env step s))).
    + apply IH; assumption.
    + autorewrite with run. auto.
Qed.

Lemma save_volume_to_file_frame (s : State) (step : Z) :
  let s' := final (save_volume_to_file step s) in
  brightness_level s' = brightness_level s
  /\ (0 <= step <= MAX_STEPS ->
      0 <= persistent_volume_step s <= MAX_STEPS ->
      0 <= persistent_volume_step s' <= MAX_STEPS).
Proof.
  cbv zeta. unfold save_volume_to_file, final. mrun.
  destruct (volume_file_writable s); cbn; auto.
Qed.

Lemma save_last_process_frame (s : State) (name : string) :
  let s' := final (save_last_process name s) in
  brightness_level s' = brightness_level s
  /\ persistent_volume_step s' = persistent_volume_step s.
Proof.
  cbv zeta. unfold save_last_process, final. mrun.
  destruct (lastproc_file_writable s); cbn; auto.
Qed.

Lemma load_volume_from_file_range (s : State) :
  let r := load_volume_from_file s in
  brightness_level (final r) = brightness_level s
  /\ steps_in_range (final r) (result r).
Proof.
  cbv zeta. unfold load_volume_from_file, final, result, steps_in_range. mrun.
  destruct (volume_file s) as [[step|]|]; cbn [fst snd]; cbn;
    try (pose proof (clamp_step_range step)); unfold MAX_STEPS in *;
    repeat split; lia.
Qed.

Lemma final_getVolumeStep (pipe : pipe_read) (s : State) :
  final (getVolumeStep pipe s) = s.
Proof. rewrite getVolumeStep_run. reflexivity. Qed.

Lemma final_get_newest_process (proc : option (list proc_entry)) (s : State) :
  final (get_newest_process MAX_PROC_NAME proc s) = s.
Proof. rewrite get_newest_process_run. reflexivity. Qed.

Lemma main_startup_invariant (probe : disp_probe) (input_ok : bool)
    (pipe : pipe_read) (now : timespec) (proc : option (list proc_entry))
    (s : State) (step0 : Z) :
  level_in_range s ->
  let r0 := main_startup probe input_ok pipe now proc s in
  result r0 = Some step0 ->
  level_in_range (final r0) /\ steps_in_range (final r0) step0.
Proof.
  intros Hlevel. cbv zeta. unfold main_startup.
  rewrite final_bind, result_bind.
  pose proof (sync_brightness_level_range probe s Hlevel) as Hlevel1.
  set (s1 := final (sync_brightness_level probe s)) in *.
  rewrite final_bind, result_bind, final_emit.
  destruct input_ok; cbn [negb]; [|autorewrite with run; discriminate].
  rewrite final_bind, result_bind.
  destruct (load_volume_from_file_range s1) as [Hl2 [Hp2 Hstep2]].
  set (s2 := final (load_volume_from_file s1)) in *.
  set (step := result (load_volume_from_file s1)) in *.
  assert (Hlevel2 : level_in_range s2)
    by (unfold level_in_range; rewrite Hl2; exact Hlevel1).
  rewrite final_bind, result_bind, final_getVolumeStep.
  fold (live_volume_step pipe s2).
  pose proof (live_volume_step_range pipe s2) as Hlive.
  set (css := live_volume_step pipe s2) in *.
  rewrite final_bind, result_bind.
  match goal with
  | |- context [final (?m s2)] => set (branch := m s2)
  end.
  assert (Hbranch : level_in_range (final branch)
                    /\ steps_in_range (final branch) (result branch)).
  { subst branch.
    destruct ((css >=? 0) && (int_abs (int_sub css step) >? 1)).
    - autorewrite with run.
      destruct (setVolumeStep_frame s2 step now) as [Hl Hp].
      unfold level_in_range, steps_in_range. rewrite Hl. auto.
    - destruct (Z.geb_spec css 0).
      + autorewrite with run.
        destruct (save_volume_to_file_frame s2 css) as [Hl Hp].
        unfold level_in_range, steps_in_range. rewrite Hl.
        assert (0 <= css <= MAX_STEPS) by lia. auto.
      + autorewrite with run. unfold steps_in_range. auto. }
  destruct Hbranch as [Hlevel3 [Hp3 Hstep3]].
  set (s3 := final branch) in *. set (step3 := result branch) in *.
  rewrite final_bind, result_bind, final_get_newest_process.
  fold (dominant_process proc s3).
  rewrite final_bind, result_bind, final_ret, result_ret.
  intros Hres. injection Hres as Hres. subst step0.
  destruct (dominant_process proc s3) as [name|].
  - destruct (save_last_process_frame s3 name) as [Hl Hp].
    unfold level_in_range, steps_in_range. rewrite Hl, Hp. auto.
  - autorewrite with run. unfold steps_in_range. auto.
Qed.

(** From the initialisers on, whatever the outside world answers, [main]
    keeps the brightness level, the persisted step and its local step in
    their ranges. *)
Lemma main_invariant (vf : option (option Z)) (vw : bool) (pf : option string)
    (pw : bool) (probe : disp_probe) (input_ok : bool) (pipe : pipe_read)
    (now : timespec) (proc : option (list proc_entry)) (envs : list loop_env)
    (step0 : Z) :
  let r0 := main_startup probe input_ok pipe now proc (initial_state vf vw pf pw) in
  result r0 = Some step0 ->
  let r := main_loop envs step0 (final r0) in
  level_in_range (final r) /\ steps_in_range (final r) (result r).
Proof.
  cbv zeta. intros Hstart.
  destruct (main_startup_invariant probe input_ok pipe now proc
              (initial_state vf vw pf pw) step0) as [Hlevel Hsteps].
  - unfold level_in_range. cbn. lia.
  - exact Hstart.
  - apply main_loop_invariant; assumption.
Qed.

(** ** Brightness actuator: the retry policy *)

(** A call that gets past the gate: the bookkeeping, then the retry loop. *)
Lemma set_brightness_ioctl_run (s : State) (level : Z) (now : timespec)
    (dev : Z -> disp_attempt) :
  MIN_BRIGHTNESS_INTERVAL_NS <= timespec_diff_ns now (last_brightness_change s) ->
  let s' := set_last_brightness_change now
              (set_brightness_level (clamp_level level) s) in
  let value := nth (Z.to_nat (clamp_level level)) brightness_values 0 in
  set_brightness_ioctl level now dev s
  = (result (set_brightness_retry 3 0 value dev s'), s',
     ClockGettime :: trace (set_brightness_retry 3 0 value dev s')).
Proof.
  intros Hgate s' value. subst s' value.
  unfold set_brightness_ioctl, get_current_time. mrun.
  apply Z.ltb_ge in Hgate. rewrite Hgate.
  change (Z.to_nat MAX_IOCTL_RETRIES) with 3%nat.
  match goal with
  | |- context [set_brightness_retry ?f ?r ?v ?d ?st] =>
      destruct (set_brightness_retry f r v d st) as [[res st'] tr] eqn:Hloop;
      pose proof (set_brightness_retry_state f r v d st) as Hst;
      rewrite Hloop in Hst
  end.
  unfold result, trace, final in *. cbn [fst snd] in *. subst st'. reflexivity.
Qed.

Lemma retry_loop_exit (fuel : nat) (value : Z) (dev : Z -> disp_attempt)
    (s : State) :
  set_brightness_retry fuel MAX_IOCTL_RETRIES value dev s = (-1, s, []).
Proof. destruct fuel; reflexivity. Qed.

(** One pass of the retry loop. *)
Lemma retry_pass (fuel : nat) (retry value : Z) (dev : Z -> disp_attempt)
    (s : State) :
  0 <= retry < MAX_IOCTL_RETRIES ->
  set_brightness_retry (S fuel) retry value dev s
  = let a := dev retry in
    let events :=
      OpenDisp :: match a with
                  | OpenFails => []
                  | _ => [IoctlSetBrightness value; CloseDisp]
                  end in
    match a with
    | IoctlOk => (0, s, events)
    | _ =>
        if retryable a && (retry <? MAX_IOCTL_RETRIES - 1)
        then
          let r := set_brightness_retry fuel (retry + 1) value dev s in
          (result r, final r, events ++ Usleep (backoff retry a) :: trace r)
        else (-1, s, events)
    end.
Proof.
  unfold MAX_IOCTL_RETRIES. intros Hretry.
  cbn [set_brightness_retry]. mrun.
  unfold MAX_IOCTL_RETRIES, IOCTL_RETRY_DELAY_US.
  destruct (Z.ltb_spec retry 3); [|lia]. cbn [negb].
  unfold int_add, int_mul. rewrite (wrap32_small (retry + 1)) by lia.
  rewrite (wrap32_small (10000 * (retry + 1))) by lia.
  change (3 - 1) with 2.
  destruct (dev retry) as [| |errno]; cbn [retryable backoff andb].
  - destruct (Z.ltb_spec retry 2); cbv beta iota zeta; [|reflexivity].
    destruct (set_brightness_retry fuel (retry + 1) value dev s) as [[res st] tr].
    reflexivity.
  - reflexivity.
  - destruct (transient_errno errno); cbv beta iota zeta; cbn [andb]; [|reflexivity].
    destruct (Z.ltb_spec retry 2); cbv beta iota zeta.
    + destruct (set_brightness_retry fuel (retry + 1) value dev s) as [[res st] tr].
      reflexivity.
    + replace (retry + 1) with MAX_IOCTL_RETRIES by (unfold MAX_IOCTL_RETRIES; lia).
      rewrite retry_loop_exit. reflexivity.
Qed.

Lemma retry_pass_ok (fuel : nat) (retry value : Z) (dev : Z -> disp_attempt)
    (s : State) :
  0 <= retry < MAX_IOCTL_RETRIES ->
  dev retry = IoctlOk ->
  let r := set_brightness_retry (S fuel) retry value dev s in
  result r = 0 /\ opens (trace r) = 1%nat /\ delays (trace r) = []
  /\ brightness_writes (trace r) = [value].
Proof.
  intros Hretry Hok. cbv zeta. rewrite retry_pass by exact Hretry.
  cbv zeta. rewrite Hok. repeat split; reflexivity.
Qed.

Lemma retry_pass_abort (fuel : nat) (retry value : Z) (dev : Z -> disp_attempt)
    (s : State) :
  0 <= retry < MAX_IOCTL_RETRIES ->
  retryable (dev retry) = false -> dev retry <> IoctlOk ->
  let r := set_brightness_retry (S fuel) retry value dev s in
  result r = -1 /\ opens (trace r) = 1%nat /\ delays (trace r) = [].
Proof.
  intros Hretry Hno Hnok. cbv zeta. rewrite retry_pass by exact Hretry.
  cbv zeta. destruct (dev retry) as [| |errno]; cbn [retryable] in Hno |- *.
  - discriminate.
  - congruence.
  - rewrite Hno. repeat split; reflexivity.
Qed.

Lemma retry_pass_last (fuel : nat) (value : Z) (dev : Z -> disp_attempt)
    (s : State) :
  retryable (dev 2) = true ->
  let r := set_brightness_retry (S fuel) 2 value dev s in
  result r = -1 /\ opens (trace r) = 1%nat /\ delays (trace r) = [].
Proof.
  intros Hyes. cbv zeta.
  rewrite retry_pass by (unfold MAX_IOCTL_RETRIES; lia).
  cbv zeta. change (2 <? MAX_IOCTL_RETRIES - 1) with false.
  rewrite Bool.andb_false_r.
  destruct (dev 2) as [| |errno]; cbn [retryable] in Hyes.
  - repeat split; reflexivity.
  - discriminate.
  - repeat split; reflexivity.
Qed.

Lemma retry_pass_continue (fuel : nat) (retry value : Z)
    (dev : Z -> disp_attempt) (s : State) :
  0 <= retry < MAX_IOCTL_RETRIES - 1 ->
  retryable (dev retry) = true ->
  let r := set_brightness_retry (S fuel) retry value dev s in
  let r' := set_brightness_retry fuel (retry + 1) value dev s in
  result r = result r'
  /\ opens (trace r) = S (opens (trace r'))
  /\ delays (trace r) = backoff retry (dev retry) :: delays (trace r')
  /\ brightness_writes (trace r)
     = match dev retry with OpenFails => [] | _ => [value] end
       ++ brightness_writes (trace r').
Proof.
  unfold MAX_IOCTL_RETRIES. intros Hretry Hyes. cbv zeta.
  rewrite retry_pass by (unfold MAX_IOCTL_RETRIES; lia).
  cbv zeta. rewrite Hyes. unfold MAX_IOCTL_RETRIES.
  destruct (Z.ltb_spec retry (3 - 1)) as [_|Hge]; [|lia]. cbn [andb].
  set (r' := set_brightness_retry fuel (retry + 1) value dev s).
  destruct (dev retry) as [| |errno]; cbn [retryable] in Hyes.
  - unfold result, trace. cbn [fst snd app opens delays brightness_writes].
    repeat split; reflexivity.
  - discriminate.
  - unfold result, trace. cbn [fst snd app opens delays brightness_writes].
    repeat split; reflexivity.
Qed.

Lemma retry_policy (value : Z) (dev : Z -> disp_attempt) (s : State) (k : nat) :
  (k < 3)%nat ->
  all_retryable dev k = true ->
  let r := set_brightness_retry 3 0 value dev s in
  let a := dev (Z.of_nat k) in
  (a = IoctlOk ->
     result r = 0 /\ opens (trace r) = S k /\ delays (trace r) = backoffs dev k)
  /\ (retryable a = false -> a <> IoctlOk ->
     result r = -1 /\ opens (trace r) = S k /\ delays (trace r) = backoffs dev k)
  /\ (k = 2%nat -> retryable a = true ->
     result r = -1 /\ opens (trace r) = 3%nat /\ delays (trace r) = backoffs dev k).
Proof.
  intros Hk Hretry. cbv zeta.
  unfold all_retryable, backoffs, passes in *.
  assert (Hrange0 : 0 <= 0 < MAX_IOCTL_RETRIES) by (unfold MAX_IOCTL_RETRIES; lia).
  assert (Hrange1 : 0 <= 1 < MAX_IOCTL_RETRIES) by (unfold MAX_IOCTL_RETRIES; lia).
  assert (Hrange2 : 0 <= 2 < MAX_IOCTL_RETRIES) by (unfold MAX_IOCTL_RETRIES; lia).
  assert (Hcont0 : 0 <= 0 < MAX_IOCTL_RETRIES - 1) by (unfold MAX_IOCTL_RETRIES; lia).
  assert (Hcont1 : 0 <= 1 < MAX_IOCTL_RETRIES - 1) by (unfold MAX_IOCTL_RETRIES; lia).
  destruct k as [|[|[|k]]]; [| | |lia];
    cbn [seq map forallb fst snd Z.of_nat Pos.of_succ_nat Pos.succ] in *.
  - split; [|split].
    + intros Hok.
      destruct (retry_pass_ok 2 0 value dev s Hrange0 Hok) as (Hr & Ho & Hd & _).
      auto.
    + intros Hno Hnok.
      destruct (retry_pass_abort 2 0 value dev s Hrange0 Hno Hnok) as (Hr & Ho & Hd).
      auto.
    + discriminate.
  - apply andb_prop in Hretry. destruct Hretry as [Hyes0 _].
    destruct (retry_pass_continue 2 0 value dev s Hcont0 Hyes0) as (Hr & Ho & Hd & _).
    change (0 + 1) with 1 in *. rewrite Hr, Ho, Hd.
    split; [|split].
    + intros Hok.
      destruct (retry_pass_ok 1 1 value dev s Hrange1 Hok) as (Hr1 & Ho1 & Hd1 & _).
      rewrite Hr1, Ho1, Hd1. auto.
    + intros Hno Hnok.
      destruct (retry_pass_abort 1 1 value dev s Hrange1 Hno Hnok) as (Hr1 & Ho1 & Hd1).
      rewrite Hr1, Ho1, Hd1. auto.
    + discriminate.
  - apply andb_prop in Hretry. destruct Hretry as [Hyes0 Hretry].
    apply andb_prop in Hretry. destruct Hretry as [Hyes1 _].
    destruct (retry_pass_continue 2 0 value dev s Hcont0 Hyes0) as (Hr & Ho & Hd & _).
    change (0 + 1) with 1 in *. rewrite Hr, Ho, Hd.
    destruct (retry_pass_continue 1 1 value dev s Hcont1 Hyes1) as (Hr1 & Ho1 & Hd1 & _).
    change (1 + 1) with 2 in *. rewrite Hr1, Ho1, Hd1.
    split; [|split].
    + intros Hok.
      destruct (retry_pass_ok 0 2 value dev s Hrange2 Hok) as (Hr2 & Ho2 & Hd2 & _).
      rewrite Hr2, Ho2, Hd2. auto.
    + intros Hno Hnok.
      destruct (retry_pass_abort 0 2 value dev s Hrange2 Hno Hnok) as (Hr2 & Ho2 & Hd2).
      rewrite Hr2, Ho2, Hd2. auto.
    + intros _ Hyes2.
      destruct (retry_pass_last 0 value dev s Hyes2) as (Hr2 & Ho2 & Hd2).
      rewrite Hr2, Ho2, Hd2. auto.
Qed.

(** Three passes are all the loop can make: more fuel changes nothing. *)
Lemma retry_fuel_adequate (n : nat) :
  forall (fuel fuel' : nat) (retry value : Z) (dev : Z -> disp_attempt) (s : State),
    retry = MAX_IOCTL_RETRIES - Z.of_nat n -> 0 <= retry ->
    (n <= fuel)%nat -> (n <= fuel')%nat ->
    set_brightness_retry fuel retry value dev s
    = set_brightness_retry fuel' retry value dev s.
Proof.
  induction n as [|n IH]; intros fuel fuel' retry value dev s Hretry H0 Hf Hf'.
  - replace retry with MAX_IOCTL_RETRIES by lia.
    rewrite !retry_loop_exit. reflexivity.
  - destruct fuel as [|fuel]; [lia|]. destruct fuel' as [|fuel']; [lia|].
    rewrite !retry_pass by (unfold MAX_IOCTL_RETRIES in *; lia).
    rewrite (IH fuel fuel' (retry + 1) value dev s) by lia.
    reflexivity.
Qed.

(** C3, as stated, fails for failures to open the device: with [open]
    failing on the first two passes and the third pass succeeding, the
    call reports success after three attempts, but both pauses are 10 ms;
    the pause does not grow with the retry count (10 ms, then 20 ms). *)
Lemma open_failure_backoff_counterexample :
  let s := initial_state None false None false in
  let now := mkTimespec 1 0 in
  let dev := fun retry : Z => if retry <? 2 then OpenFails else IoctlOk in
  let r := set_brightness_ioctl 5 now dev s in
  MIN_BRIGHTNESS_INTERVAL_NS <= timespec_diff_ns now (last_brightness_change s)
  /\ dev 0 = OpenFails /\ dev 1 = OpenFails /\ dev 2 = IoctlOk
  /\ result r = 0
  /\ opens (trace r) = 3%nat
  /\ delays (trace r) = [10000; 10000]
  /\ delays (trace r) <> [IOCTL_RETRY_DELAY_US * 1; IOCTL_RETRY_DELAY_US * 2].
Proof. vm_compute. repeat split; congruence. Qed.

(** C3, amended.  For a brightness apply that passes the rate gate, with
    [k < 3] failed passes that the code retries after (a failure to open the
    device, or a control call failing with EPERM, EBUSY or EAGAIN) before
    pass [k]:
    - the stored level is the clamped request in every outcome;
    - if pass [k] succeeds the call returns 0 after [k + 1] attempts;
    - if pass [k] fails with any other error the call returns -1 at once,
      after [k + 1] attempts;
    - if the third pass fails too the call returns -1 after 3 attempts;
    - the pause after failed pass [i] (from 0) is 10 ms after a failure to
      open and 10 ms times [i + 1] after a failed control call: two
      transient control-call failures followed by a success give the
      result 0, exactly three control calls and the pauses 10 ms, 20 ms;
      two failures to open followed by a success give the pauses 10 ms,
      10 ms. *)
Theorem brightness_retry_policy :
  forall (s : State) (level : Z) (now : timespec) (dev : Z -> disp_attempt)
         (k : nat),
    MIN_BRIGHTNESS_INTERVAL_NS <= timespec_diff_ns now (last_brightness_change s) ->
    (k < 3)%nat ->
    all_retryable dev k = true ->
    let r := set_brightness_ioctl level now dev s in
    let a := dev (Z.of_nat k) in
    let value := nth (Z.to_nat (clamp_level level)) brightness_values 0 in
    brightness_level (final r) = clamp_level level
    /\ (a = IoctlOk ->
          result r = 0 /\ opens (trace r) = S k
          /\ delays (trace r) = backoffs dev k)
    /\ (retryable a = false -> a <> IoctlOk ->
          result r = -1 /\ opens (trace r) = S k
          /\ delays (trace r) = backoffs dev k)
    /\ (k = 2%nat -> retryable a = true ->
          result r = -1 /\ opens (trace r) = 3%nat
          /\ delays (trace r) = backoffs dev k)
    /\ (forall e0 e1 : Z,
          dev 0 = IoctlFails e0 -> transient_errno e0 = true ->
          dev 1 = IoctlFails e1 -> transient_errno e1 = true ->
          dev 2 = IoctlOk ->
          result r = 0
          /\ brightness_writes (trace r) = [value; value; value]
          /\ delays (trace r) = [10000; 20000])
    /\ (dev 0 = OpenFails -> dev 1 = OpenFails -> dev 2 = IoctlOk ->
          result r = 0
          /\ brightness_writes (trace r) = [value]
          /\ delays (trace r) = [10000; 10000]).
Proof.
  intros s level now dev k Hgate Hk Hretry r a value.
  set (s' := set_last_brightness_change now
               (set_brightness_level (clamp_level level) s)).
  set (loop := set_brightness_retry 3 0 value dev s').
  assert (Hrun : r = (result loop, s', ClockGettime :: trace loop))
    by (apply (set_brightness_ioctl_run s level now dev Hgate)).
  assert (Hres : result r = result loop) by (rewrite Hrun; reflexivity).
  assert (Hopens : opens (trace r) = opens (trace loop)) by (rewrite Hrun; reflexivity).
  assert (Hdelays : delays (trace r) = delays (trace loop))
    by (rewrite Hrun; reflexivity).
  assert (Hwrites : brightness_writes (trace r) = brightness_writes (trace loop))
    by (rewrite Hrun; reflexivity).
  assert (Hfinal : final r = s') by (rewrite Hrun; reflexivity).
  rewrite Hres, Hopens, Hdelays, Hwrites, Hfinal. subst a loop.
  destruct (retry_policy value dev s' k Hk Hretry) as (Hok & Habort & Hlast).
  split; [reflexivity|]. split; [exact Hok|]. split; [exact Habort|].
  split; [exact Hlast|].
  assert (Hrange2 : 0 <= 2 < MAX_IOCTL_RETRIES) by (unfold MAX_IOCTL_RETRIES; lia).
  assert (Hcont0 : 0 <= 0 < MAX_IOCTL_RETRIES - 1) by (unfold MAX_IOCTL_RETRIES; lia).
  assert (Hcont1 : 0 <= 1 < MAX_IOCTL_RETRIES - 1) by (unfold MAX_IOCTL_RETRIES; lia).
  split.
  - intros e0 e1 H0 He0 H1 He1 H2.
    destruct (retry_pass_continue 2 0 value dev s' Hcont0) as (Hr & _ & Hd & Hw).
    { rewrite H0. exact He0. }
    destruct (retry_pass_continue 1 1 value dev s' Hcont1) as (Hr1 & _ & Hd1 & Hw1).
    { rewrite H1. exact He1. }
    destruct (retry_pass_ok 0 2 value dev s' Hrange2 H2) as (Hr2 & _ & Hd2 & Hw2).
    change (0 + 1) with 1 in *. change (1 + 1) with 2 in *.
    rewrite Hr, Hr1, Hr2, Hw, Hw1, Hw2, Hd, Hd1, Hd2, H0, H1.
    repeat split; reflexivity.
  - intros H0 H1 H2.
    destruct (retry_pass_continue 2 0 value dev s' Hcont0) as (Hr & _ & Hd & Hw).
    { rewrite H0. reflexivity. }
    destruct (retry_pass_continue 1 1 value dev s' Hcont1) as (Hr1 & _ & Hd1 & Hw1).
    { rewrite H1. reflexivity. }
    destruct (retry_pass_ok 0 2 value dev s' Hrange2 H2) as (Hr2 & _ & Hd2 & Hw2).
    change (0 + 1) with 1 in *. change (1 + 1) with 2 in *.
    rewrite Hr, Hr1, Hr2, Hw, Hw1, Hw2, Hd, Hd1, Hd2, H0, H1.
    repeat split; reflexivity.
Qed.

Lemma brightness_retry_policy_witness :
  let s := initial_state None false None false in
  let dev := fun retry : Z => if retry <? 2 then IoctlFails EBUSY else IoctlOk in
  let r := set_brightness_ioctl 5 (mkTimespec 1 0) dev s in
  brightness_level (final r) = 5
  /\ result r = 0
  /\ opens (trace r) = 3%nat
  /\ delays (trace r) = [10000; 20000].
Proof.
  intros s dev r.
  assert (Hgate : MIN_BRIGHTNESS_INTERVAL_NS
                  <= timespec_diff_ns (mkTimespec 1 0) (last_brightness_change s))
    by (vm_compute; congruence).
  assert (Hk : (2 < 3)%nat) by lia.
  assert (Hretry : all_retryable dev 2 = true) by reflexivity.
  destruct (brightness_retry_policy s 5 (mkTimespec 1 0) dev 2 Hgate Hk Hretry)
    as (Hlevel & Hok & _).
  split; [exact Hlevel|]. apply Hok. reflexivity.
Defined.

(** ** Concrete runs *)

Example stepToVolume_table :
  map Keymon.stepToVolume [0; 1; 2; 3; 4; 5; 6; 7; 8; 9; 10; 11; 12; 13; 14; 15; 16]
  = [0; 1; 3; 5; 7; 9; 11; 13; 15; 17; 19; 21; 23; 25; 27; 29; 31]
  /\ map KeymonSimple.stepToVolume [0; 1; 2; 3; 4; 5; 6; 7; 8; 9; 10]
     = [0; 3; 6; 9; 12; 15; 18; 21; 24; 27; 31].
Proof. split; reflexivity. Qed.

(** Exact matches, closest matches, and the tie at 105 between 70 and 140
    that goes to the lower index. *)
Example level_of_raw_table :
  map level_of_raw [1; 5; 7; 8; 50; 100; 105; 106; 255; 300]
  = [0; 0; 0; 1; 3; 4; 4; 5; 7; 7].
Proof. reflexivity. Qed.

(** The ignore list matches substrings: "sh" also hides "shell" and "dash". *)
Example should_ignore_process_table :
  map should_ignore_process
    ["shell"; "retroarch"; "bash"; "keymon"; "game"; "dash"; "kworker/0:1"; "mpv"]%string
  = [true; false; true; true; false; true; true; false].
Proof. reflexivity. Qed.

(** Without an accessible display device the probe answers nothing, marks
    the query unsupported and is not attempted again. *)
Example probe_without_device :
  let s := initial_state None true None true in
  let first := sync_brightness_level (mkProbe false (fun _ => None)) s in
  let second := sync_brightness_level (mkProbe true (fun _ => Some (0, 255)))
                  (final first) in
  trace first = [OpenDisp]
  /\ brightness_get_supported (final first) = 0
  /\ trace second = []
  /\ brightness_level (final second) = 3.
Proof. repeat split; reflexivity. Qed.

(** From step 3 and level 3, the events press modifier, press volume-up,
    press volume-up, release modifier, one second apart: the level ends at
    5, the step stays 3 and the mixer is never driven. *)
Example modifier_turns_volume_keys_into_brightness :
  let pass := fun (t : Z) (ev : input_event) =>
                mkEnv 1 None PopenFails (SelectReady (Some ev))
                  (mkTimespec t 0) (fun _ => IoctlOk) in
  let envs := [pass 1 (mkEvent EV_KEY KEY_MENU_LONG 1);
               pass 2 (mkEvent EV_KEY KEY_VOLUP 1);
               pass 3 (mkEvent EV_KEY KEY_VOLUP 1);
               pass 4 (mkEvent EV_KEY KEY_MENU_LONG 0)] in
  let r := main_loop envs 3 (initial_state None true None true) in
  result r = 3
  /\ brightness_level (final r) = 5
  /\ menu_long_pressed (final r) = 0
  /\ brightness_writes (trace r) = [70; 140]
  /\ (forall vol, ~ In (TinymixSet vol) (trace r)).
Proof.
  vm_compute. repeat split; try reflexivity.
  intros vol Hin.
  repeat (destruct Hin as [Hin|Hin]; [discriminate|]). exact Hin.
Qed.

(** * Further properties of the code *)

(** ** Time differences *)

(** X1. On clock readings below 2^31 seconds with normalised nanoseconds
    the [long long] arithmetic of [timespec_diff_ns] never wraps: the result
    is the exact number of nanoseconds from [b] to [a], and swapping the
    arguments negates it. *)
Theorem timespec_diff_ns_is_elapsed_time :
  forall a b : timespec,
    sane_timespec a -> sane_timespec b ->
    timespec_diff_ns a b
    = (tv_sec a - tv_sec b) * 1000000000 + (tv_nsec a - tv_nsec b)
    /\ timespec_diff_ns b a = - timespec_diff_ns a b.
Proof.
  intros a b Ha Hb.
  rewrite (timespec_diff_ns_exact a b Ha Hb), (timespec_diff_ns_exact b a Hb Ha).
  split; [reflexivity|lia].
Qed.

Lemma timespec_diff_ns_is_elapsed_time_witness :
  timespec_diff_ns (mkTimespec 12 100000000) (mkTimespec 11 900000000)
  = (12 - 11) * 1000000000 + (100000000 - 900000000)
  /\ timespec_diff_ns (mkTimespec 11 900000000) (mkTimespec 12 100000000)
     = - timespec_diff_ns (mkTimespec 12 100000000) (mkTimespec 11 900000000).
Proof.
  apply (timespec_diff_ns_is_elapsed_time
           (mkTimespec 12 100000000) (mkTimespec 11 900000000));
    vm_compute; repeat split; congruence.
Defined.

(** ** The ignore list *)

Lemma prefix_iff (p : string) :
  forall s : string,
    String.prefix p s = true <-> exists post : string, s = (p ++ post)%string.
Proof.
  induction p as [|c p IH]; intros s.
  - split; [intros _; exists s; reflexivity|].
    intros _. destruct s; reflexivity.
  - destruct s as [|d s]; cbn [String.prefix append].
    + split; [discriminate|intros [post Hpost]; discriminate].
    + destruct (ascii_dec c d) as [Heq|Hne].
      * subst d. rewrite IH. split; intros [post Hpost]; exists post.
        -- rewrite Hpost. reflexivity.
        -- injection Hpost as Hpost. exact Hpost.
      * split; [discriminate|].
        intros [post Hpost]. injection Hpost as Hc _. congruence.
Qed.

Lemma string_app_assoc (a b c : string) :
  ((a ++ b) ++ c = a ++ (b ++ c))%string.
Proof.
  induction a as [|x a IH]; cbn [append]; [reflexivity|].
  rewrite IH. reflexivity.
Qed.

Lemma strstr_iff (hay : string) :
  forall needle : string, strstr hay needle = true <-> occurs_in needle hay.
Proof.
  unfold occurs_in.
  induction hay as [|c hay IH]; intros needle; cbn [strstr].
  - destruct (String.prefix needle EmptyString) eqn:Hp.
    + split; [|reflexivity]. intros _.
      apply prefix_iff in Hp. destruct Hp as [post Hpost].
      exists EmptyString, post. exact Hpost.
    + split; [discriminate|].
      intros (pre & post & Heq).
      destruct pre; [|discriminate]. cbn [append] in Heq.
      assert (String.prefix needle EmptyString = true)
        by (apply prefix_iff; exists post; exact Heq).
      congruence.
  - destruct (String.prefix needle (String c hay)) eqn:Hp.
    + split; [|reflexivity]. intros _.
      apply prefix_iff in Hp. destruct Hp as [post Hpost].
      exists EmptyString, post. exact Hpost.
    + rewrite IH. split.
      * intros (pre & post & Heq). exists (String c pre), post.
        rewrite Heq. reflexivity.
      * intros (pre & post & Heq).
        destruct pre as [|d pre]; cbn [append] in Heq.
        -- assert (String.prefix needle (String c hay) = true)
             by (apply prefix_iff; exists post; exact Heq).
           congruence.
        -- injection Heq as _ Heq. exists pre, post. exact Heq.
Qed.

Lemma should_ignore_among_iff (ignored : list string) (name : string) :
  should_ignore_among ignored name = true
  <-> exists pat : string, In pat ignored /\ occurs_in pat name.
Proof.
  induction ignored as [|pat rest IH]; cbn [should_ignore_among].
  - split; [discriminate|intros (pat & [] & _)].
  - destruct (strstr name pat) eqn:Hs.
    + split; [|reflexivity]. intros _. exists pat.
      split; [left; reflexivity|apply strstr_iff; exact Hs].
    + rewrite IH. split.
      * intros (p & Hin & Hocc). exists p. split; [right; exact Hin|exact Hocc].
      * intros (p & [Heq|Hin] & Hocc).
        -- subst p. apply strstr_iff in Hocc. congruence.
        -- exists p. split; assumption.
Qed.

(** X2. A process name is ignored exactly when one of the 26 patterns of
    the ignore list occurs somewhere in it: the match is by substring, not
    by equality and not by prefix. *)
Theorem should_ignore_process_is_substring_match :
  forall name : string,
    should_ignore_process name = true
    <-> exists pat : string, In pat ignored_processes /\ occurs_in pat name.
Proof. intros name. apply should_ignore_among_iff. Qed.

(** X3. Ignoring survives any text put around a name: whatever contains an
    ignored name is ignored too (so no process whose name contains "sh",
    "init" or "cron" can ever be the dominant one). *)
Theorem should_ignore_process_extends :
  forall name pre post : string,
    should_ignore_process name = true ->
    should_ignore_process (pre ++ name ++ post) = true.
Proof.
  intros name pre post Hname.
  apply should_ignore_among_iff in Hname. apply should_ignore_among_iff.
  destruct Hname as (pat & Hin & pre' & post' & Heq).
  exists pat. split; [exact Hin|].
  exists (pre ++ pre')%string, (post' ++ post)%string.
  rewrite Heq. rewrite !string_app_assoc. reflexivity.
Qed.

Lemma should_ignore_process_is_substring_match_witness :
  should_ignore_process "dashboard"%string = true.
Proof.
  apply (proj2 (should_ignore_process_is_substring_match "dashboard"%string)).
  exists "sh"%string. split.
  - unfold ignored_processes. repeat first [left; reflexivity | right].
  - exists "da"%string, "board"%string. reflexivity.
Defined.

Lemma should_ignore_process_extends_witness :
  should_ignore_process ("my" ++ "bash" ++ "-wrapper") = true.
Proof.
  apply (should_ignore_process_extends "bash" "my" "-wrapper"). reflexivity.
Defined.

(** ** The scan of the process table *)

Lemma scan_keeps (entries : list proc_entry) :
  forall acc : Z * string,
    (forall e m n, In e entries -> eligible e = Some (m, n) -> m <= fst acc) ->
    fold_left scan_entry entries acc = acc.
Proof.
  induction entries as [|e rest IH]; intros acc Hle; cbn [fold_left].
  - reflexivity.
  - assert (Hstep : scan_entry acc e = acc).
    { rewrite scan_entry_eligible. destruct (eligible e) as [[m n]|] eqn:He.
      - specialize (Hle e m n (or_introl eq_refl) He).
        destruct (Z.gtb_spec m (fst acc)); [lia|reflexivity].
      - reflexivity. }
    rewrite Hstep. apply IH. intros e' m n Hin. apply Hle. right. exact Hin.
Qed.

Lemma scan_winner (entries : list proc_entry) :
  forall acc : Z * string,
    let fa := fold_left scan_entry entries acc in
    (fa = acc
     /\ forall e m n, In e entries -> eligible e = Some (m, n) -> m <= fst acc)
    \/ (exists pre e post,
          entries = pre ++ e :: post
          /\ eligible e = Some fa
          /\ fst acc < fst fa
          /\ (forall e' m n, In e' pre -> eligible e' = Some (m, n) -> m < fst fa)
          /\ (forall e' m n, In e' post -> eligible e' = Some (m, n) -> m <= fst fa)).
Proof.
  induction entries as [|e rest IH]; intros acc; cbv zeta; cbn [fold_left].
  - left. split; [reflexivity|intros e m n []].
  - assert (Hstep : (scan_entry acc e = acc
                     /\ forall m n, eligible e = Some (m, n) -> m <= fst acc)
                    \/ (eligible e = Some (scan_entry acc e)
                        /\ fst acc < fst (scan_entry acc e))).
    { rewrite scan_entry_eligible. destruct (eligible e) as [[m n]|].
      - destruct (Z.gtb_spec m (fst acc)).
        + right. split; [reflexivity|cbn [fst]; lia].
        + left. split; [reflexivity|].
          intros m' n' Heq. injection Heq as Hm _. lia.
      - left. split; [reflexivity|discriminate]. }
    specialize (IH (scan_entry acc e)). cbv zeta in IH.
    destruct IH as [[Hsame Hrest]|(pre & e' & post & Hsplit & Helig & Hlt & Hpre & Hpost)].
    + rewrite Hsame. destruct Hstep as [[Hacc He]|[He Hlt]].
      * left. rewrite Hacc in *. split; [reflexivity|].
        intros e0 m n [Heq|Hin] Helig.
        -- subst e0. apply (He m n Helig).
        -- apply (Hrest e0 m n Hin Helig).
      * right. exists [], e, rest. cbn [app].
        split; [reflexivity|]. split; [exact He|]. split; [exact Hlt|].
        split; [intros e0 m n []|exact Hrest].
    + right. exists (e :: pre), e', post.
      split; [rewrite Hsplit; reflexivity|]. split; [exact Helig|].
      assert (Hmono : fst acc <= fst (scan_entry acc e)
                      /\ forall m n, eligible e = Some (m, n) ->
                                     m <= fst (scan_entry acc e)).
      { destruct Hstep as [[Hacc He]|[He Hlt1]].
        - rewrite Hacc. split; [lia|exact He].
        - split; [lia|]. intros m n Heq. rewrite Heq in He.
          injection He as He. rewrite <- He. cbn [fst]. lia. }
      destruct Hmono as [Hm1 Hm2].
      split; [lia|]. split; [|exact Hpost].
      intros e0 m n [Heq|Hin] Helig0.
      * subst e0. specialize (Hm2 m n Helig0). lia.
      * apply (Hpre e0 m n Hin Helig0).
Qed.

Lemma scan_finds (pre post : list proc_entry) (e : proc_entry) (m : Z)
    (name : string) :
  eligible e = Some (m, name) -> 0 < m ->
  (forall e' m' n', In e' pre -> eligible e' = Some (m', n') -> m' < m) ->
  (forall e' m' n', In e' post -> eligible e' = Some (m', n') -> m' <= m) ->
  fold_left scan_entry (pre ++ e :: post) (0, EmptyString) = (m, name).
Proof.
  intros Helig Hpos Hpre Hpost.
  rewrite fold_left_app. cbn [fold_left].
  assert (Hbefore : fst (fold_left scan_entry pre (0, EmptyString)) < m).
  { destruct (scan_winner pre (0, EmptyString))
      as [[Hsame _]|(p & e' & q & Hsplit & He' & _ & _ & _)].
    - rewrite Hsame. cbn [fst]. exact Hpos.
    - destruct (fold_left scan_entry pre (0, EmptyString)) as [m' n'].
      cbn [fst]. apply (Hpre e' m' n'); [|exact He'].
      rewrite Hsplit. apply in_or_app. right. left. reflexivity. }
  rewrite scan_entry_eligible, Helig.
  destruct (Z.gtb_spec m (fst (fold_left scan_entry pre (0, EmptyString))));
    [|lia].
  apply scan_keeps. cbn [fst]. exact Hpost.
Qed.

Lemma dominant_process_winner_iff :
  forall (entries : list proc_entry) (s : State) (current : string),
    dominant_process (Some entries) s = Some current
    <-> nonempty current = true
        /\ exists (pre : list proc_entry) (e : proc_entry)
                  (post : list proc_entry) (m : Z),
             entries = pre ++ e :: post
             /\ eligible e = Some (m, current)
             /\ 0 < m
             /\ (forall e' m' n',
                   In e' pre -> eligible e' = Some (m', n') -> m' < m)
             /\ (forall e' m' n',
                   In e' post -> eligible e' = Some (m', n') -> m' <= m).
Proof.
  intros entries s current.
  unfold dominant_process, get_newest_process, result. mrun. split.
  - destruct (scan_winner entries (0, EmptyString))
      as [[Hsame _]|(pre & e & post & Hsplit & Helig & Hlt & Hpre & Hpost)].
    + rewrite Hsame. cbn [nonempty fst]. discriminate.
    + destruct (fold_left scan_entry entries (0, EmptyString)) as [m name].
      cbn [fst] in *.
      destruct (nonempty name) eqn:Hne; cbn [fst]; [|discriminate].
      intros Hcur. injection Hcur as Hcur.
      pose proof (eligible_name_length e m name Helig) as Hlen.
      change (MAX_PROC_NAME - 1)%nat with 63%nat in Hcur.
      rewrite strncpy_short in Hcur by exact Hlen. subst current.
      split; [exact Hne|]. exists pre, e, post, m. auto.
  - intros (Hne & pre & e & post & m & Hsplit & Helig & Hpos & Hpre & Hpost).
    subst entries. rewrite (scan_finds pre post e m current Helig Hpos Hpre Hpost).
    rewrite Hne. cbn [fst].
    pose proof (eligible_name_length e m current Helig) as Hlen.
    change (MAX_PROC_NAME - 1)%nat with 63%nat.
    rewrite strncpy_short by exact Hlen. reflexivity.
Qed.

(** X4. [get_newest_process] returns the name of the first entry, in the
    order [readdir] lists them, among those with the largest start-time
    proxy: an entry that counts (numeric directory, readable comm line, name
    not ignored, [stat] succeeds) with a positive [st_mtime] that is strictly
    above every counting entry before it and not below any after it; and it
    returns that name only if the name is not empty. *)
Theorem get_newest_process_picks_first_newest :
  forall (entries : list proc_entry) (s : State) (current : string),
    dominant_process (Some entries) s = Some current
    <-> nonempty current = true
        /\ exists (pre : list proc_entry) (e : proc_entry)
                  (post : list proc_entry) (m : Z),
             entries = pre ++ e :: post
             /\ eligible e = Some (m, current)
             /\ 0 < m
             /\ (forall e' m' n',
                   In e' pre -> eligible e' = Some (m', n') -> m' < m)
             /\ (forall e' m' n',
                   In e' post -> eligible e' = Some (m', n') -> m' <= m).
Proof. exact dominant_process_winner_iff. Qed.

(** X5. [get_newest_process] finds nothing (returns 0) exactly when
    [opendir] fails, or no counting entry has a positive [st_mtime] (the
    empty table included), or the entry it would pick has an empty name: a
    newest process whose comm line is empty hides all older ones. *)
Theorem get_newest_process_finds_nothing :
  forall (proc : option (list proc_entry)) (s : State),
    dominant_process proc s = None
    <-> match proc with
        | None => True
        | Some entries =>
            (forall e m n, In e entries -> eligible e = Some (m, n) -> m <= 0)
            \/ exists (pre : list proc_entry) (e : proc_entry)
                      (post : list proc_entry) (m : Z),
                 entries = pre ++ e :: post
                 /\ eligible e = Some (m, EmptyString)
                 /\ 0 < m
                 /\ (forall e' m' n',
                       In e' pre -> eligible e' = Some (m', n') -> m' < m)
                 /\ (forall e' m' n',
                       In e' post -> eligible e' = Some (m', n') -> m' <= m)
        end.
Proof.
  intros proc s. destruct proc as [entries|].
  2:{ split; [intros _; exact I|reflexivity]. }
  unfold dominant_process, get_newest_process, result. mrun. split.
  - destruct (scan_winner entries (0, EmptyString))
      as [[Hsame Hle]|(pre & e & post & Hsplit & Helig & Hlt & Hpre & Hpost)].
    + intros _. left. exact Hle.
    + destruct (fold_left scan_entry entries (0, EmptyString)) as [m name].
      cbn [fst] in *.
      destruct name as [|c name]; cbn [nonempty fst]; [|discriminate].
      intros _. right. exists pre, e, post, m. auto.
  - intros [Hle|(pre & e & post & m & Hsplit & Helig & Hpos & Hpre & Hpost)].
    + rewrite (scan_keeps entries (0, EmptyString)) by exact Hle. reflexivity.
    + subst entries.
      rewrite (scan_finds pre post e m EmptyString Helig Hpos Hpre Hpost).
      reflexivity.
Qed.

Lemma get_newest_process_finds_nothing_witness :
  let nl := String newline EmptyString in
  dominant_process None (initial_state None true None true) = None
  /\ dominant_process
       (Some [mkProc "42"%string (Some ("game" ++ nl)%string) (Some 100);
              mkProc "43"%string (Some nl) (Some 200)])
       (initial_state None true None true) = None.
Proof.
  intros nl. split.
  - apply (proj2 (get_newest_process_finds_nothing None
                    (initial_state None true None true))).
    exact I.
  - apply (proj2 (get_newest_process_finds_nothing
                    (Some [mkProc "42"%string (Some ("game" ++ nl)%string) (Some 100);
                           mkProc "43"%string (Some nl) (Some 200)])
                    (initial_state None true None true))).
    right.
    exists [mkProc "42"%string (Some ("game" ++ nl)%string) (Some 100)],
      (mkProc "43"%string (Some nl) (Some 200)), [], 200.
    split; [reflexivity|]. split; [vm_compute; reflexivity|].
    split; [lia|]. split.
    + intros e' m' n' [He|[]] Helig. subst e'.
      vm_compute in Helig. inversion Helig. lia.
    + intros e' m' n' [].
Defined.

Lemma get_newest_process_picks_first_newest_witness :
  let nl := String newline EmptyString in
  let entries := [mkProc "1"%string (Some ("init" ++ nl)%string) (Some 900);
                  mkProc "42"%string (Some ("game" ++ nl)%string) (Some 100);
                  mkProc "43"%string (Some ("menu" ++ nl)%string) (Some 100);
                  mkProc "self"%string (Some ("late" ++ nl)%string) (Some 500)] in
  dominant_process (Some entries) (initial_state None true None true)
  = Some "game"%string
  /\ exists (pre : list proc_entry) (e : proc_entry) (post : list proc_entry),
       entries = pre ++ e :: post /\ eligible e = Some (100, "game"%string).
Proof.
  intros nl entries.
  assert (Hrun : dominant_process (Some entries) (initial_state None true None true)
                 = Some "game"%string) by (vm_compute; reflexivity).
  split; [exact Hrun|].
  destruct (proj1 (get_newest_process_picks_first_newest entries
                     (initial_state None true None true) "game"%string) Hrun)
    as (_ & pre & e & post & m & Hsplit & Helig & Hpos & Hpre & Hpost).
  exists pre, e, post. split; [exact Hsplit|].
  assert (Hm : m = 100).
  { destruct pre as [|e0 [|e1 [|e2 [|e3 [|e4 pre]]]]];
      cbn [app] in Hsplit; inversion Hsplit; subst; clear Hsplit;
      vm_compute in Helig; try discriminate Helig;
      try (inversion Helig; reflexivity). }
  rewrite <- Hm. exact Helig.
Defined.

Lemma eligible_not_ignored (e : proc_entry) (m : Z) (name : string) :
  eligible e = Some (m, name) ->
  should_ignore_process name = false /\ strip_newline name = name.
Proof.
  unfold eligible.
  destruct (first_isdigit (d_name e)); [|discriminate].
  destruct (comm_file e) as [content|]; [|discriminate].
  destruct (fgets MAX_PROC_NAME content) as [line|]; [|discriminate].
  destruct (should_ignore_process (strip_newline line)) eqn:Hign; [discriminate|].
  destruct (stat_mtime e) as [mt|]; [|discriminate].
  intros Heq. injection Heq as _ Hname. subst name.
  split; [exact Hign|apply strip_newline_idem].
Qed.

(** X6. A name that [get_newest_process] returns is never an ignored one
    (in particular never the daemon's own), is not empty, contains no
    newline and has at most 63 characters, so it fits every buffer it is
    copied to. *)
Theorem get_newest_process_name_is_clean :
  forall (proc : option (list proc_entry)) (s : State) (current : string),
    dominant_process proc s = Some current ->
    should_ignore_process current = false
    /\ current <> "keymon"%string
    /\ nonempty current = true
    /\ strip_newline current = current
    /\ (String.length current <= 63)%nat.
Proof.
  intros proc s current Hdom.
  destruct proc as [entries|].
  2:{ unfold dominant_process, get_newest_process, result in Hdom.
      discriminate Hdom. }
  apply dominant_process_winner_iff in Hdom.
  destruct Hdom as (Hne & pre & e & post & m & _ & Helig & _).
  destruct (eligible_not_ignored e m current Helig) as [Hign Hnl].
  split; [exact Hign|]. split.
  - intros Heq. subst current. discriminate Hign.
  - split; [exact Hne|]. split; [exact Hnl|].
    apply (eligible_name_length e m current Helig).
Qed.

Lemma get_newest_process_name_is_clean_witness :
  let proc := Some [mkProc "1"%string (Some "init"%string) (Some 900);
                    mkProc "42"%string (Some "retroarch"%string) (Some 100);
                    mkProc "self"%string (Some "mpv"%string) (Some 500)] in
  let s := initial_state None true None true in
  dominant_process proc s = Some "retroarch"%string
  /\ should_ignore_process "retroarch" = false
  /\ (String.length "retroarch" <= 63)%nat.
Proof.
  intros proc s.
  assert (Hdom : dominant_process proc s = Some "retroarch"%string) by reflexivity.
  destruct (get_newest_process_name_is_clean proc s "retroarch"%string Hdom)
    as (Hign & _ & _ & _ & Hlen).
  split; [exact Hdom|]. split; [exact Hign|exact Hlen].
Defined.

(** ** The persistence files *)

Lemma fgets_chars_cons (n : nat) (c : ascii) (rest : string) :
  fgets_chars (S n) (String c rest)
  = if Ascii.eqb c newline then String c EmptyString
    else String c (fgets_chars n rest).
Proof. reflexivity. Qed.

Lemma strip_newline_cons (c : ascii) (rest : string) :
  strip_newline (String c rest)
  = if Ascii.eqb c newline then EmptyString else String c (strip_newline rest).
Proof. reflexivity. Qed.

Lemma strncpy_cons (n : nat) (c : ascii) (rest : string) :
  strncpy (S n) (String c rest) = String c (strncpy n rest).
Proof. reflexivity. Qed.

Lemma fgets_of_written_line (name : string) :
  forall n : nat,
    strip_newline (fgets_chars n (name ++ String newline EmptyString))
    = strncpy n (strip_newline name).
Proof.
  induction name as [|c rest IH]; intros n.
  - destruct n; reflexivity.
  - destruct n as [|n]; [reflexivity|].
    change (String c rest ++ String newline EmptyString)%string
      with (String c (rest ++ String newline EmptyString)).
    rewrite fgets_chars_cons, (strip_newline_cons c rest).
    destruct (Ascii.eqb c newline) eqn:Hc.
    + rewrite strip_newline_cons, Hc. reflexivity.
    + rewrite strip_newline_cons, Hc, strncpy_cons, IH. reflexivity.
Qed.

(** X7. Saving a process name and loading it back: when the last-process
    file can be opened for writing, [load_last_process] after
    [save_last_process name] succeeds and gives [name] cut at its first
    newline and at 63 characters, hence [name] itself when it has no newline
    and fits; when the file cannot be opened for writing, saving changes
    nothing at all. *)
Theorem save_then_load_last_process :
  forall (s : State) (name : string),
    let saved := final (save_last_process name s) in
    (lastproc_file_writable s = true ->
       result (load_last_process MAX_PROC_NAME saved)
       = Some (strncpy 63 (strip_newline name))
       /\ (strip_newline name = name -> (String.length name <= 63)%nat ->
           result (load_last_process MAX_PROC_NAME saved) = Some name))
    /\ (lastproc_file_writable s = false -> saved = s).
Proof.
  intros s name saved. subst saved.
  unfold save_last_process, load_last_process, final, result. mrun. split.
  - intros Hw. rewrite Hw. cbv beta iota zeta.
    cbn [fst snd lastproc_file set_lastproc_file].
    assert (Hload : fgets MAX_PROC_NAME (name ++ String newline EmptyString)
                    = Some (fgets_chars 63 (name ++ String newline EmptyString))).
    { unfold fgets. destruct name; reflexivity. }
    rewrite Hload. cbn [fst]. rewrite fgets_of_written_line.
    split; [reflexivity|].
    intros Hnl Hlen. rewrite Hnl, strncpy_short by exact Hlen. reflexivity.
  - intros Hw. rewrite Hw. reflexivity.
Qed.

Lemma save_then_load_last_process_witness :
  let s := initial_state None true None true in
  let long := ("a-process-name-that-is-far-too-long-for-the-sixty-four-byte-buffer-of-keymon")%string in
  result (load_last_process MAX_PROC_NAME (final (save_last_process "mpv" s)))
  = Some "mpv"%string
  /\ result (load_last_process MAX_PROC_NAME (final (save_last_process long s)))
     = Some (strncpy 63 (strip_newline long)).
Proof.
  intros s long. split.
  - destruct (proj1 (save_then_load_last_process s "mpv"%string) eq_refl)
      as [_ Hclean].
    apply Hclean; [reflexivity|simpl; lia].
  - destruct (proj1 (save_then_load_last_process s long) eq_refl) as [Hcut _].
    exact Hcut.
Defined.

(** X8. Saving a step and loading it back: when the volume file can be
    opened for writing, [save_volume_to_file step] makes [step] the
    persisted step, and a following [load_volume_from_file] returns it
    clamped to [0, 16] and makes that the persisted step; when the file
    cannot be opened for writing, neither the file nor the persisted step
    changes. *)
Theorem save_then_load_volume :
  forall (s : State) (step : Z),
    let saved := final (save_volume_to_file step s) in
    let loaded := load_volume_from_file saved in
    (volume_file_writable s = true ->
       persistent_volume_step saved = step
       /\ result loaded = clamp_step step
       /\ persistent_volume_step (final loaded) = clamp_step step
       /\ (0 <= step <= MAX_STEPS -> result loaded = step))
    /\ (volume_file_writable s = false -> saved = s).
Proof.
  intros s step saved loaded. subst loaded saved.
  unfold save_volume_to_file, load_volume_from_file, final, result. mrun. split.
  - intros Hw. rewrite Hw. cbv beta iota zeta. cbn.
    repeat split; try reflexivity. intros Hstep. apply clamp_step_id. exact Hstep.
  - intros Hw. rewrite Hw. reflexivity.
Qed.

Lemma save_then_load_volume_witness :
  let s := initial_state None true None true in
  result (load_volume_from_file (final (save_volume_to_file 12 s))) = 12
  /\ result (load_volume_from_file (final (save_volume_to_file 40 s))) = clamp_step 40.
Proof.
  intros s. split.
  - destruct (proj1 (save_then_load_volume s 12) eq_refl) as (_ & _ & _ & Hin).
    apply Hin. vm_compute. split; congruence.
  - destruct (proj1 (save_then_load_volume s 40) eq_refl) as (_ & Hclamp & _).
    exact Hclamp.
Defined.

Lemma load_volume_from_file_stable (s : State) :
  let r := load_volume_from_file s in
  persistent_volume_step (final r) = result r
  /\ result (load_volume_from_file (final r)) = result r.
Proof.
  cbv zeta. unfold load_volume_from_file, final, result. mrun.
  destruct (volume_file s) as [[v|]|] eqn:Hfile; cbv beta iota zeta; cbn;
    rewrite ?Hfile; cbn; split; reflexivity.
Qed.

(** X9. [load_volume_from_file] always returns a step in [0, 16] and makes
    it the persisted step; it returns the default 3 when the file is missing
    or holds no number, and the stored number clamped otherwise; it leaves
    the file as it is, so loading again gives the same step. *)
Theorem load_volume_from_file_defaults_and_clamps :
  forall s : State,
    let r := load_volume_from_file s in
    0 <= result r <= MAX_STEPS
    /\ persistent_volume_step (final r) = result r
    /\ volume_file (final r) = volume_file s
    /\ result (load_volume_from_file (final r)) = result r
    /\ (volume_file s = None \/ volume_file s = Some None -> result r = 3)
    /\ (forall v, volume_file s = Some (Some v) -> result r = clamp_step v).
Proof.
  intros s r. subst r.
  unfold load_volume_from_file, final, result. mrun.
  destruct (volume_file s) as [[v|]|] eqn:Hfile; cbv beta iota zeta; cbn;
    rewrite ?Hfile; cbn.
  - pose proof (clamp_step_range v) as Hrange.
    repeat split; try lia; try reflexivity.
    + intros [Hn|Hn]; discriminate Hn.
    + intros v' Hv. injection Hv as Hv. subst v'. reflexivity.
  - unfold MAX_STEPS. repeat split; try lia; try reflexivity. discriminate.
  - unfold MAX_STEPS. repeat split; try lia; try reflexivity. discriminate.
Qed.

Lemma load_volume_from_file_defaults_and_clamps_witness :
  result (load_volume_from_file (initial_state (Some (Some 20)) true None true)) = 16
  /\ result (load_volume_from_file (initial_state (Some None) true None true)) = 3.
Proof.
  split.
  - destruct (load_volume_from_file_defaults_and_clamps
                (initial_state (Some (Some 20)) true None true))
      as (_ & _ & _ & _ & _ & Hstored).
    rewrite (Hstored 20 eq_refl). reflexivity.
  - destruct (load_volume_from_file_defaults_and_clamps
                (initial_state (Some None) true None true))
      as (_ & _ & _ & _ & Hdefault & _).
    apply Hdefault. right. reflexivity.
Defined.

(** ** The persisted step and the volume file agree *)

Lemma volume_coherent_frame (s s' : State) :
  volume_file s' = volume_file s ->
  persistent_volume_step s' = persistent_volume_step s ->
  volume_coherent s -> volume_coherent s'.
Proof.
  unfold volume_coherent, load_volume_from_file, result. mrun.
  intros Hfile Hpers. rewrite Hfile, Hpers.
  destruct (volume_file s) as [[v|]|]; cbn [fst]; auto.
Qed.

Lemma volume_coherent_written (s : State) (step : Z) :
  0 <= step <= MAX_STEPS ->
  volume_file s = Some (Some step) -> persistent_volume_step s = step ->
  volume_coherent s.
Proof.
  unfold volume_coherent, load_volume_from_file, result. mrun.
  intros Hstep Hfile Hpers. rewrite Hfile, Hpers. cbn [fst].
  apply clamp_step_id. exact Hstep.
Qed.

Lemma load_volume_from_file_coherent (s : State) :
  volume_coherent (final (load_volume_from_file s)).
Proof.
  unfold volume_coherent.
  destruct (load_volume_from_file_stable s) as (Hp & Hagain).
  rewrite Hagain, Hp. reflexivity.
Qed.

(** The probe changes nothing but the flag that records its support. *)
Lemma get_brightness_ioctl_final (probe : disp_probe) (s : State) :
  final (get_brightness_ioctl probe s) = s
  \/ final (get_brightness_ioctl probe s) = set_brightness_get_supported 0 s
  \/ final (get_brightness_ioctl probe s) = set_brightness_get_supported 1 s.
Proof.
  unfold get_brightness_ioctl, brightness_found, brightness_not_found, final.
  mrun.
  destruct (brightness_get_supported s =? 0); cbv beta iota zeta; cbn [fst snd];
    [left; reflexivity|].
  destruct (probe_open probe); cbv beta iota zeta; cbn [fst snd negb];
    [|right; left; reflexivity].
  destruct (probe_ioctl probe 0) as [[p0 p1]|].
  - destruct (plausible p1); cbv beta iota zeta; cbn [fst snd];
      [right; right; reflexivity|].
    destruct (plausible p0); cbv beta iota zeta; cbn [fst snd];
      [right; right; reflexivity|].
    destruct (probe_ioctl probe 1) as [[q0 q1]|]; cbv beta iota zeta; cbn [fst snd];
      [destruct (plausible q1); cbv beta iota zeta; cbn [fst snd]|];
      auto.
  - cbv beta iota zeta; cbn [fst snd].
    destruct (probe_ioctl probe 1) as [[q0 q1]|]; cbv beta iota zeta; cbn [fst snd];
      [destruct (plausible q1); cbv beta iota zeta; cbn [fst snd]|];
      auto.
Qed.

Lemma sync_brightness_level_volume (probe : disp_probe) (s : State) :
  let s' := final (sync_brightness_level probe s) in
  volume_file s' = volume_file s
  /\ persistent_volume_step s' = persistent_volume_step s.
Proof.
  cbv zeta. unfold sync_brightness_level. rewrite final_bind.
  destruct (get_brightness_ioctl_final probe s) as [H|[H|H]];
    destruct (result (get_brightness_ioctl probe s));
    autorewrite with run; rewrite H; split; reflexivity.
Qed.

Lemma tick_volume (s : State) (t : Z) (proc : option (list proc_entry))
    (pipe : pipe_read) :
  let s' := final (check_and_restore_on_new_process t proc pipe s) in
  volume_file s' = volume_file s
  /\ persistent_volume_step s' = persistent_volume_step s.
Proof.
  cbv zeta.
  destruct (Z.lt_ge_cases (wrap64 (t - last_process_check s))
              PROCESS_CHECK_INTERVAL) as [Hgate|Hgate].
  { rewrite tick_gated by exact Hgate. split; reflexivity. }
  destruct (Z.eq_dec (skip_next_restore s) 0) as [Hskip|Hskip].
  - rewrite (tick_checking s t proc pipe Hgate Hskip). cbv zeta.
    destruct (dominant_process proc s) as [current|]; [|split; reflexivity].
    destruct (strcmp_ne current (remembered_process s)); [|split; reflexivity].
    unfold final. cbn [fst snd].
    destruct (lastproc_file_writable s); split; reflexivity.
  - rewrite (tick_consumes_flag s t proc pipe Hgate Hskip). split; reflexivity.
Qed.

Lemma handle_menu_event_volume (s : State) (pressed : Z) (now : timespec) :
  let s' := final (handle_menu_event pressed now s) in
  volume_file s' = volume_file s
  /\ persistent_volume_step s' = persistent_volume_step s.
Proof.
  cbv zeta.
  destruct (Z.lt_ge_cases (timespec_diff_ns now (last_menu_event s))
              MIN_MENU_DEBOUNCE_NS) as [Hgate|Hgate].
  - rewrite handle_menu_event_ignored by exact Hgate. split; reflexivity.
  - rewrite handle_menu_event_accepted by exact Hgate. split; reflexivity.
Qed.

Lemma set_brightness_ioctl_volume (s : State) (level : Z) (now : timespec)
    (dev : Z -> disp_attempt) :
  let s' := final (set_brightness_ioctl level now dev s) in
  volume_file s' = volume_file s
  /\ persistent_volume_step s' = persistent_volume_step s.
Proof.
  cbv zeta.
  destruct (Z.lt_ge_cases (timespec_diff_ns now (last_brightness_change s))
              MIN_BRIGHTNESS_INTERVAL_NS) as [Hgate|Hgate].
  - rewrite set_brightness_ioctl_gated by exact Hgate. split; reflexivity.
  - rewrite set_brightness_ioctl_accepted by exact Hgate. split; reflexivity.
Qed.

Lemma save_volume_to_file_coherent (s : State) (step : Z) :
  0 <= step <= MAX_STEPS ->
  volume_coherent s -> volume_coherent (final (save_volume_to_file step s)).
Proof.
  intros Hstep Hs. unfold save_volume_to_file, final. mrun.
  destruct (volume_file_writable s); cbv beta iota zeta; cbn [fst snd].
  - apply (volume_coherent_written _ step Hstep); reflexivity.
  - exact Hs.
Qed.

Lemma setVolumeStep_coherent (s : State) (step : Z) (now : timespec) :
  volume_coherent s -> volume_coherent (final (setVolumeStep step now s)).
Proof.
  intros Hs.
  destruct (Z.lt_ge_cases (timespec_diff_ns now (last_volume_change s))
              MIN_VOLUME_CHANGE_INTERVAL_NS) as [Hgate|Hgate].
  - rewrite setVolumeStep_gated by exact Hgate. exact Hs.
  - rewrite (setVolumeStep_accepted s step now Hgate).
    unfold final. cbn [fst snd].
    destruct (volume_file_writable s).
    + apply (volume_coherent_written _ (clamp_step step));
        [apply clamp_step_range|reflexivity|reflexivity].
    + apply (volume_coherent_frame s); [reflexivity|reflexivity|exact Hs].
Qed.

Lemma dispatch_event_coherent (ev : input_event) (now : timespec)
    (dev : Z -> disp_attempt) (step : Z) (s : State) :
  volume_coherent s -> volume_coherent (final (dispatch_event ev now dev step s)).
Proof.
  intros Hs. unfold dispatch_event.
  assert (Hmenu : forall pressed,
             volume_coherent (final ((handle_menu_event pressed now ;; ret step) s))).
  { intros pressed. autorewrite with run.
    destruct (handle_menu_event_volume s pressed now) as [Hf Hp].
    apply (volume_coherent_frame s); assumption. }
  assert (Hbright : forall level,
             volume_coherent
               (final ((lvl <- gets brightness_level ;;
                        set_brightness_ioctl (level lvl) now dev ;; ret step) s))).
  { intros level. autorewrite with run.
    destruct (set_brightness_ioctl_volume s (level (brightness_level s)) now dev)
      as [Hf Hp].
    apply (volume_coherent_frame s); assumption. }
  assert (Hvol : forall step',
             volume_coherent (final ((setVolumeStep step' now ;; ret step') s))).
  { intros step'. autorewrite with run. apply setVolumeStep_coherent. exact Hs. }
  assert (Hret : volume_coherent (final (ret step s))) by exact Hs.
  destruct ((ev_type ev =? EV_KEY) && (ev_value ev =? 1)).
  - destruct (ev_code ev =? KEY_MENU_LONG); [apply Hmenu|].
    destruct (ev_code ev =? KEY_VOLUP).
    + rewrite final_bind, final_gets, result_gets.
      destruct (truthy (menu_long_pressed s));
        [apply (Hbright (fun lvl => int_add lvl 1))|].
      destruct (step <? MAX_STEPS); [apply Hvol|apply Hret].
    + destruct (ev_code ev =? KEY_VOLDOWN); [|apply Hret].
      rewrite final_bind, final_gets, result_gets.
      destruct (truthy (menu_long_pressed s));
        [apply (Hbright (fun lvl => int_sub lvl 1))|].
      destruct (step >? 0); [apply Hvol|apply Hret].
  - destruct ((ev_type ev =? EV_KEY) && (ev_value ev =? 0)); [|apply Hret].
    destruct (ev_code ev =? KEY_MENU_LONG); [apply Hmenu|apply Hret].
Qed.

Lemma loop_iteration_coherent (env : loop_env) (step : Z) (s : State) :
  volume_coherent s -> volume_coherent (final (loop_iteration env step s)).
Proof.
  intros Hs. unfold loop_iteration. rewrite final_bind.
  destruct (tick_volume s (env_time env) (env_proc env) (env_pipe env)) as [Hf Hp].
  set (s1 := final (check_and_restore_on_new_process
                      (env_time env) (env_proc env) (env_pipe env) s)) in *.
  assert (Hs1 : volume_coherent s1)
    by (apply (volume_coherent_frame s); assumption).
  rewrite final_bind, final_emit.
  destruct (env_select env) as [eintr| |[ev|]]; autorewrite with run; auto.
  apply dispatch_event_coherent. exact Hs1.
Qed.

Lemma main_loop_coherent (envs : list loop_env) :
  forall (step : Z) (s : State),
    volume_coherent s -> volume_coherent (final (main_loop envs step s)).
Proof.
  induction envs as [|env rest IH]; intros step s Hs; cbn [main_loop].
  - exact Hs.
  - rewrite final_bind.
    pose proof (loop_iteration_coherent env step s Hs) as Hs1.
    destruct (fst (result (loop_iteration env step s))).
    + apply IH. exact Hs1.
    + autorewrite with run. exact Hs1.
Qed.

Lemma main_startup_coherent (probe : disp_probe) (pipe : pipe_read)
    (now : timespec) (proc : option (list proc_entry)) (s : State) :
  volume_coherent (final (main_startup probe true pipe now proc s)).
Proof.
  unfold main_startup.
  rewrite final_bind. set (s1 := final (sync_brightness_level probe s)).
  rewrite final_bind, final_emit. cbn [negb].
  rewrite final_bind.
  pose proof (load_volume_from_file_coherent s1) as Hs2.
  destruct (load_volume_from_file_range s1) as [_ [_ Hstep2]].
  set (s2 := final (load_volume_from_file s1)) in *.
  set (step := result (load_volume_from_file s1)) in *.
  rewrite final_bind, final_getVolumeStep.
  fold (live_volume_step pipe s2).
  pose proof (live_volume_step_range pipe s2) as Hlive.
  set (css := live_volume_step pipe s2) in *.
  rewrite final_bind.
  match goal with
  | |- context [final (?m s2)] => set (branch := m s2)
  end.
  assert (Hbranch : volume_coherent (final branch)).
  { subst branch.
    destruct ((css >=? 0) && (int_abs (int_sub css step) >? 1)).
    - autorewrite with run. apply setVolumeStep_coherent. exact Hs2.
    - destruct (Z.geb_spec css 0).
      + autorewrite with run. apply save_volume_to_file_coherent; [lia|exact Hs2].
      + exact Hs2. }
  set (s3 := final branch) in *.
  rewrite final_bind, final_get_newest_process.
  fold (dominant_process proc s3).
  rewrite final_bind, final_ret.
  destruct (dominant_process proc s3) as [name|].
  - destruct (save_last_process_frame s3 name) as [_ Hp].
    apply (volume_coherent_frame s3); [|exact Hp|exact Hbranch].
    unfold save_last_process, final. mrun.
    destruct (lastproc_file_writable s3); reflexivity.
  - exact Hbranch.
Qed.

(** X10. From the moment [main] has loaded the volume file, the persisted
    step in memory is always the step a restart would load from the file:
    after the startup code and after any number of passes of the loop,
    whatever keys arrive, whatever the clocks, the mixer, the display and
    the process table answer and whether or not the files can be written,
    [load_volume_from_file] would return [persistent_volume_step]. *)
Theorem main_keeps_persisted_step_on_disk :
  forall (s : State) (probe : disp_probe) (pipe : pipe_read) (now : timespec)
         (proc : option (list proc_entry)) (envs : list loop_env) (step : Z),
    let started := final (main_startup probe true pipe now proc s) in
    let r := main_loop envs step started in
    volume_coherent started
    /\ volume_coherent (final r)
    /\ result (load_volume_from_file (final r)) = persistent_volume_step (final r).
Proof.
  intros s probe pipe now proc envs step started r.
  assert (Hstart : volume_coherent started)
    by (apply main_startup_coherent).
  assert (Hrun : volume_coherent (final r))
    by (apply main_loop_coherent; exact Hstart).
  split; [exact Hstart|]. split; exact Hrun.
Qed.

(** X11. From the initialisers on, [main] keeps the brightness level in
    [0, 7] and both the persisted step and its local [step] in [0, 16]:
    after the startup code has succeeded and after any number of passes of
    the loop, whatever the outside world answers. *)
Theorem main_keeps_level_and_steps_in_range :
  forall (vf : option (option Z)) (vw : bool) (pf : option string) (pw : bool)
         (probe : disp_probe) (input_ok : bool) (pipe : pipe_read)
         (now : timespec) (proc : option (list proc_entry))
         (envs : list loop_env) (step0 : Z),
    let r0 := main_startup probe input_ok pipe now proc
                (initial_state vf vw pf pw) in
    result r0 = Some step0 ->
    let r := main_loop envs step0 (final r0) in
    0 <= brightness_level (final r) <= 7
    /\ 0 <= persistent_volume_step (final r) <= MAX_STEPS
    /\ 0 <= result r <= MAX_STEPS.
Proof.
  intros vf vw pf pw probe input_ok pipe now proc envs step0 r0 Hstart r.
  destruct (main_invariant vf vw pf pw probe input_ok pipe now proc envs step0
              Hstart) as [Hlevel [Hpers Hstep]].
  split; [exact Hlevel|]. split; assumption.
Qed.

Lemma main_keeps_level_and_steps_in_range_witness :
  let pass := fun (t : Z) (ev : input_event) =>
                mkEnv t None PopenFails (SelectReady (Some ev))
                  (mkTimespec t 0) (fun _ => IoctlOk) in
  let envs := [pass 10 (mkEvent EV_KEY KEY_VOLDOWN 1);
               pass 11 (mkEvent EV_KEY KEY_MENU_LONG 1);
               pass 12 (mkEvent EV_KEY KEY_VOLDOWN 1)] in
  let r0 := main_startup (mkProbe true (fun _ => Some (0, 5))) true
              (PipeLine (Some 0)) (mkTimespec 9 0) None
              (initial_state (Some (Some 1)) true None true) in
  let r := main_loop envs 0 (final r0) in
  result r0 = Some 0
  /\ 0 <= brightness_level (final r) <= 7
  /\ 0 <= persistent_volume_step (final r) <= MAX_STEPS
  /\ 0 <= result r <= MAX_STEPS.
Proof.
  intros pass envs r0 r.
  assert (Hstart : result r0 = Some 0) by reflexivity.
  split; [exact Hstart|].
  exact (main_keeps_level_and_steps_in_range
           (Some (Some 1)) true None true (mkProbe true (fun _ => Some (0, 5)))
           true (PipeLine (Some 0)) (mkTimespec 9 0) None envs 0 Hstart).
Defined.

(** ** Volume actuator *)

Lemma clamp_step_idem (step : Z) : clamp_step (clamp_step step) = clamp_step step.
Proof. apply clamp_step_id. apply clamp_step_range. Qed.

(** X12. The volume actuator treats a request outside [0, 16] exactly like
    the nearest bound: [setVolumeStep step] and
    [setVolumeStep (clamp_step step)] are the same call, and what it hands
    the mixer is never outside the native range [0, 31]. *)
Theorem setVolumeStep_clamps_request :
  forall (s : State) (step : Z) (now : timespec),
    setVolumeStep step now s = setVolumeStep (clamp_step step) now s
    /\ (forall vol, In (TinymixSet vol) (trace (setVolumeStep step now s)) ->
                    0 <= vol <= MAX_VOLUME).
Proof.
  intros s step now. split.
  - unfold setVolumeStep. rewrite clamp_step_idem. reflexivity.
  - destruct (Z.lt_ge_cases (timespec_diff_ns now (last_volume_change s))
                MIN_VOLUME_CHANGE_INTERVAL_NS) as [Hgate|Hgate].
    + rewrite setVolumeStep_gated by exact Hgate.
      intros vol [Heq|[]]. discriminate Heq.
    + rewrite (setVolumeStep_accepted s step now Hgate). unfold trace. cbn [snd].
      intros vol [Heq|[Heq|[Heq|[Heq|[]]]]]; try discriminate Heq.
      injection Heq as Heq. subst vol.
      rewrite stepToVolume_floor by apply clamp_step_range.
      pose proof (clamp_step_range step) as Hr.
      unfold MAX_VOLUME, MAX_STEPS in *.
      split; [apply Z.div_pos; lia|apply Z.div_le_upper_bound; lia].
Qed.

Lemma setVolumeStep_clamps_request_witness :
  let s := initial_state None true None true in
  setVolumeStep 99 (mkTimespec 5 0) s = setVolumeStep 16 (mkTimespec 5 0) s
  /\ In (TinymixSet 31) (trace (setVolumeStep 99 (mkTimespec 5 0) s))
  /\ 0 <= 31 <= MAX_VOLUME.
Proof.
  intros s.
  destruct (setVolumeStep_clamps_request s 99 (mkTimespec 5 0)) as (Hsame & Hsent).
  assert (Hin : In (TinymixSet 31) (trace (setVolumeStep 99 (mkTimespec 5 0) s)))
    by (vm_compute; right; left; reflexivity).
  split; [exact Hsame|]. split; [exact Hin|].
  exact (Hsent 31 Hin).
Defined.

(** X13. The volume actuator's rate limit: a call less than 300 ms after
    the last call that got past the limit (at [t0]) does nothing but read
    the clock: no mixer command, no file write, no flag, no sleep, and the
    state is unchanged. *)
Theorem setVolumeStep_within_interval_is_noop :
  forall (s0 : State) (step0 : Z) (t0 : timespec) (step : Z) (now : timespec),
    MIN_VOLUME_CHANGE_INTERVAL_NS <= timespec_diff_ns t0 (last_volume_change s0) ->
    timespec_diff_ns now t0 < MIN_VOLUME_CHANGE_INTERVAL_NS ->
    let s1 := final (setVolumeStep step0 t0 s0) in
    last_volume_change s1 = t0
    /\ setVolumeStep step now s1 = (tt, s1, [ClockGettime]).
Proof.
  intros s0 step0 t0 step now Hprev Hnow s1.
  assert (Hstamp : last_volume_change s1 = t0).
  { subst s1. rewrite (setVolumeStep_accepted s0 step0 t0 Hprev).
    unfold final. cbn [fst snd]. destruct (volume_file_writable s0); reflexivity. }
  split; [exact Hstamp|].
  apply setVolumeStep_gated. rewrite Hstamp. exact Hnow.
Qed.

Lemma setVolumeStep_within_interval_is_noop_witness :
  let s0 := initial_state None true None true in
  let s1 := final (setVolumeStep 5 (mkTimespec 1 0) s0) in
  last_volume_change s1 = mkTimespec 1 0
  /\ setVolumeStep 6 (mkTimespec 1 299999999) s1 = (tt, s1, [ClockGettime]).
Proof.
  apply (setVolumeStep_within_interval_is_noop
           (initial_state None true None true) 5 (mkTimespec 1 0)
           6 (mkTimespec 1 299999999));
    vm_compute; congruence.
Defined.

(** X14. The daemon does not fight itself: after a volume change that got
    past the rate limit, the next tick of the process-change monitor that
    passes its own 2-second gate only clears the skip-restore flag; it
    enumerates no process, reads no mixer and sends it nothing, even if a new
    process has appeared and the live volume is far from the persisted
    step. *)
Theorem volume_change_suppresses_next_check :
  forall (s : State) (step : Z) (now : timespec) (t : Z)
         (proc : option (list proc_entry)) (pipe : pipe_read),
    MIN_VOLUME_CHANGE_INTERVAL_NS <= timespec_diff_ns now (last_volume_change s) ->
    PROCESS_CHECK_INTERVAL <= wrap64 (t - last_process_check s) ->
    let changed := final (setVolumeStep step now s) in
    skip_next_restore changed = 1
    /\ check_and_restore_on_new_process t proc pipe changed
       = (tt, set_skip_next_restore 0 (set_last_process_check t changed),
          [TimeNull]).
Proof.
  intros s step now t proc pipe Hvol Hgate changed.
  assert (Hflag : skip_next_restore changed = 1
                  /\ last_process_check changed = last_process_check s).
  { subst changed. rewrite (setVolumeStep_accepted s step now Hvol).
    unfold final. cbn [fst snd].
    destruct (volume_file_writable s); split; reflexivity. }
  destruct Hflag as [Hflag Hcheck]. split; [exact Hflag|].
  apply tick_consumes_flag.
  - rewrite Hcheck. exact Hgate.
  - rewrite Hflag. discriminate.
Qed.

Lemma volume_change_suppresses_next_check_witness :
  let s := initial_state (Some (Some 8)) true (Some "shell"%string) true in
  let changed := final (setVolumeStep 9 (mkTimespec 5 0) s) in
  skip_next_restore changed = 1
  /\ check_and_restore_on_new_process 1000
       (Some [mkProc "42"%string (Some "game"%string) (Some 100)])
       (PipeLine (Some 0)) changed
     = (tt, set_skip_next_restore 0 (set_last_process_check 1000 changed),
        [TimeNull]).
Proof.
  apply (volume_change_suppresses_next_check
           (initial_state (Some (Some 8)) true (Some "shell"%string) true)
           9 (mkTimespec 5 0) 1000);
    vm_compute; congruence.
Defined.

(** X15. A volume key pressed while the actuator is rate-limited still
    moves the local step of [main]: with the modifier not held, a volume-up
    (below 16) or volume-down (above 0) less than 300 ms after the last
    volume change returns the step moved by 1 although the mixer gets no
    command and the persisted step and the file stay as they are, so the
    local step and the applied volume drift apart. *)
Theorem rate_limited_key_still_moves_step :
  forall (s : State) (step : Z) (now : timespec) (dev : Z -> disp_attempt),
    menu_long_pressed s = 0 ->
    0 <= step <= MAX_STEPS ->
    timespec_diff_ns now (last_volume_change s) < MIN_VOLUME_CHANGE_INTERVAL_NS ->
    (step < MAX_STEPS ->
       dispatch_event (mkEvent EV_KEY KEY_VOLUP 1) now dev step s
       = (step + 1, s, [ClockGettime]))
    /\ (0 < step ->
       dispatch_event (mkEvent EV_KEY KEY_VOLDOWN 1) now dev step s
       = (step - 1, s, [ClockGettime])).
Proof.
  intros s step now dev Hheld Hstep Hgate. unfold MAX_STEPS in Hstep.
  rewrite (dispatch_volume_up s step now dev Hheld) by lia.
  rewrite (dispatch_volume_down s step now dev Hheld) by lia.
  rewrite !setVolumeStep_gated by exact Hgate.
  unfold MAX_STEPS. split; intros Hb.
  - destruct (Z.ltb_spec step 16); [reflexivity|lia].
  - destruct (Z.gtb_spec step 0); [reflexivity|lia].
Qed.

Lemma rate_limited_key_still_moves_step_witness :
  let s := final (setVolumeStep 4 (mkTimespec 7 0)
                    (initial_state None true None true)) in
  dispatch_event (mkEvent EV_KEY KEY_VOLUP 1) (mkTimespec 7 200000000)
    (fun _ => IoctlOk) 4 s
  = (5, s, [ClockGettime])
  /\ persistent_volume_step s = 4.
Proof.
  intros s. split; [|reflexivity].
  apply (rate_limited_key_still_moves_step s 4 (mkTimespec 7 200000000)
           (fun _ => IoctlOk)); vm_compute; try split; congruence.
Defined.

(** ** Brightness actuator: what a call can cost and write *)

Lemma retry_loop_past_end (fuel : nat) (retry value : Z)
    (dev : Z -> disp_attempt) (s : State) :
  MAX_IOCTL_RETRIES <= retry ->
  set_brightness_retry fuel retry value dev s = (-1, s, []).
Proof.
  intros Hretry. destruct fuel; [reflexivity|].
  cbn [set_brightness_retry].
  destruct (Z.ltb_spec retry MAX_IOCTL_RETRIES); [lia|reflexivity].
Qed.

Lemma trace_triple {A : Type} (a : A) (s : State) (tr : list Event) :
  trace (a, s, tr) = tr.
Proof. reflexivity. Qed.

Lemma retry_loop_bounds (fuel : nat) :
  forall (retry value : Z) (dev : Z -> disp_attempt) (s : State),
    0 <= retry ->
    let tr := trace (set_brightness_retry fuel retry value dev s) in
    Z.of_nat (opens tr) <= Z.max 0 (MAX_IOCTL_RETRIES - retry)
    /\ Forall (eq value) (brightness_writes tr)
    /\ closes tr = List.length (brightness_writes tr)
    /\ 0 <= total_delay tr
       <= (if retry <=? 0 then 30000 else if retry <=? 1 then 20000 else 0)
    /\ mixer_sets tr = [].
Proof.
  induction fuel as [|fuel IH]; intros retry value dev s Hretry; cbv zeta.
  - cbn. repeat split; try lia; try constructor.
    destruct (retry <=? 0); [lia|]. destruct (retry <=? 1); lia.
  - destruct (Z.lt_ge_cases retry MAX_IOCTL_RETRIES) as [Hlt|Hge].
    2:{ rewrite retry_loop_past_end by exact Hge. cbn.
        repeat split; try lia; try constructor.
        destruct (retry <=? 0); [lia|]. destruct (retry <=? 1); lia. }
    rewrite retry_pass by lia. cbv zeta.
    specialize (IH (retry + 1) value dev s ltac:(lia)). cbv zeta in IH.
    destruct IH as (Ho & Hw & Hc & Hd & Hm).
    set (r' := set_brightness_retry fuel (retry + 1) value dev s) in *.
    unfold MAX_IOCTL_RETRIES in *.
    assert (Hbudget :
              forall d, 0 <= d <= 10000 * (retry + 1) ->
                        retry < 2 ->
                        0 <= d + total_delay (trace r')
                        <= (if retry <=? 0 then 30000
                            else if retry <=? 1 then 20000 else 0)).
    { intros d Hdr Hr2.
      destruct (Z.leb_spec retry 0); destruct (Z.leb_spec retry 1);
        destruct (Z.leb_spec (retry + 1) 0); destruct (Z.leb_spec (retry + 1) 1);
        lia. }
    assert (Hzero : 0 <= 0 <= (if retry <=? 0 then 30000
                               else if retry <=? 1 then 20000 else 0)).
    { destruct (retry <=? 0); [lia|]. destruct (retry <=? 1); lia. }
    unfold total_delay in *.
    destruct (dev retry) as [| |errno]; cbn [retryable backoff andb].
    + destruct (Z.ltb_spec retry (3 - 1)); rewrite !trace_triple;
        cbn [app opens closes brightness_writes delays mixer_sets List.length fold_right].
      * repeat split; try assumption; try lia.
        -- apply Hbudget; unfold IOCTL_RETRY_DELAY_US; lia.
        -- apply Hbudget; unfold IOCTL_RETRY_DELAY_US; lia.
      * repeat split; try constructor; try lia.
    + rewrite !trace_triple;
        cbn [app opens closes brightness_writes delays mixer_sets List.length fold_right].
      repeat split; try lia; repeat constructor.
    + destruct (transient_errno errno); cbn [andb];
        [destruct (Z.ltb_spec retry (3 - 1))|];
        rewrite !trace_triple;
        cbn [app opens closes brightness_writes delays mixer_sets List.length fold_right].
      * repeat split; try assumption; try lia.
        -- constructor; [reflexivity|assumption].
        -- apply Hbudget; unfold IOCTL_RETRY_DELAY_US; lia.
        -- apply Hbudget; unfold IOCTL_RETRY_DELAY_US; lia.
      * repeat split; try lia; repeat constructor.
      * repeat split; try lia; repeat constructor.
Qed.

Lemma table_value_in_table (level : Z) :
  In (nth (Z.to_nat (clamp_level level)) brightness_values 0) brightness_values.
Proof.
  pose proof (clamp_level_range level) as Hr.
  apply nth_In. cbn [brightness_values List.length]. lia.
Qed.

(** The trace of any brightness apply, rate-limited or not. *)
Lemma set_brightness_ioctl_trace (s : State) (level : Z) (now : timespec)
    (dev : Z -> disp_attempt) :
  let value := nth (Z.to_nat (clamp_level level)) brightness_values 0 in
  trace (set_brightness_ioctl level now dev s) = [ClockGettime]
  \/ exists s' : State,
       trace (set_brightness_ioctl level now dev s)
       = ClockGettime :: trace (set_brightness_retry 3 0 value dev s').
Proof.
  cbv zeta.
  destruct (Z.lt_ge_cases (timespec_diff_ns now (last_brightness_change s))
              MIN_BRIGHTNESS_INTERVAL_NS) as [Hgate|Hgate].
  - left. rewrite set_brightness_ioctl_gated by exact Hgate. reflexivity.
  - right. rewrite (set_brightness_ioctl_run s level now dev Hgate).
    eexists. reflexivity.
Qed.

(** X19. Whatever the display driver answers, one brightness apply opens
    the device at most 3 times, sleeps at most 30 ms in all, closes the
    device once for every control call it made, writes nothing but the table
    value of the clamped level (so only ever one of 5, 10, 20, 50, 70, 140,
    200, 255) and never touches the mixer. *)
Theorem brightness_apply_is_bounded :
  forall (s : State) (level : Z) (now : timespec) (dev : Z -> disp_attempt),
    let tr := trace (set_brightness_ioctl level now dev s) in
    let value := nth (Z.to_nat (clamp_level level)) brightness_values 0 in
    (opens tr <= 3)%nat
    /\ total_delay tr <= 30000
    /\ closes tr = List.length (brightness_writes tr)
    /\ Forall (eq value) (brightness_writes tr)
    /\ In value brightness_values
    /\ mixer_sets tr = [].
Proof.
  intros s level now dev tr value.
  assert (Hin : In value brightness_values) by apply table_value_in_table.
  destruct (set_brightness_ioctl_trace s level now dev) as [Hgated|[s' Hrun]];
    subst tr.
  - rewrite Hgated. unfold total_delay.
    cbn [opens closes brightness_writes delays mixer_sets fold_right List.length].
    split; [lia|]. split; [lia|]. split; [reflexivity|].
    split; [constructor|]. split; [exact Hin|reflexivity].
  - fold value in Hrun. rewrite Hrun.
    destruct (retry_loop_bounds 3 0 value dev s' ltac:(lia))
      as (Ho & Hw & Hc & Hd & Hm).
    unfold total_delay in *.
    cbn [opens closes brightness_writes delays mixer_sets fold_right].
    change (Z.max 0 (MAX_IOCTL_RETRIES - 0)) with 3 in Ho.
    change (0 <=? 0) with true in Hd. cbv iota in Hd.
    repeat split; try assumption; lia.
Qed.

(** ** Key dispatch: what is ignored, and the modifier *)

Lemma Zeqb_false (a b : Z) : a <> b -> (a =? b) = false.
Proof. apply Z.eqb_neq. Qed.

(** X16. The dispatch of [main] reacts to nothing but presses of the three
    keys and the release of the modifier: an event of another type, a key
    event whose value is neither 0 nor 1 (auto-repeat is 2), a press of any
    other key and a release of any key but the modifier leave the step and
    the state as they are and make no system call, in both variants. *)
Theorem dispatch_ignores_other_events :
  forall (ev : input_event) (now : timespec) (dev : Z -> disp_attempt)
         (step : Z) (s : State),
    ev_type ev <> EV_KEY
    \/ (ev_value ev <> 0 /\ ev_value ev <> 1)
    \/ (ev_value ev = 1 /\ ev_code ev <> KEY_MENU_LONG
        /\ ev_code ev <> KEY_VOLUP /\ ev_code ev <> KEY_VOLDOWN)
    \/ (ev_value ev = 0 /\ ev_code ev <> KEY_MENU_LONG) ->
    Keymon.dispatch_event ev now dev step s = (step, s, [])
    /\ KeymonSimple.dispatch_event ev now dev step s = (step, s, []).
Proof.
  intros ev now dev step s Hother.
  unfold Keymon.dispatch_event, KeymonSimple.dispatch_event.
  destruct Hother as [Ht|[[Hv0 Hv1]|[(Hv & Hm & Hu & Hd)|[Hv Hm]]]].
  - rewrite (Zeqb_false _ _ Ht). split; reflexivity.
  - rewrite (Zeqb_false _ _ Hv0), (Zeqb_false _ _ Hv1), !Bool.andb_false_r.
    destruct (ev_type ev =? EV_KEY); split; reflexivity.
  - rewrite Hv, (Zeqb_false _ _ Hm), (Zeqb_false _ _ Hu), (Zeqb_false _ _ Hd).
    change (1 =? 1) with true. change (1 =? 0) with false.
    rewrite Bool.andb_true_r, Bool.andb_false_r.
    destruct (ev_type ev =? EV_KEY); split; reflexivity.
  - rewrite Hv, (Zeqb_false _ _ Hm).
    change (0 =? 1) with false. change (0 =? 0) with true.
    rewrite Bool.andb_true_r, Bool.andb_false_r.
    destruct (ev_type ev =? EV_KEY); split; reflexivity.
Qed.

Lemma dispatch_ignores_other_events_witness :
  let s := initial_state None true None true in
  Keymon.dispatch_event (mkEvent EV_KEY KEY_VOLUP 2) (mkTimespec 1 0)
    (fun _ => IoctlOk) 5 s = (5, s, [])
  /\ KeymonSimple.dispatch_event (mkEvent EV_KEY KEY_VOLUP 2) (mkTimespec 1 0)
       (fun _ => IoctlOk) 5 s = (5, s, []).
Proof.
  apply (dispatch_ignores_other_events (mkEvent EV_KEY KEY_VOLUP 2)).
  right. left. cbn. split; congruence.
Defined.

Lemma set_brightness_ioctl_no_mixer (s : State) (level : Z) (now : timespec)
    (dev : Z -> disp_attempt) :
  mixer_sets (trace (set_brightness_ioctl level now dev s)) = [].
Proof.
  destruct (set_brightness_ioctl_trace s level now dev) as [Hgated|[s' Hrun]].
  - rewrite Hgated. reflexivity.
  - rewrite Hrun. cbn [mixer_sets].
    apply (retry_loop_bounds 3 0 _ dev s' ltac:(lia)).
Qed.

Lemma dispatch_volume_key_held (s : State) (step : Z) (now : timespec)
    (dev : Z -> disp_attempt) :
  menu_long_pressed s <> 0 ->
  dispatch_event (mkEvent EV_KEY KEY_VOLUP 1) now dev step s
  = (step,
     final (set_brightness_ioctl (int_add (brightness_level s) 1) now dev s),
     trace (set_brightness_ioctl (int_add (brightness_level s) 1) now dev s))
  /\ dispatch_event (mkEvent EV_KEY KEY_VOLDOWN 1) now dev step s
     = (step,
        final (set_brightness_ioctl (int_sub (brightness_level s) 1) now dev s),
        trace (set_brightness_ioctl (int_sub (brightness_level s) 1) now dev s)).
Proof.
  intros Hheld. apply Z.eqb_neq in Hheld.
  unfold dispatch_event. cbn [ev_type ev_code ev_value].
  change (EV_KEY =? EV_KEY) with true. change (1 =? 1) with true.
  change (KEY_VOLUP =? KEY_MENU_LONG) with false.
  change (KEY_VOLUP =? KEY_VOLUP) with true.
  change (KEY_VOLDOWN =? KEY_MENU_LONG) with false.
  change (KEY_VOLDOWN =? KEY_VOLUP) with false.
  change (KEY_VOLDOWN =? KEY_VOLDOWN) with true. cbn [andb].
  mrun. unfold truthy. rewrite Hheld. cbn [negb].
  split.
  - destruct (set_brightness_ioctl (int_add (brightness_level s) 1) now dev s)
      as [[res s'] tr].
    unfold final, trace. cbn [fst snd]. rewrite app_nil_r. reflexivity.
  - destruct (set_brightness_ioctl (int_sub (brightness_level s) 1) now dev s)
      as [[res s'] tr].
    unfold final, trace. cbn [fst snd]. rewrite app_nil_r. reflexivity.
Qed.

(** X17. While the modifier is held the volume keys drive the brightness
    and nothing else: a volume-up (volume-down) press is exactly one
    brightness apply of the current level plus (minus) 1; the local step is
    returned unchanged, the mixer gets no command, and the persisted step
    and the volume file stay as they are. *)
Theorem modifier_held_routes_keys_to_brightness :
  forall (s : State) (step : Z) (now : timespec) (dev : Z -> disp_attempt),
    menu_long_pressed s <> 0 ->
    0 <= brightness_level s <= 7 ->
    let up := dispatch_event (mkEvent EV_KEY KEY_VOLUP 1) now dev step s in
    let down := dispatch_event (mkEvent EV_KEY KEY_VOLDOWN 1) now dev step s in
    up = (step, final (set_brightness_ioctl (brightness_level s + 1) now dev s),
          trace (set_brightness_ioctl (brightness_level s + 1) now dev s))
    /\ down = (step, final (set_brightness_ioctl (brightness_level s - 1) now dev s),
               trace (set_brightness_ioctl (brightness_level s - 1) now dev s))
    /\ mixer_sets (trace up) = [] /\ mixer_sets (trace down) = []
    /\ persistent_volume_step (final up) = persistent_volume_step s
    /\ persistent_volume_step (final down) = persistent_volume_step s
    /\ volume_file (final up) = volume_file s
    /\ volume_file (final down) = volume_file s.
Proof.
  intros s step now dev Hheld Hlevel up down. subst up down.
  destruct (dispatch_volume_key_held s step now dev Hheld) as [Hup Hdown].
  unfold int_add, int_sub in Hup, Hdown.
  rewrite wrap32_small in Hup by lia. rewrite wrap32_small in Hdown by lia.
  rewrite Hup, Hdown. unfold final at 1 3 5 7, trace at 1 3. cbn [fst snd].
  destruct (set_brightness_ioctl_volume s (brightness_level s + 1) now dev)
    as [Hf1 Hp1].
  destruct (set_brightness_ioctl_volume s (brightness_level s - 1) now dev)
    as [Hf2 Hp2].
  repeat split; try assumption; apply set_brightness_ioctl_no_mixer.
Qed.

Lemma modifier_held_routes_keys_to_brightness_witness :
  let s := set_menu_long_pressed 1 (initial_state None true None true) in
  let up := dispatch_event (mkEvent EV_KEY KEY_VOLUP 1) (mkTimespec 3 0)
              (fun _ => IoctlOk) 6 s in
  result up = 6 /\ brightness_level (final up) = 4 /\ mixer_sets (trace up) = [].
Proof.
  intros s up.
  assert (Hheld : menu_long_pressed s <> 0) by (cbn; congruence).
  assert (Hlevel : 0 <= brightness_level s <= 7) by (cbn; lia).
  destruct (modifier_held_routes_keys_to_brightness s 6 (mkTimespec 3 0)
              (fun _ => IoctlOk) Hheld Hlevel) as (Hup & _ & Hmix & _).
  split; [reflexivity|]. split; [reflexivity|exact Hmix].
Defined.

(** X18. Unlike the volume, the brightness is clamped and applied again at
    the ends of its range: with the modifier held and the level at 7, a
    volume-up press that passes the rate limit writes 255 to the device once
    more and leaves the level at 7; at level 0 a volume-down press writes 5
    again. *)
Theorem brightness_key_at_end_is_reapplied :
  forall (s : State) (step : Z) (now : timespec) (dev : Z -> disp_attempt),
    menu_long_pressed s <> 0 ->
    MIN_BRIGHTNESS_INTERVAL_NS <= timespec_diff_ns now (last_brightness_change s) ->
    dev 0 = IoctlOk ->
    (brightness_level s = 7 ->
       dispatch_event (mkEvent EV_KEY KEY_VOLUP 1) now dev step s
       = (step, set_last_brightness_change now (set_brightness_level 7 s),
          [ClockGettime; OpenDisp; IoctlSetBrightness 255; CloseDisp]))
    /\ (brightness_level s = 0 ->
       dispatch_event (mkEvent EV_KEY KEY_VOLDOWN 1) now dev step s
       = (step, set_last_brightness_change now (set_brightness_level 0 s),
          [ClockGettime; OpenDisp; IoctlSetBrightness 5; CloseDisp])).
Proof.
  intros s step now dev Hheld Hgate Hdev.
  destruct (dispatch_volume_key_held s step now dev Hheld) as [Hup Hdown].
  assert (Hloop : forall value s',
             set_brightness_retry 3 0 value dev s'
             = (0, s', [OpenDisp; IoctlSetBrightness value; CloseDisp])).
  { intros value s'. rewrite retry_pass by (unfold MAX_IOCTL_RETRIES; lia).
    cbv zeta. rewrite Hdev. reflexivity. }
  split; intros Hlevel.
  - rewrite Hup, Hlevel.
    rewrite (set_brightness_ioctl_run s (int_add 7 1) now dev Hgate).
    cbv zeta. rewrite Hloop. reflexivity.
  - rewrite Hdown, Hlevel.
    rewrite (set_brightness_ioctl_run s (int_sub 0 1) now dev Hgate).
    cbv zeta. rewrite Hloop. reflexivity.
Qed.

Lemma brightness_key_at_end_is_reapplied_witness :
  let s := set_brightness_level 7
             (set_menu_long_pressed 1 (initial_state None true None true)) in
  dispatch_event (mkEvent EV_KEY KEY_VOLUP 1) (mkTimespec 3 0)
    (fun _ => IoctlOk) 6 s
  = (6, set_last_brightness_change (mkTimespec 3 0) (set_brightness_level 7 s),
     [ClockGettime; OpenDisp; IoctlSetBrightness 255; CloseDisp]).
Proof.
  intros s.
  apply (brightness_key_at_end_is_reapplied s 6 (mkTimespec 3 0) (fun _ => IoctlOk));
    try reflexivity; vm_compute; congruence.
Defined.

(** ** Brightness reader *)

(** X20. Level and device value round-trip: the value that a brightness
    apply writes for a requested level is read back by the startup probe's
    matching as the clamped level, so every table value maps to its own
    index. *)
Theorem level_of_written_value :
  forall level : Z,
    level_of_raw (nth (Z.to_nat (clamp_level level)) brightness_values 0)
    = clamp_level level.
Proof.
  intros level. pose proof (clamp_level_range level) as Hr.
  assert (Hcase : clamp_level level = 0 \/ clamp_level level = 1
                  \/ clamp_level level = 2 \/ clamp_level level = 3
                  \/ clamp_level level = 4 \/ clamp_level level = 5
                  \/ clamp_level level = 6 \/ clamp_level level = 7) by lia.
  destruct Hcase as [H|[H|[H|[H|[H|[H|[H|H]]]]]]]; rewrite H; reflexivity.
Qed.




Ltac probe_done :=
  repeat split; intros; first [assumption | discriminate | reflexivity].

(** What a probe leaves behind, path by path: the flag tells whether it
    found a value, and the device is closed exactly when it was opened. *)
Lemma get_brightness_ioctl_cases (probe : disp_probe) (s : State) :
  let r := get_brightness_ioctl probe s in
  (result r = None -> brightness_get_supported (final r) = 0)
  /\ (forall l, result r = Some l -> brightness_get_supported (final r) = 1)
  /\ closes (trace r)
     = (if negb (brightness_get_supported s =? 0) && probe_open probe
        then 1%nat else 0%nat)
  /\ opens (trace r)
     = (if brightness_get_supported s =? 0 then 0%nat else 1%nat).
Proof.
  cbv zeta.
  unfold get_brightness_ioctl, brightness_found, brightness_not_found,
    final, result, trace.
  mrun.
  destruct (brightness_get_supported s =? 0) eqn:Hflag;
    cbv beta iota zeta; cbn [fst snd negb andb].
  { apply Z.eqb_eq in Hflag. probe_done. }
  destruct (probe_open probe); cbv beta iota zeta; cbn [fst snd negb].
  2:{ probe_done. }
  destruct (probe_ioctl probe 0) as [[p0 p1]|].
  - destruct (plausible p1); cbv beta iota zeta; cbn [fst snd].
    { probe_done. }
    destruct (plausible p0); cbv beta iota zeta; cbn [fst snd].
    { probe_done. }
    destruct (probe_ioctl probe 1) as [[q0 q1]|]; cbv beta iota zeta; cbn [fst snd];
      [destruct (plausible q1); cbv beta iota zeta; cbn [fst snd]|];
      probe_done.
  - cbv beta iota zeta; cbn [fst snd].
    destruct (probe_ioctl probe 1) as [[q0 q1]|]; cbv beta iota zeta; cbn [fst snd];
      [destruct (plausible q1); cbv beta iota zeta; cbn [fst snd]|];
      probe_done.
Qed.

Lemma get_brightness_ioctl_unsupported (probe : disp_probe) (s : State) :
  brightness_get_supported s = 0 ->
  get_brightness_ioctl probe s = (None, s, []).
Proof.
  intros Hflag. unfold get_brightness_ioctl. mrun.
  rewrite Hflag. reflexivity.
Qed.

(** X22. A failed probe is final: whenever [get_brightness_ioctl] returns
    -1 (the device cannot be opened, or neither query yields a value in
    1..255) the query is marked unsupported, and every later probe, whatever
    the device would answer by then, returns -1 at once without opening the
    device; [sync_brightness_level] then leaves the level alone. *)
Theorem failed_probe_is_never_repeated :
  forall (probe probe' : disp_probe) (s : State),
    result (get_brightness_ioctl probe s) = None ->
    let s1 := final (get_brightness_ioctl probe s) in
    brightness_get_supported s1 = 0
    /\ get_brightness_ioctl probe' s1 = (None, s1, [])
    /\ sync_brightness_level probe' s1 = (tt, s1, []).
Proof.
  intros probe probe' s Hnone s1.
  destruct (get_brightness_ioctl_cases probe s) as (Hflag & _).
  specialize (Hflag Hnone). fold s1 in Hflag.
  split; [exact Hflag|]. split.
  - apply get_brightness_ioctl_unsupported. exact Hflag.
  - unfold sync_brightness_level, bind.
    rewrite (get_brightness_ioctl_unsupported probe' s1 Hflag). reflexivity.
Qed.

Lemma failed_probe_is_never_repeated_witness :
  let s := initial_state None true None true in
  let s1 := final (get_brightness_ioctl (mkProbe true (fun _ => Some (0, 0))) s) in
  brightness_get_supported s1 = 0
  /\ get_brightness_ioctl (mkProbe true (fun _ => Some (0, 200))) s1 = (None, s1, [])
  /\ sync_brightness_level (mkProbe true (fun _ => Some (0, 200))) s1 = (tt, s1, []).
Proof.
  apply (failed_probe_is_never_repeated
           (mkProbe true (fun _ => Some (0, 0)))
           (mkProbe true (fun _ => Some (0, 200)))
           (initial_state None true None true)).
  reflexivity.
Defined.

(** X23. The probe never leaks the device: on every path (value found by
    the first query, by the second, or not at all) it closes the device
    exactly once if it opened it, and it opens it at most once; it opens
    nothing when the query is already marked unsupported.  A returned level
    goes with the flag set to 1. *)
Theorem probe_closes_what_it_opens :
  forall (probe : disp_probe) (s : State),
    let r := get_brightness_ioctl probe s in
    closes (trace r)
    = (if negb (brightness_get_supported s =? 0) && probe_open probe
       then 1%nat else 0%nat)
    /\ opens (trace r)
       = (if brightness_get_supported s =? 0 then 0%nat else 1%nat)
    /\ (forall l, result r = Some l ->
          brightness_get_supported (final r) = 1 /\ closes (trace r) = 1%nat).
Proof.
  intros probe s r. subst r.
  destruct (get_brightness_ioctl_cases probe s) as (Hnone & Hsome & Hc & Ho).
  split; [exact Hc|]. split; [exact Ho|].
  intros l Hl. split; [apply (Hsome l Hl)|].
  rewrite Hc.
  destruct (brightness_get_supported s =? 0) eqn:Hflag.
  - apply Z.eqb_eq in Hflag.
    rewrite (get_brightness_ioctl_unsupported probe s Hflag) in Hl. discriminate Hl.
  - destruct (probe_open probe) eqn:Hopen; [reflexivity|].
    exfalso. revert Hl.
    unfold get_brightness_ioctl, result. mrun. rewrite Hflag, Hopen. discriminate.
Qed.

Lemma probe_closes_what_it_opens_witness :
  let r := get_brightness_ioctl (mkProbe true (fun _ => Some (0, 140)))
             (initial_state None true None true) in
  result r = Some 5
  /\ brightness_get_supported (final r) = 1
  /\ closes (trace r) = 1%nat.
Proof.
  intros r.
  assert (Hres : result r = Some 5) by reflexivity.
  split; [exact Hres|].
  destruct (probe_closes_what_it_opens (mkProbe true (fun _ => Some (0, 140)))
              (initial_state None true None true)) as (_ & _ & Hfound).
  exact (Hfound 5 Hres).
Defined.

(** ** Reading the mixer *)

(** X24. [getVolumeStep] returns -1 exactly when the mixer cannot be read
    ([popen] fails or the pipe gives no line) and a step in [0, 16]
    otherwise, whatever number the mixer prints, even one whose product with
    16 does not fit an [int]; a line without a number counts as 0.  As long
    as [value * MAX_STEPS + 15] fits an [int], that is for values from
    -134217728 to 134217727, the step is the quotient of that sum by 31
    clamped to [0, 16]: values from -134217728 to 0 give step 0 and values
    from 31 to 134217727 give step 16.  The two bounds are sharp: on the
    wrap-around of [int], 134217728 gives step 0 and -134217729 gives step
    16.  The call changes no variable. *)
Theorem getVolumeStep_result :
  forall (pipe : pipe_read) (s : State),
    let r := getVolumeStep pipe s in
    final r = s
    /\ (result r = -1 <-> pipe = PopenFails \/ pipe = PipeNoLine)
    /\ (forall scanned, pipe = PipeLine scanned -> 0 <= result r <= MAX_STEPS)
    /\ (pipe = PipeLine None -> result r = 0)
    /\ (forall v, pipe = PipeLine (Some v) -> -134217728 <= v <= 134217727 ->
                  result r = Z.max 0 (Z.min MAX_STEPS (Z.quot (v * 16 + 15) 31)))
    /\ (forall v, pipe = PipeLine (Some v) -> -134217728 <= v <= 0 -> result r = 0)
    /\ (forall v, pipe = PipeLine (Some v) -> 31 <= v <= 134217727 ->
                  result r = MAX_STEPS)
    /\ (pipe = PipeLine (Some 134217728) -> result r = 0)
    /\ (pipe = PipeLine (Some (-134217729)) -> result r = MAX_STEPS).
Proof.
  intros pipe s r. subst r.
  rewrite getVolumeStep_run. unfold final, result. cbn [fst snd].
  pose proof (live_volume_step_range pipe s) as Hrange.
  split; [reflexivity|].
  assert (Hline : forall scanned, pipe = PipeLine scanned ->
                    live_volume_step pipe s
                    = step_of_volume (match scanned with Some v => v | None => 0 end)).
  { intros scanned Hp. subst pipe. reflexivity. }
  split; [|split; [|split; [|split; [|split; [|split; [|split]]]]]].
  - split.
    + intros Hm. destruct pipe as [| |scanned]; auto.
      exfalso. rewrite (Hline scanned eq_refl) in Hm.
      unfold step_of_volume in Hm.
      match type of Hm with clamp_step ?x = _ => pose proof (clamp_step_range x) end.
      lia.
    + intros [Hp|Hp]; subst pipe; reflexivity.
  - intros scanned Hp. rewrite (Hline scanned Hp).
    unfold step_of_volume. apply clamp_step_range.
  - intros Hp. rewrite (Hline None Hp). reflexivity.
  - intros v Hp Hv. rewrite (Hline (Some v) Hp).
    unfold step_of_volume, int_div, int_add, int_mul, MAX_STEPS, MAX_VOLUME.
    rewrite (wrap32_small (v * 16)) by lia. change (Z.quot 31 2) with 15.
    rewrite wrap32_small by lia.
    unfold clamp_step, MAX_STEPS.
    destruct (Z.ltb_spec (Z.quot (v * 16 + 15) 31) 0);
      [destruct (Z.gtb_spec 0 16)|
       destruct (Z.gtb_spec (Z.quot (v * 16 + 15) 31) 16)]; lia.
  - intros v Hp Hv. rewrite (Hline (Some v) Hp).
    unfold step_of_volume, int_div, int_add, int_mul, MAX_STEPS, MAX_VOLUME.
    rewrite (wrap32_small (v * 16)) by lia. change (Z.quot 31 2) with 15.
    rewrite wrap32_small by lia.
    unfold clamp_step, MAX_STEPS.
    assert (Hq : Z.quot (v * 16 + 15) 31 <= 0).
    { destruct (Z.eq_dec v 0) as [H0|H0]; [subst v; cbn; lia|].
      apply Z.quot_le_upper_bound; lia. }
    destruct (Z.ltb_spec (Z.quot (v * 16 + 15) 31) 0); [reflexivity|].
    destruct (Z.gtb_spec (Z.quot (v * 16 + 15) 31) 16); lia.
  - intros v Hp Hv. rewrite (Hline (Some v) Hp).
    unfold step_of_volume, int_div, int_add, int_mul, MAX_STEPS, MAX_VOLUME.
    rewrite (wrap32_small (v * 16)) by lia. change (Z.quot 31 2) with 15.
    rewrite wrap32_small by lia.
    rewrite Z.quot_div_nonneg by lia.
    unfold clamp_step, MAX_STEPS.
    assert (Hq : 16 <= (v * 16 + 15) / 31) by (apply Z.div_le_lower_bound; lia).
    destruct (Z.ltb_spec ((v * 16 + 15) / 31) 0); [lia|].
    destruct (Z.gtb_spec ((v * 16 + 15) / 31) 16); lia.
  - intros Hp. rewrite (Hline _ Hp). vm_compute. reflexivity.
  - intros Hp. rewrite (Hline _ Hp). vm_compute. reflexivity.
Qed.

Lemma getVolumeStep_result_witness :
  let s := initial_state None true None true in
  result (getVolumeStep PipeNoLine s) = -1
  /\ result (getVolumeStep (PipeLine (Some 134217727)) s) = MAX_STEPS
  /\ result (getVolumeStep (PipeLine (Some (-134217728))) s) = 0
  /\ result (getVolumeStep (PipeLine (Some 20)) s) = 10
  /\ result (getVolumeStep (PipeLine (Some 134217728)) s) = 0.
Proof.
  intros s. split; [|split; [|split; [|split]]].
  - destruct (getVolumeStep_result PipeNoLine s) as (_ & Herr & _).
    apply (proj2 Herr). right. reflexivity.
  - destruct (getVolumeStep_result (PipeLine (Some 134217727)) s)
      as (_ & _ & _ & _ & _ & _ & Hhigh & _).
    apply (Hhigh 134217727 eq_refl). lia.
  - destruct (getVolumeStep_result (PipeLine (Some (-134217728))) s)
      as (_ & _ & _ & _ & _ & Hlow & _).
    apply (Hlow (-134217728) eq_refl). lia.
  - destruct (getVolumeStep_result (PipeLine (Some 20)) s)
      as (_ & _ & _ & _ & Hexact & _).
    rewrite (Hexact 20 eq_refl) by lia. reflexivity.
  - destruct (getVolumeStep_result (PipeLine (Some 134217728)) s)
      as (_ & _ & _ & _ & _ & _ & _ & Hwrap & _).
    apply Hwrap. reflexivity.
Defined.

Lemma native_step_native_checked :
  forallb (fun n => Z.abs (stepToVolume (step_of_volume (Z.of_nat n)) - Z.of_nat n)
                    <=? 1)
    (seq 0 32) = true.
Proof. vm_compute. reflexivity. Qed.

(** X25. Native value to step and back stays within one native unit: for
    every mixer value v in 0..31, the native value of the step that
    [getVolumeStep] computes from v differs from v by at most 1, so adopting
    the mixer's volume and applying it again never moves the mixer by more
    than one unit. *)
Theorem native_step_native_within_one :
  forall v : Z,
    0 <= v <= MAX_VOLUME ->
    Z.abs (stepToVolume (step_of_volume v) - v) <= 1.
Proof.
  unfold MAX_VOLUME. intros v Hv.
  pose proof native_step_native_checked as Hall.
  rewrite forallb_forall in Hall.
  specialize (Hall (Z.to_nat v)).
  rewrite Z2Nat.id in Hall by lia.
  apply Z.leb_le. apply Hall. apply in_seq. lia.
Qed.

Lemma native_step_native_within_one_witness :
  Z.abs (stepToVolume (step_of_volume 30) - 30) <= 1
  /\ stepToVolume (step_of_volume 30) = 29.
Proof.
  split; [|reflexivity].
  apply (native_step_native_within_one 30). vm_compute. split; congruence.
Defined.

(** ** Process-change monitor: what a tick does over time *)

(** What a tick leaves and sends, gate by gate. *)
Lemma tick_cases (s : State) (t : Z) (proc : option (list proc_entry))
    (pipe : pipe_read) :
  let r := check_and_restore_on_new_process t proc pipe s in
  (final r = s
   \/ final r = set_skip_next_restore 0 (set_last_process_check t s)
   \/ (skip_next_restore s = 0
       /\ (final r = set_last_process_check t s
           \/ exists name,
                final r = set_lastproc_file (Some name) (set_last_process_check t s))))
  /\ (mixer_sets (trace r) = []
      \/ mixer_sets (trace r) = [stepToVolume (persistent_volume_step s)])
  /\ ~ In (FopenWrite VOLUME_PERSIST_FILE) (trace r)
  /\ ~ In ClockGettime (trace r).
Proof.
  cbv zeta.
  destruct (Z.lt_ge_cases (wrap64 (t - last_process_check s))
              PROCESS_CHECK_INTERVAL) as [Hgate|Hgate].
  { rewrite tick_gated by exact Hgate. unfold final, trace. cbn [fst snd mixer_sets].
    split; [left; reflexivity|]. split; [left; reflexivity|].
    split; intros [H|[]]; discriminate H. }
  destruct (Z.eq_dec (skip_next_restore s) 0) as [Hskip|Hskip].
  2:{ rewrite (tick_consumes_flag s t proc pipe Hgate Hskip).
      unfold final, trace. cbn [fst snd mixer_sets].
      split; [right; left; reflexivity|]. split; [left; reflexivity|].
      split; intros [H|[]]; discriminate H. }
  rewrite (tick_checking s t proc pipe Hgate Hskip). cbv zeta.
  destruct (dominant_process proc s) as [current|].
  2:{ unfold final, trace. cbn [fst snd mixer_sets].
      split; [right; right; split; [exact Hskip|left; reflexivity]|].
      split; [left; reflexivity|].
      split; intros [H|[H|[]]]; discriminate H. }
  destruct (strcmp_ne current (remembered_process s)).
  2:{ unfold final, trace. cbn [fst snd mixer_sets].
      split; [right; right; split; [exact Hskip|left; reflexivity]|].
      split; [left; reflexivity|].
      split; intros [H|[H|[H|[]]]]; discriminate H. }
  unfold final, trace. cbn [fst snd]. split.
  - right. right. split; [exact Hskip|].
    destruct (lastproc_file_writable s); [right; eexists; reflexivity|left; reflexivity].
  - destruct (live_volume_step pipe s >=? 0);
      [destruct (int_abs (int_sub (live_volume_step pipe s)
                                  (persistent_volume_step s)) >? 1)|];
      cbn [app mixer_sets];
      (split; [auto|]);
      split; intro Hin;
      repeat (destruct Hin as [Hin|Hin]; [discriminate Hin|]); exact Hin.
Qed.

(** X26. A process change is acted on once: when a tick that passes the
    gate with the flag clear has found the dominant process [current] and
    the last-process file can be written, [current] is the remembered name
    afterwards, and the next tick that passes the gate and finds the same
    dominant process opens the table and the file, reads no mixer volume and
    sends the mixer nothing. *)
Theorem process_change_is_handled_once :
  forall (s : State) (t1 : Z) (proc1 : option (list proc_entry)) (pipe1 : pipe_read)
         (current : string) (t2 : Z) (proc2 : option (list proc_entry))
         (pipe2 : pipe_read),
    PROCESS_CHECK_INTERVAL <= wrap64 (t1 - last_process_check s) ->
    skip_next_restore s = 0 ->
    dominant_process proc1 s = Some current ->
    lastproc_file_writable s = true ->
    PROCESS_CHECK_INTERVAL <= wrap64 (t2 - t1) ->
    dominant_process proc2 s = Some current ->
    let s1 := final (check_and_restore_on_new_process t1 proc1 pipe1 s) in
    remembered_process s1 = current
    /\ check_and_restore_on_new_process t2 proc2 pipe2 s1
       = (tt, set_last_process_check t2 s1,
          [TimeNull; OpendirProc; FopenRead LAST_PROCESS_FILE]).
Proof.
  intros s t1 proc1 pipe1 current t2 proc2 pipe2 Hgate1 Hskip Hdom1 Hw Hgate2
    Hdom2 s1.
  destruct (dominant_process_name proc1 s current Hdom1) as (_ & Hnl & Hlen).
  assert (Hs1 : remembered_process s1 = current
                /\ last_process_check s1 = t1 /\ skip_next_restore s1 = 0).
  { subst s1. rewrite (tick_checking s t1 proc1 pipe1 Hgate1 Hskip). cbv zeta.
    rewrite Hdom1, Hw. unfold strcmp_ne.
    destruct (String.eqb_spec current (remembered_process s)) as [Heq|Hne];
      cbn [negb]; unfold final; cbn [fst snd].
    - split; [|split; [reflexivity|exact Hskip]].
      rewrite (remembered_process_frame (set_last_process_check t1 s) s)
        by reflexivity.
      symmetry. exact Heq.
    - split; [|split; [reflexivity|exact Hskip]].
      apply remembered_after_write; assumption. }
  destruct Hs1 as (Hrem & Hcheck & Hskip1). split; [exact Hrem|].
  rewrite (tick_checking s1 t2 proc2 pipe2); [|rewrite Hcheck; exact Hgate2|exact Hskip1].
  cbv zeta. rewrite (dominant_process_frame proc2 s1 s), Hdom2, Hrem.
  unfold strcmp_ne. rewrite String.eqb_refl. reflexivity.
Qed.

Lemma process_change_is_handled_once_witness :
  let nl := String newline EmptyString in
  let s := set_persistent_volume_step 8
             (initial_state (Some (Some 8)) true (Some ("shell" ++ nl)%string) true) in
  let proc := Some [mkProc "42"%string (Some ("game" ++ nl)%string) (Some 100)] in
  let s1 := final (check_and_restore_on_new_process 1000 proc (PipeLine (Some 4)) s) in
  remembered_process s1 = "game"%string
  /\ check_and_restore_on_new_process 1002 proc (PipeLine (Some 4)) s1
     = (tt, set_last_process_check 1002 s1,
        [TimeNull; OpendirProc; FopenRead LAST_PROCESS_FILE]).
Proof.
  intros nl s proc s1.
  apply (process_change_is_handled_once s 1000 proc (PipeLine (Some 4))
           "game"%string 1002 proc (PipeLine (Some 4)));
    try reflexivity; vm_compute; congruence.
Defined.

(** X27. A tick of the process-change monitor, whatever it finds, sends the
    mixer at most one command, and that command is the native value of the
    persisted step; it never changes the persisted step, the volume file,
    the brightness level or the volume actuator's time stamp, never sets the
    skip-restore flag, never opens the volume file for writing and never
    reads the monotonic clock. *)
Theorem tick_touches_only_its_own_state :
  forall (s : State) (t : Z) (proc : option (list proc_entry)) (pipe : pipe_read),
    let r := check_and_restore_on_new_process t proc pipe s in
    (mixer_sets (trace r) = []
     \/ mixer_sets (trace r) = [stepToVolume (persistent_volume_step s)])
    /\ persistent_volume_step (final r) = persistent_volume_step s
    /\ volume_file (final r) = volume_file s
    /\ brightness_level (final r) = brightness_level s
    /\ last_volume_change (final r) = last_volume_change s
    /\ (skip_next_restore (final r) = 0
        \/ skip_next_restore (final r) = skip_next_restore s)
    /\ ~ In (FopenWrite VOLUME_PERSIST_FILE) (trace r)
    /\ ~ In ClockGettime (trace r).
Proof.
  intros s t proc pipe r. subst r.
  destruct (tick_cases s t proc pipe) as (Hfinal & Hmix & Hfile & Hclock).
  split; [exact Hmix|].
  destruct Hfinal as [Hf|[Hf|[Hskip [Hf|[name Hf]]]]]; rewrite Hf;
    repeat split; try reflexivity; try assumption;
    first [right; reflexivity | left; reflexivity | left; exact Hskip | idtac].
Qed.

(** X28. Restoring is a fixed point: when the mixer reports exactly the
    native value of the persisted step (as it does right after a
    restoration), the live step read back is the persisted step, and a tick
    sends the mixer nothing, new process or not. *)
Theorem restored_volume_needs_no_restore :
  forall (s : State) (t : Z) (proc : option (list proc_entry)),
    0 <= persistent_volume_step s <= MAX_STEPS ->
    let pipe := PipeLine (Some (stepToVolume (persistent_volume_step s))) in
    live_volume_step pipe s = persistent_volume_step s
    /\ mixer_sets (trace (check_and_restore_on_new_process t proc pipe s)) = [].
Proof.
  intros s t proc Hpers pipe.
  assert (Hlive : live_volume_step pipe s = persistent_volume_step s).
  { subst pipe. unfold live_volume_step, getVolumeStep, result. mrun.
    apply step_of_volume_stepToVolume. exact Hpers. }
  split; [exact Hlive|].
  destruct (Z.lt_ge_cases (wrap64 (t - last_process_check s))
              PROCESS_CHECK_INTERVAL) as [Hgate|Hgate].
  { rewrite tick_gated by exact Hgate. reflexivity. }
  destruct (Z.eq_dec (skip_next_restore s) 0) as [Hskip|Hskip].
  2:{ rewrite (tick_consumes_flag s t proc pipe Hgate Hskip). reflexivity. }
  rewrite (tick_checking s t proc pipe Hgate Hskip). cbv zeta.
  destruct (dominant_process proc s) as [current|]; [|reflexivity].
  destruct (strcmp_ne current (remembered_process s)); [|reflexivity].
  rewrite Hlive. unfold int_sub, int_abs.
  replace (persistent_volume_step s - persistent_volume_step s) with 0 by lia.
  change (wrap32 (Z.abs (wrap32 0)) >? 1) with false.
  destruct (persistent_volume_step s >=? 0); reflexivity.
Qed.

Lemma restored_volume_needs_no_restore_witness :
  let nl := String newline EmptyString in
  let s := set_persistent_volume_step 8
             (initial_state (Some (Some 8)) true (Some ("shell" ++ nl)%string) true) in
  let proc := Some [mkProc "42"%string (Some ("game" ++ nl)%string) (Some 100)] in
  live_volume_step (PipeLine (Some (stepToVolume 8))) s = 8
  /\ mixer_sets (trace (check_and_restore_on_new_process 1000 proc
                          (PipeLine (Some (stepToVolume 8))) s)) = [].
Proof.
  intros nl s proc.
  apply (restored_volume_needs_no_restore s 1000 proc).
  vm_compute. split; congruence.
Defined.

(** ** Startup: reconciling the saved step with the mixer *)

Lemma mixer_sets_app (tr1 tr2 : list Event) :
  mixer_sets (tr1 ++ tr2) = mixer_sets tr1 ++ mixer_sets tr2.
Proof.
  induction tr1 as [|e tr1 IH]; [reflexivity|].
  destruct e; cbn [app mixer_sets]; rewrite IH; reflexivity.
Qed.

Lemma get_brightness_ioctl_no_mixer (probe : disp_probe) (s : State) :
  mixer_sets (trace (get_brightness_ioctl probe s)) = [].
Proof.
  unfold get_brightness_ioctl, brightness_found, brightness_not_found, trace.
  mrun.
  destruct (brightness_get_supported s =? 0); cbv beta iota zeta; cbn [fst snd];
    [reflexivity|].
  destruct (probe_open probe); cbv beta iota zeta; cbn [fst snd negb];
    [|reflexivity].
  destruct (probe_ioctl probe 0) as [[p0 p1]|].
  - destruct (plausible p1); cbv beta iota zeta; cbn [fst snd]; [reflexivity|].
    destruct (plausible p0); cbv beta iota zeta; cbn [fst snd]; [reflexivity|].
    destruct (probe_ioctl probe 1) as [[q0 q1]|]; cbv beta iota zeta; cbn [fst snd];
      [destruct (plausible q1); cbv beta iota zeta; cbn [fst snd]|];
      reflexivity.
  - cbv beta iota zeta; cbn [fst snd].
    destruct (probe_ioctl probe 1) as [[q0 q1]|]; cbv beta iota zeta; cbn [fst snd];
      [destruct (plausible q1); cbv beta iota zeta; cbn [fst snd]|];
      reflexivity.
Qed.

(** The brightness synchronisation is invisible to the volume path. *)
Lemma sync_brightness_level_apart (probe : disp_probe) (s : State) :
  let r := sync_brightness_level probe s in
  volume_file (final r) = volume_file s
  /\ volume_file_writable (final r) = volume_file_writable s
  /\ last_volume_change (final r) = last_volume_change s
  /\ mixer_sets (trace r) = [].
Proof.
  cbv zeta. unfold sync_brightness_level.
  rewrite final_bind, trace_bind, mixer_sets_app, get_brightness_ioctl_no_mixer.
  destruct (get_brightness_ioctl_final probe s) as [H|[H|H]];
    destruct (result (get_brightness_ioctl probe s));
    autorewrite with run; rewrite H; repeat split; reflexivity.
Qed.

Lemma load_volume_from_file_run (s : State) :
  load_volume_from_file s
  = (result (load_volume_from_file s),
     set_persistent_volume_step (result (load_volume_from_file s)) s,
     [FopenRead VOLUME_PERSIST_FILE]).
Proof.
  unfold load_volume_from_file, result. mrun.
  destruct (volume_file s) as [[v|]|]; reflexivity.
Qed.

Lemma load_volume_from_file_frame (s' s : State) :
  volume_file s' = volume_file s ->
  result (load_volume_from_file s') = result (load_volume_from_file s).
Proof.
  intros Hfile. unfold load_volume_from_file, result. mrun.
  rewrite Hfile. destruct (volume_file s) as [[v|]|]; reflexivity.
Qed.

(** The tail of the startup code, the record of the initial process, sends
    the mixer nothing and leaves the volume variables alone. *)
Lemma record_initial_process_apart (proc : option (list proc_entry)) (s : State)
    (step : Z) :
  let r := (initial <- get_newest_process MAX_PROC_NAME proc ;;
            match initial with
            | Some initial_proc => save_last_process initial_proc
            | None => ret tt
            end ;;
            ret (Some step)) s in
  result r = Some step
  /\ persistent_volume_step (final r) = persistent_volume_step s
  /\ volume_file (final r) = volume_file s
  /\ mixer_sets (trace r) = [].
Proof.
  cbv zeta.
  rewrite result_bind, final_bind, trace_bind, mixer_sets_app,
    get_newest_process_run.
  unfold result at 2 4. unfold final at 2 4 6. unfold trace at 1.
  cbn [fst snd mixer_sets app].
  destruct (dominant_process proc s) as [name|].
  - unfold save_last_process, result, final, trace. mrun.
    destruct (lastproc_file_writable s); repeat split; reflexivity.
  - repeat split; reflexivity.
Qed.

Lemma result_triple {A : Type} (a : A) (s : State) (tr : list Event) :
  result (a, s, tr) = a.
Proof. reflexivity. Qed.

Lemma final_triple {A : Type} (a : A) (s : State) (tr : list Event) :
  final (a, s, tr) = s.
Proof. reflexivity. Qed.

(** X29. How [main] reconciles the saved step with the mixer at startup
    (input device open).  [loaded] is the step that the volume file gives
    (3 without one) and [live] the mixer's step:
    - mixer unreadable: the daemon starts from [loaded] and sends nothing;
    - [live] within one step of [loaded]: it adopts [live], sends nothing,
      and stores [live] in the volume file when that can be written;
    - otherwise it keeps [loaded] and enforces it with one mixer command,
      unless the monotonic clock reads less than 300 ms after the time
      stamp of the last volume change (zero at startup), in which case
      nothing is sent.
    The local step is in [0, 16] in every case. *)
Theorem startup_reconciles_volume :
  forall (probe : disp_probe) (pipe : pipe_read) (now : timespec)
         (proc : option (list proc_entry)) (s : State),
    let loaded := result (load_volume_from_file s) in
    let live := live_volume_step pipe s in
    let r := main_startup probe true pipe now proc s in
    exists step : Z,
      result r = Some step
      /\ 0 <= step <= MAX_STEPS
      /\ (live < 0 ->
          step = loaded /\ mixer_sets (trace r) = []
          /\ persistent_volume_step (final r) = loaded
          /\ volume_file (final r) = volume_file s)
      /\ (0 <= live -> Z.abs (live - loaded) <= 1 ->
          step = live /\ mixer_sets (trace r) = []
          /\ (volume_file_writable s = true ->
              persistent_volume_step (final r) = live
              /\ volume_file (final r) = Some (Some live)))
      /\ (0 <= live -> 1 < Z.abs (live - loaded) ->
          step = loaded /\ persistent_volume_step (final r) = loaded
          /\ mixer_sets (trace r)
             = if timespec_diff_ns now (last_volume_change s)
                  <? MIN_VOLUME_CHANGE_INTERVAL_NS
               then [] else [stepToVolume loaded]).
Proof.
  intros probe pipe now proc s loaded live r. subst r. unfold main_startup.
  destruct (sync_brightness_level_apart probe s) as (Hvf & Hvw & Hlvc & Hmix0).
  rewrite result_bind, final_bind, trace_bind, mixer_sets_app, Hmix0.
  set (s1 := final (sync_brightness_level probe s)) in *.
  rewrite result_bind, final_bind, trace_bind, mixer_sets_app, final_emit.
  change (trace (emit OpenInput s1)) with [OpenInput].
  cbn [negb mixer_sets app].
  rewrite result_bind, final_bind, trace_bind, mixer_sets_app.
  rewrite (load_volume_from_file_run s1), result_triple, final_triple, trace_triple.
  rewrite (load_volume_from_file_frame s1 s Hvf). fold loaded.
  set (s2 := set_persistent_volume_step loaded s1).
  rewrite result_bind, final_bind, trace_bind, mixer_sets_app.
  rewrite (getVolumeStep_run pipe s2), result_triple, final_triple, trace_triple.
  rewrite (live_volume_step_frame pipe s2 s). fold live.
  cbn [mixer_sets app].
  assert (Hloaded : 0 <= loaded <= MAX_STEPS).
  { destruct (load_volume_from_file_range s) as [_ Hr].
    unfold steps_in_range in Hr. subst loaded. unfold MAX_STEPS in *.
    cbv zeta in Hr. lia. }
  assert (Hlive : live = -1 \/ 0 <= live <= MAX_STEPS)
    by (apply live_volume_step_range).
  assert (Hdist : int_abs (int_sub live loaded) = Z.abs (live - loaded))
    by (apply step_distance; unfold MAX_STEPS in *; lia).
  rewrite Hdist.
  rewrite result_bind, final_bind, trace_bind, mixer_sets_app.
  match goal with
  | |- context [final (?m s2)] => set (branch := m s2)
  end.
  destruct (record_initial_process_apart proc (final branch) (result branch))
    as (Hres & Hpers & Hfile & Hmix).
  cbv zeta in Hres, Hpers, Hfile, Hmix.
  exists (result branch).
  rewrite Hres, Hpers, Hfile, Hmix, app_nil_r.
  split; [reflexivity|].
  destruct (Z.geb_spec live 0) as [Hge|Hlt].
  - destruct (Z.gtb_spec (Z.abs (live - loaded)) 1) as [Hfar|Hnear];
      cbn [andb] in branch.
    + assert (Hbranch : branch
                        = (loaded, final (setVolumeStep loaded now s2),
                           trace (setVolumeStep loaded now s2))).
      { subst branch. unfold bind, ret, final, trace.
        destruct (setVolumeStep loaded now s2) as [[u s3] tr3].
        cbn [fst snd]. rewrite app_nil_r. reflexivity. }
      rewrite Hbranch, result_triple, final_triple, trace_triple.
      split; [exact Hloaded|].
      split; [intros; lia|]. split; [intros; lia|].
      intros _ _. split; [reflexivity|].
      assert (Hstamp : last_volume_change s2 = last_volume_change s)
        by (subst s2; cbn; exact Hlvc).
      destruct (Z.ltb_spec (timespec_diff_ns now (last_volume_change s))
                  MIN_VOLUME_CHANGE_INTERVAL_NS) as [Hgate|Hgate].
      * rewrite setVolumeStep_gated by (rewrite Hstamp; exact Hgate).
        rewrite final_triple, trace_triple. split; reflexivity.
      * rewrite setVolumeStep_accepted by (rewrite Hstamp; exact Hgate).
        rewrite final_triple, trace_triple, (clamp_step_id loaded Hloaded).
        split; [|reflexivity].
        destruct (volume_file_writable s2); reflexivity.
    + assert (Hbranch : branch
                        = (live, final (save_volume_to_file live s2),
                           trace (save_volume_to_file live s2))).
      { subst branch. unfold bind, ret, final, trace.
        destruct (save_volume_to_file live s2) as [[u s3] tr3].
        cbn [fst snd]. rewrite app_nil_r. reflexivity. }
      rewrite Hbranch, result_triple, final_triple, trace_triple.
      split; [unfold MAX_STEPS in *; lia|].
      split; [intros; lia|]. split; [|intros; lia].
      intros _ _. split; [reflexivity|].
      assert (Hw : volume_file_writable s2 = volume_file_writable s)
        by (subst s2; cbn; exact Hvw).
      unfold save_volume_to_file, final, trace. mrun. rewrite Hw.
      destruct (volume_file_writable s); cbn [fst snd mixer_sets].
      * split; [reflexivity|]. intros _. split; reflexivity.
      * split; [reflexivity|]. intros Hf. discriminate Hf.
  - cbn [andb] in branch. subst branch.
    rewrite result_ret, final_ret. change (trace (ret loaded s2)) with (@nil Event).
    split; [exact Hloaded|].
    split; [|split; intros; lia].
    intros _. repeat split; try reflexivity. subst s2. cbn. exact Hvf.
Qed.

Lemma startup_reconciles_volume_witness :
  let s := initial_state (Some (Some 8)) true None true in
  let probe := mkProbe false (fun _ => None) in
  let far := main_startup probe true (PipeLine (Some 4)) (mkTimespec 5 0) None s in
  let near := main_startup probe true (PipeLine (Some 17)) (mkTimespec 5 0) None s in
  (result far = Some 8 /\ mixer_sets (trace far) = [stepToVolume 8])
  /\ (result near = Some 9 /\ mixer_sets (trace near) = []
      /\ volume_file (final near) = Some (Some 9)).
Proof.
  intros s probe far near. split.
  - destruct (startup_reconciles_volume probe (PipeLine (Some 4)) (mkTimespec 5 0)
                None s) as (step & Hres & _ & _ & _ & Hfar).
    destruct Hfar as (Hstep & _ & Hsent); [vm_compute; congruence|vm_compute; reflexivity|].
    subst far. rewrite Hres, Hsent, Hstep. split; reflexivity.
  - destruct (startup_reconciles_volume probe (PipeLine (Some 17)) (mkTimespec 5 0)
                None s) as (step & Hres & _ & _ & Hnear & _).
    destruct Hnear as (Hstep & Hsent & Hfile); [vm_compute; congruence ..|].
    destruct (Hfile eq_refl) as (_ & Hstored).
    subst near. rewrite Hres, Hsent, Hstored, Hstep. repeat split; reflexivity.
Defined.

(** ** The single-file variant: the step of [main] *)

Lemma simple_clamp_step_range (step : Z) :
  0 <= KeymonSimple.clamp_step step <= KeymonSimple.MAX_STEPS.
Proof.
  unfold KeymonSimple.clamp_step, KeymonSimple.MAX_STEPS.
  destruct (Z.ltb_spec step 0); cbv zeta.
  - reflexivity || (cbn; lia).
  - destruct (Z.gtb_spec step 10); lia.
Qed.

(** A key event leaves the step of [main] alone or moves it by one, up only
    from below MAX_STEPS and down only from above 0. *)
Lemma simple_dispatch_event_step (ev : input_event) (now : timespec)
    (dev : Z -> disp_attempt) (step : Z) (s : State) :
  let step' := result (KeymonSimple.dispatch_event ev now dev step s) in
  step' = step
  \/ (step < KeymonSimple.MAX_STEPS /\ step' = int_add step 1)
  \/ (0 < step /\ step' = int_sub step 1).
Proof.
  cbv zeta. unfold KeymonSimple.dispatch_event.
  repeat match goal with
         | |- context [if ?a =? ?b then _ else _] => destruct (a =? b)
         end;
    try (left; reflexivity);
    try (rewrite result_bind; left; reflexivity).
  - rewrite result_bind, result_gets, final_gets.
    destruct (truthy (menu_long_pressed s)).
    + left. rewrite result_bind, result_bind. reflexivity.
    + destruct (Z.ltb_spec step KeymonSimple.MAX_STEPS); [|left; reflexivity].
      right. left. split; [assumption|].
      cbv zeta. rewrite result_bind. reflexivity.
  - rewrite result_bind, result_gets, final_gets.
    destruct (truthy (menu_long_pressed s)).
    + left. rewrite result_bind, result_bind. reflexivity.
    + destruct (Z.gtb_spec step 0); [|left; reflexivity].
      right. right. split; [lia|].
      cbv zeta. rewrite result_bind. reflexivity.
Qed.

(** X30. The step of the single-file variant's [main].  It is
    [getVolumeStep]'s return value taken as it comes: -1 exactly when the
    mixer cannot be read, a step in [0, 10] otherwise.  Every pass of the
    loop keeps it in [-1, 10].  From -1, with the modifier not held, a
    volume-up press takes it to 0 and sends the mixer the native value 0,
    and a volume-down press is dropped. *)
Theorem simple_main_step_may_start_at_minus_one :
  forall (probe : disp_probe) (pipe : pipe_read) (s : State)
         (rd : option input_event) (now : timespec) (dev : Z -> disp_attempt)
         (step : Z) (s' : State),
    (exists step0 : Z,
        result (KeymonSimple.main_startup probe true pipe s) = Some step0
        /\ -1 <= step0 <= KeymonSimple.MAX_STEPS
        /\ (step0 = -1 <-> (pipe = PopenFails \/ pipe = PipeNoLine)))
    /\ (-1 <= step <= KeymonSimple.MAX_STEPS ->
        -1 <= result (KeymonSimple.loop_iteration rd now dev step s')
           <= KeymonSimple.MAX_STEPS)
    /\ (menu_long_pressed s' = 0 ->
        KeymonSimple.loop_iteration (Some (mkEvent EV_KEY KEY_VOLUP 1)) now dev (-1) s'
        = (0, s', [ReadInput; AmixerSet 0])
        /\ KeymonSimple.loop_iteration (Some (mkEvent EV_KEY KEY_VOLDOWN 1)) now dev (-1) s'
           = (-1, s', [ReadInput])).
Proof.
  intros probe pipe s rd now dev step s'. split; [|split].
  - unfold KeymonSimple.main_startup.
    rewrite result_bind, result_bind, final_emit. cbn [negb].
    rewrite result_bind, result_ret.
    set (s1 := final (sync_brightness_level probe s)).
    exists (result (KeymonSimple.getVolumeStep pipe s1)).
    split; [reflexivity|].
    unfold KeymonSimple.getVolumeStep, result. mrun.
    destruct pipe as [| |scanned]; cbn [fst].
    + unfold KeymonSimple.MAX_STEPS. split; [lia|]. split; auto.
    + unfold KeymonSimple.MAX_STEPS. split; [lia|]. split; auto.
    + unfold KeymonSimple.step_of_percent. cbv zeta.
      match goal with
      | |- context [KeymonSimple.clamp_step ?x] =>
          pose proof (simple_clamp_step_range x) as Hrange;
          set (c := KeymonSimple.clamp_step x) in *
      end.
      split; [lia|]. split; [lia|]. intros [H|H]; discriminate H.
  - intros Hstep. unfold KeymonSimple.loop_iteration.
    rewrite result_bind, final_emit.
    destruct rd as [ev|]; [|rewrite result_ret; exact Hstep].
    pose proof (simple_dispatch_event_step ev now dev step s') as Hcases.
    cbv zeta in Hcases. unfold KeymonSimple.MAX_STEPS, int_add, int_sub in *.
    destruct Hcases as [H|[[Hlt H]|[Hgt H]]]; rewrite H.
    + exact Hstep.
    + rewrite wrap32_small by lia. lia.
    + rewrite wrap32_small by lia. lia.
  - intros Hheld. unfold KeymonSimple.loop_iteration. split.
    + unfold bind at 1, emit at 1.
      rewrite (simple_dispatch_volume_up s' (-1) now dev Hheld) by lia.
      change (-1 <? KeymonSimple.MAX_STEPS) with true.
      rewrite simple_setVolumeStep_run. reflexivity.
    + unfold bind at 1, emit at 1.
      rewrite (simple_dispatch_volume_down s' (-1) now dev Hheld) by lia.
      reflexivity.
Qed.

Lemma simple_main_step_may_start_at_minus_one_witness :
  let s := initial_state None true None true in
  let probe := mkProbe false (fun _ => None) in
  let now := mkTimespec 5 0 in
  let dev := fun _ : Z => IoctlOk in
  (exists step0 : Z,
      result (KeymonSimple.main_startup probe true PopenFails s) = Some step0
      /\ step0 = -1)
  /\ KeymonSimple.loop_iteration (Some (mkEvent EV_KEY KEY_VOLUP 1)) now dev (-1) s
     = (0, s, [ReadInput; AmixerSet 0])
  /\ -1 <= result (KeymonSimple.loop_iteration
                     (Some (mkEvent EV_KEY KEY_VOLDOWN 1)) now dev 0 s)
        <= KeymonSimple.MAX_STEPS.
Proof.
  intros s probe now dev.
  destruct (simple_main_step_may_start_at_minus_one probe PopenFails s
              (Some (mkEvent EV_KEY KEY_VOLDOWN 1)) now dev 0 s)
    as ((step0 & Hres & _ & Herr) & Hkeep & Hkeys).
  split; [|split].
  - exists step0. split; [exact Hres|]. apply (proj2 Herr). left. reflexivity.
  - exact (proj1 (Hkeys eq_refl)).
  - apply Hkeep. unfold KeymonSimple.MAX_STEPS. lia.
Defined.
